(** * The Last Sentinel: signal interception engine

    A shallow embedding of the server-side engine of the repository:
    - [server/lib/scraper.js]   (URL guard, content analyzer),
    - [server/lib/insforge.js]  (input sanitizers and AI reply validation),
    - [server/lib/signal.js]    (session scheduler: start / stop / status /
                                 periodic tick / forced scan),
    - [server/routes/targets.js] (the handler that creates a target).

    JavaScript strings are sequences of UTF-16 code units; the platform
    functions the engine calls but does not define (the WHATWG URL parser,
    [String.prototype.toLowerCase], [JSON.parse], SHA-256) are the fields of
    the [Runtime] interface, and the collaborators reached over the network
    (page fetch, storage, chat completion, clock, random noise) are the fields
    of the [Env] interface, indexed by a logical step counter so that they may
    answer differently at every call. *)

From Stdlib Require Import Ascii DecimalString QArith.QArith_base.
From stdpp Require Import gmap strings list numbers.

Local Open Scope Z_scope.

(* ===================================================================== *)
(** ** JavaScript strings                                                  *)
(* ===================================================================== *)

Module JS.

(** A string is the list of its UTF-16 code units. *)
Abbreviation jsstring := (list N).

(** ASCII literals. *)
Fixpoint js (s : string) : jsstring :=
  match s with
  | EmptyString => []
  | String c r => N_of_ascii c :: js r
  end.

(** [String(n)] for a non-negative integer. *)
Definition dec (n : N) : jsstring := js (NilZero.string_of_uint (N.to_uint n)).

Definition len (s : jsstring) : Z := Z.of_nat (length s).

(** ECMAScript WhiteSpace and LineTerminator code units: the class [\s] of
    regular expressions and the characters removed by [trim]. *)
Definition isWhiteSpace (c : N) : bool :=
  ((9 <=? c) && (c <=? 13) || (c =? 32) || (c =? 160) || (c =? 5760)
   || (8192 <=? c) && (c <=? 8202) || (c =? 8232) || (c =? 8233)
   || (c =? 8239) || (c =? 8287) || (c =? 12288) || (c =? 65279))%N.

(** The class [\d]. *)
Definition isDigit (c : N) : bool := ((48 <=? c) && (c <=? 57))%N.

(** The class [\w]: [A-Za-z0-9_]. *)
Definition isWordChar (c : N) : bool :=
  ((65 <=? c) && (c <=? 90) || (97 <=? c) && (c <=? 122)
   || isDigit c || (c =? 95))%N.

Fixpoint trimStart (s : jsstring) : jsstring :=
  match s with
  | c :: r => if isWhiteSpace c then trimStart r else s
  | [] => []
  end.

Definition trimEnd (s : jsstring) : jsstring := rev (trimStart (rev s)).

Definition trim (s : jsstring) : jsstring := trimEnd (trimStart s).

(** Argument clamping of [substring] and [indexOf]. *)
Definition clamp (n i : Z) : Z := Z.min (Z.max i 0) n.

(** [s.substring(a, b)]: both arguments are clamped to [0, length] and
    swapped when [a > b]. *)
Definition substring (s : jsstring) (a b : Z) : jsstring :=
  let a' := clamp (len s) a in
  let b' := clamp (len s) b in
  let lo := Z.min a' b' in
  let hi := Z.max a' b' in
  take (Z.to_nat (hi - lo)) (drop (Z.to_nat lo) s).

Fixpoint startsWith (pat s : jsstring) : bool :=
  match pat, s with
  | [], _ => true
  | p :: pat', c :: s' => (p =? c)%N && startsWith pat' s'
  | _ :: _, [] => false
  end.

(** Scan for [pat] in [s], the suffix of the subject that starts at
    position [k]. *)
Fixpoint indexFrom (pat s : jsstring) (k : nat) : Z :=
  if startsWith pat s then Z.of_nat k
  else match s with
       | [] => -1
       | _ :: r => indexFrom pat r (S k)
       end.

(** [s.indexOf(pat, pos)]. *)
Definition indexOf (s pat : jsstring) (pos : Z) : Z :=
  let start := Z.to_nat (clamp (len s) pos) in
  indexFrom pat (drop start s) start.

(** [s.includes(pat)]. *)
Definition includes (s pat : jsstring) : bool := negb (indexOf s pat 0 =? -1).

(** [arr.includes(x)] on an array of strings. *)
Definition arrayIncludes (arr : list jsstring) (x : jsstring) : bool :=
  bool_decide (x ∈ arr).

(** [arr.join(sep)]. *)
Fixpoint join (sep : jsstring) (arr : list jsstring) : jsstring :=
  match arr with
  | [] => []
  | [x] => x
  | x :: rest => x ++ sep ++ join sep rest
  end.

(** [Number(s)] for a string of decimal digits. *)
Definition digitsToN (s : jsstring) : N :=
  fold_left (fun acc c => (10 * acc + (c - 48))%N) s 0%N.

(** [s.split('.')]. *)
Fixpoint splitDot (s : jsstring) : list jsstring :=
  match s with
  | [] => [[]]
  | c :: r =>
      if (c =? 46)%N then [] :: splitDot r
      else match splitDot r with
           | p :: ps => (c :: p) :: ps
           | [] => [[c]]
           end
  end.

(** Lower-casing of the Basic Latin block, the restriction of
    [toLowerCase] to strings of ASCII code units. *)
Definition asciiLower (s : jsstring) : jsstring :=
  map (fun c => if ((65 <=? c) && (c <=? 90))%N then (c + 32)%N else c) s.

End JS.

Import JS.

(* ===================================================================== *)
(** ** Values, exceptions and the platform interface                       *)
(* ===================================================================== *)

(** The result of an expression that may throw [new Error(msg)]. *)
Inductive outcome (A : Type) : Type :=
| Ret (a : A)
| Throw (msg : jsstring).
Arguments Ret {A} a.
Arguments Throw {A} msg.

#[export] Instance outcome_ret : MRet outcome := fun A a => Ret a.
#[export] Instance outcome_bind : MBind outcome := fun A B f m =>
  match m with
  | Ret a => f a
  | Throw msg => Throw msg
  end.

Definition throwIf (b : bool) (msg : jsstring) : outcome unit :=
  if b then Throw msg else Ret tt.

(** The JSON values a parsed reply may carry in a property. Arrays and nested
    objects are opaque: the engine only tests them with [typeof] and for
    truthiness. [JUndefined] is the value of an absent property. *)
Inductive jsvalue : Type :=
| JUndefined
| JNull
| JBool (b : bool)
| JNumber (q : Q)
| JString (s : jsstring)
| JArray
| JObject.

#[export] Instance jsvalue_inhabited : Inhabited jsvalue := populate JUndefined.

(** An object is the finite map of its own properties. *)
Abbreviation jsobject := (gmap jsstring jsvalue).

(** [obj.k], [undefined] when the property is absent. *)
Definition getProp (obj : jsobject) (k : jsstring) : jsvalue :=
  default JUndefined (obj !! k).

(** ToBoolean. *)
Definition truthy (v : jsvalue) : bool :=
  match v with
  | JUndefined | JNull => false
  | JBool b => b
  | JNumber q => negb (Qeq_bool q 0)
  | JString s => negb (bool_decide (s = []))
  | JArray | JObject => true
  end.

(** [typeof v === 'string']. *)
Definition isString (v : jsvalue) : bool :=
  match v with JString _ => true | _ => false end.

(** [a || b]. *)
Definition orElse (a b : jsvalue) : jsvalue := if truthy a then a else b.

(** The record built by [new URL(s)], restricted to the properties read. *)
Record URL : Type := mkURL {
  protocol : jsstring;
  hostname : jsstring;
  href : jsstring
}.

(** Platform functions called by the engine. [URL_parse] is [None] when
    [new URL] throws, [JSON_parse] is [None] when [JSON.parse] throws;
    [JSON_parse] is only applied to text delimited by braces, for which a
    successful parse is an object. *)
Class Runtime : Type := {
  toLowerCase : jsstring → jsstring;
  URL_parse : jsstring → option URL;
  JSON_parse : jsstring → option jsobject;
  sha256hex : jsstring → jsstring
}.

(* ===================================================================== *)
(** ** Data model                                                          *)
(* ===================================================================== *)

(** A row of [watch_targets], with the columns the engine reads. *)
Record Target : Type := mkTarget {
  t_id : jsstring;
  t_url : jsstring;
  t_keywords : list jsstring;
  t_name : option jsstring;
  t_last_hash : option jsstring
}.

(** [target.name || target.url]. *)
Definition displayName (t : Target) : jsstring :=
  match t_name t with
  | Some (c :: n) => c :: n
  | _ => t_url t
  end.

(** What [fetch] resolves to: [ok], the status line, the declared content
    length ([None] when the header is absent or not a number) and the text of
    the [body] element once cheerio has removed the unwanted elements. *)
Record Response : Type := mkResponse {
  r_ok : bool;
  r_status : N;
  r_statusText : jsstring;
  r_contentLength : option Z;
  r_bodyText : jsstring
}.

(** The object returned by [checkForSignal]. *)
Record ScanResult : Type := mkScanResult {
  changed : bool;
  matches : list jsstring;
  content : jsstring;
  hash : jsstring
}.

(** The argument of [signals.create]. *)
Record SignalRecord : Type := mkSignalRecord {
  target_id : jsstring;
  user_id : jsstring;
  sr_content : jsstring;
  matched_keywords : list jsstring;
  ai_summary : jsvalue;
  ai_threat_level : jsvalue;
  ai_category : jsvalue;
  source_url : jsstring
}.

(** The [data] of a [SIGNAL_INTERCEPTED] event. *)
Record SignalEvent : Type := mkSignalEvent {
  ev_id : jsstring;
  ev_targetName : jsstring;
  ev_url : jsstring;
  ev_keywords : list jsstring;
  ev_content : jsstring;
  ev_ai : option jsobject;
  ev_timestamp : jsstring
}.

(** The lines handed to [onNoise], by the statement that builds them. *)
Inductive NoiseLine : Type :=
| NoiseRandom (dump : jsstring)
| ScanUpdated (name : jsstring)
| ScanNoChange (name : jsstring)
| ScanError (name msg : jsstring)
| SystemError (msg : jsstring)
| ManualScanInitiated
| Scanning (name : jsstring)
| ScanComplete (name : jsstring)
| ManualScanComplete
| ScanFailed (msg : jsstring).

(** The string each line stands for. *)
Definition render (l : NoiseLine) : jsstring :=
  match l with
  | NoiseRandom dump => dump
  | ScanUpdated name => js "[SCAN] " ++ name ++ js " - Content updated, no signal"
  | ScanNoChange name => js "[SCAN] " ++ name ++ js " - No change detected"
  | ScanError name msg => js "[ERROR] " ++ name ++ js " - " ++ msg
  | SystemError msg => js "[SYSTEM ERROR] " ++ msg
  | ManualScanInitiated => js "[MANUAL SCAN INITIATED]"
  | Scanning name => js "[SCANNING] " ++ name
  | ScanComplete name => js "[COMPLETE] " ++ name ++ js " - No signal"
  | ManualScanComplete => js "[MANUAL SCAN COMPLETE]"
  | ScanFailed msg => js "[SCAN FAILED] " ++ msg
  end.

(** A session object of [signal.js]. *)
Record Session : Type := mkSession {
  s_id : jsstring;
  s_userId : jsstring;
  s_interval : option nat;
  s_isRunning : bool
}.

(** The variables captured by the callback given to [setInterval]: the
    session object (by reference), the user and the two callbacks, which are
    identified by the sink they write to. *)
Record Closure : Type := mkClosure {
  c_session : nat;
  c_userId : jsstring;
  c_onSignal : nat;
  c_onNoise : nat
}.

(** What the engine does to the outside, in order. The two prompts sent to
    the chat completion are fixed text around the sanitized keywords and the
    sanitized content, which are what [ACompletion] records. *)
Inductive Action : Type :=
| AGetActive (userId : jsstring)
| AFetch (url : jsstring)
| AUpdateLastCheck (id hash : jsstring)
| ACompletion (keywords : list jsstring) (content : jsstring)
| ASignalsCreate (r : SignalRecord)
| AOnSignal (sink : nat) (e : SignalEvent)
| AOnNoise (sink : nat) (l : NoiseLine).

(** The state of the module [signal.js] and of the timers it owns, with the
    history of its interactions. [steps] counts the interactions with the
    outside and the suspensions so far. *)
Record World : Type := mkWorld {
  activeSessions : gmap jsstring nat;
  heap : gmap nat Session;
  timers : gmap nat Closure;
  nextRef : nat;
  nextTimer : nat;
  steps : nat;
  trace : list Action
}.

(** The collaborators. Every answer may depend on the step at which it is
    asked. *)
Class Env : Type := {
  dateNow : nat → N;
  isoNow : nat → jsstring;
  generateNoise : nat → jsstring;
  getActiveByUser : nat → jsstring → outcome (list Target);
  fetchPage : nat → jsstring → outcome Response;
  updateLastCheck : nat → jsstring → jsstring → outcome unit;
  signalsCreate : nat → SignalRecord → outcome jsstring;
  chatCompletion : nat → list jsstring → jsstring → outcome jsstring
}.

(* ===================================================================== *)
(** ** Effects: state, exceptions and the interaction history              *)
(* ===================================================================== *)

(** An [async] function: it transforms the world and returns or throws. *)
Definition M (A : Type) : Type := World → outcome A * World.

#[export] Instance M_ret : MRet M := fun A a w => (Ret a, w).
#[export] Instance M_bind : MBind M := fun A B f m w =>
  match m w with
  | (Ret a, w') => f a w'
  | (Throw msg, w') => (Throw msg, w')
  end.

Definition throw {A : Type} (msg : jsstring) : M A := fun w => (Throw msg, w).

Definition liftO {A : Type} (o : outcome A) : M A := fun w => (o, w).

(** [try { body } catch (error) { handler(error.message) }]. *)
Definition tryCatch {A : Type} (body : M A) (handler : jsstring → M A) : M A :=
  fun w =>
    match body w with
    | (Ret a, w') => (Ret a, w')
    | (Throw msg, w') => handler msg w'
    end.

(** One more interaction, recorded. *)
Definition log (a : Action) (w : World) : World :=
  mkWorld (activeSessions w) (heap w) (timers w) (nextRef w) (nextTimer w)
          (S (steps w)) (trace w ++ [a]).

(** A suspension that leaves no record ([await] of a [setTimeout]). *)
Definition pass (w : World) : World :=
  mkWorld (activeSessions w) (heap w) (timers w) (nextRef w) (nextTimer w)
          (S (steps w)) (trace w).

(** An awaited call to a collaborator. *)
Definition call {A : Type} (a : Action) (answer : nat → outcome A) : M A :=
  fun w => (answer (steps w), log a w).

(** A call of one of the two callbacks. *)
Definition emit (a : nat → Action) : M unit :=
  fun w => (Ret tt, log (a (steps w)) w).

Definition sleep : M unit := fun w => (Ret tt, pass w).

(** [n] more steps and the actions [l], nothing else changed. *)
Definition advance (n : nat) (l : list Action) (w : World) : World :=
  mkWorld (activeSessions w) (heap w) (timers w) (nextRef w) (nextTimer w)
          (n + steps w) (trace w ++ l).

(** Run from [w], the computation [m] only adds to the history, and its
    result [a], the number [n] of steps it takes and the actions [l] it adds
    satisfy [P]. *)
Definition yields {A : Type} (m : M A) (w : World)
           (P : outcome A → nat → list Action → Prop) : Prop :=
  ∃ a n l, m w = (a, advance n l w) ∧ P a n l.

(** From every world, [m] only adds to the history actions that satisfy [Q],
    and its result satisfies [R]. *)
Definition produces {A : Type} (R : outcome A → Prop) (Q : Action → Prop)
           (m : M A) : Prop :=
  ∀ w, yields m w (fun a _ l => R a ∧ Forall Q l).

(* ===================================================================== *)
(** ** server/lib/scraper.js                                               *)
(* ===================================================================== *)

Module Scraper.

Definition MAX_CONTENT_LENGTH : Z := 500000.
Definition MAX_TEXT_LENGTH : Z := 50000.
Definition CONTEXT_RADIUS : Z := 200.
Definition MAX_OCCURRENCES : nat := 3.
Definition MAX_EXCERPT_LENGTH : Z := 3000.

Definition localhostPatterns : list jsstring :=
  [js "localhost"; js "127.0.0.1"; js "0.0.0.0"; js "::1"; js "[::1]"].

Definition blockedHosts : list jsstring :=
  [js "metadata.google.internal"; js "metadata.gke.internal";
   js "kubernetes.default.svc"].

(** One group [(\d{1,3})]. *)
Definition isOctetDigits (p : jsstring) : bool :=
  forallb isDigit p && (1 <=? length p)%nat && (length p <=? 3)%nat.

(** [hostname.match(/^(\d{1,3})\.(\d{1,3})\.(\d{1,3})\.(\d{1,3})$/)]
    followed by [map(Number)], keeping the first two groups. A group is a
    maximal run of digits between dots, so the match is the split at the
    dots. *)
Definition ipRegex (hostname : jsstring) : option (N * N) :=
  match splitDot hostname with
  | [a; b; c; d] =>
      if forallb isOctetDigits [a; b; c; d]
      then Some (digitsToN a, digitsToN b)
      else None
  | _ => None
  end.

Section WithRuntime.
Context `{Runtime}.

Definition validateUrl (urlString : jsstring) : outcome jsstring :=
  match URL_parse urlString with
  | None => Throw (js "Invalid URL format")
  | Some url =>
      throwIf (negb (arrayIncludes [js "http:"; js "https:"] (protocol url)))
              (js "Only HTTP/HTTPS protocols allowed");;
      let hostname := toLowerCase (hostname url) in
      throwIf (arrayIncludes localhostPatterns hostname)
              (js "Access to localhost is not allowed");;
      match ipRegex hostname with
      | Some (a, b) =>
          throwIf (a =? 10)%N
            (js "Access to private IP range (10.x.x.x) is not allowed");;
          throwIf ((a =? 172) && (16 <=? b) && (b <=? 31))%N
            (js "Access to private IP range (172.16-31.x.x) is not allowed");;
          throwIf ((a =? 192) && (b =? 168))%N
            (js "Access to private IP range (192.168.x.x) is not allowed");;
          throwIf ((a =? 169) && (b =? 254))%N
            (js "Access to link-local/metadata IP is not allowed");;
          throwIf (a =? 127)%N
            (js "Access to loopback IP is not allowed")
      | None => Ret tt
      end;;
      throwIf (arrayIncludes blockedHosts hostname)
              (js "Access to cloud metadata endpoints is not allowed");;
      Ret (href url)
  end.

(** [s.replace(/\s+/g, ' ')]; [inRun] tells that the previous code unit
    was white space. *)
Fixpoint collapseWhitespace (inRun : bool) (s : jsstring) : jsstring :=
  match s with
  | [] => []
  | c :: r =>
      if isWhiteSpace c
      then (if inRun then collapseWhitespace true r
            else 32%N :: collapseWhitespace true r)
      else c :: collapseWhitespace false r
  end.

Context `{Env}.

Definition scrape (url : jsstring) : M (jsstring * jsstring) :=
  validatedUrl ← liftO (validateUrl url);
  response ← call (AFetch validatedUrl) (fun n => fetchPage n validatedUrl);
  (if negb (r_ok response)
   then throw (js "HTTP " ++ dec (r_status response) ++ js ": "
               ++ r_statusText response)
   else mret tt);;
  match r_contentLength response with
  | Some n => if MAX_CONTENT_LENGTH <? n then throw (js "Content too large")
              else mret tt
  | None => mret tt
  end;;
  let text :=
    substring (trim (collapseWhitespace false (r_bodyText response)))
              0 MAX_TEXT_LENGTH in
  let hash := sha256hex text in
  mret (text, hash).

(** The excerpts of one keyword: the body of the [while] loop, entered
    at most [MAX_OCCURRENCES - occurrences] more times. *)
Fixpoint excerptsFrom (remaining : nat) (text lowerText keyword lowerKeyword : jsstring)
         (index : Z) : list jsstring :=
  match remaining with
  | O => []
  | S remaining' =>
      let index := indexOf lowerText lowerKeyword index in
      if index =? -1 then []
      else
        let start := Z.max 0 (index - CONTEXT_RADIUS) in
        let end_ := Z.min (len text) (index + len keyword + CONTEXT_RADIUS) in
        let excerpt := trim (substring text start end_) in
        let excerpt := if 0 <? start then js "..." ++ excerpt else excerpt in
        let excerpt := if end_ <? len text then excerpt ++ js "..." else excerpt in
        excerpt :: excerptsFrom remaining' text lowerText keyword lowerKeyword
                                (index + len keyword)
  end.

Definition separator : jsstring := [10; 10; 45; 45; 45; 10; 10]%N.

Definition extractRelevantContent (text : jsstring) (keywords : list jsstring)
  : jsstring :=
  let excerpts :=
    flat_map (fun keyword =>
                excerptsFrom MAX_OCCURRENCES text (toLowerCase text)
                             keyword (toLowerCase keyword) 0)
             keywords in
  substring (join separator excerpts) 0 MAX_EXCERPT_LENGTH.

Definition checkForSignal (url : jsstring) (keywords : list jsstring)
           (lastHash : option jsstring) : M ScanResult :=
  '(text, hash) ← scrape url;
  let changed := negb (bool_decide (lastHash = Some hash)) in
  if negb changed then mret (mkScanResult false [] [] hash)
  else
    let matches :=
      List.filter (fun keyword => includes (toLowerCase text) (toLowerCase keyword))
                  keywords in
    if (length matches =? 0)%nat then mret (mkScanResult true [] [] hash)
    else
      let relevantContent := extractRelevantContent text matches in
      mret (mkScanResult true matches relevantContent hash).

End WithRuntime.

End Scraper.

(* ===================================================================== *)
(** ** server/lib/insforge.js: the [ai] object                             *)
(* ===================================================================== *)

Module Insforge.

(** The class [[\x00-\x1F\x7F]]. *)
Definition isControl (c : N) : bool := ((c <=? 31) || (c =? 127))%N.

(** The class [[\w\s一-龥-]]. *)
Definition isKeywordChar (c : N) : bool :=
  (isWordChar c || isWhiteSpace c || (19968 <=? c) && (c <=? 40869)
   || (c =? 45))%N.

Definition fence : jsstring := [96; 96; 96]%N.

(** [s.replace(/```/g, '---')]. *)
Fixpoint replaceFences (s : jsstring) : jsstring :=
  match s with
  | [] => []
  | c :: r =>
      if startsWith fence s
      then match r with
           | _ :: _ :: r' => js "---" ++ replaceFences r'
           | _ => []
           end
      else c :: replaceFences r
  end.

(** The arguments are strings by their type, so the [typeof] guards of the
    two sanitizers have nothing to reject. *)
Definition sanitizeInput (text : jsstring) : jsstring :=
  substring (replaceFences (List.filter (fun c => negb (isControl c)) text)) 0 2000.

Definition sanitizeKeywords (keywords : list jsstring) : list jsstring :=
  List.filter (fun k => (0 <? length k)%nat && (length k <? 50)%nat)
              (map (fun k => trim (List.filter isKeywordChar k)) keywords).

(** [response.match(/\{[\s\S]*?\}/)]: from the first opening brace to the
    first closing brace after it. *)
Definition matchJsonObject (response : jsstring) : option jsstring :=
  let i := indexOf response (js "{") 0 in
  if i =? -1 then None
  else
    let j := indexOf response (js "}") (i + 1) in
    if j =? -1 then None else Some (substring response i (j + 1)).

Definition k_summary : jsstring := js "summary".
Definition k_threat_level : jsstring := js "threat_level".
Definition k_category : jsstring := js "category".

(** The object literal [{ summary, threat_level, category }]. *)
Definition analysis (summary threat_level category : jsstring) : jsobject :=
  <[k_summary := JString summary]>
    (<[k_threat_level := JString threat_level]>
       (<[k_category := JString category]> ∅)).

Definition validThreatLevels : list jsstring :=
  [js "LOW"; js "MEDIUM"; js "HIGH"; js "CRITICAL"].

(** [validThreatLevels.includes(v)]. *)
Definition isValidThreatLevel (v : jsvalue) : bool :=
  match v with
  | JString s => arrayIncludes validThreatLevels s
  | _ => false
  end.

(** The four fixed summaries, as code units. *)
Definition msgNoKeywords : jsstring := [28961; 26377; 25928; 38364; 37749; 23383]%N.
Definition msgNoJson : jsstring := [35338; 34399; 20998; 26512; 22833; 25943]%N.
Definition msgAbnormal : jsstring := [20998; 26512; 32080; 26524; 30064; 24120]%N.
Definition msgOffline : jsstring := [20998; 26512; 31995; 32113; 38626; 32218]%N.

(** The statements that follow [JSON.parse]. *)
Definition validateResult (result : jsobject) : jsobject :=
  let result :=
    if negb (isValidThreatLevel (getProp result k_threat_level))
    then <[k_threat_level := JString (js "UNKNOWN")]> result
    else result in
  let result :=
    if negb (truthy (getProp result k_summary))
       || negb (isString (getProp result k_summary))
    then <[k_summary := JString msgAbnormal]> result
    else match getProp result k_summary with
         | JString s =>
             if (100 <? length s)%nat
             then <[k_summary := JString (substring s 0 100)]> result
             else result
         | _ => result
         end in
  let result :=
    if negb (truthy (getProp result k_category))
       || negb (isString (getProp result k_category))
    then <[k_category := JString (js "UNKNOWN")]> result
    else result in
  result.

Section WithRuntime.
Context `{Runtime} `{Env}.

(** What is done with the text of the completion. *)
Definition interpretReply (response : jsstring) : outcome jsobject :=
  match matchJsonObject response with
  | None => Ret (analysis msgNoJson (js "MEDIUM") (js "UNKNOWN"))
  | Some jsonMatch =>
      match JSON_parse jsonMatch with
      | None => Throw (js "Unexpected token in JSON")
      | Some result => Ret (validateResult result)
      end
  end.

Definition analyzeSignal (content : jsstring) (keywords : list jsstring)
  : M jsobject :=
  let sanitizedContent := sanitizeInput content in
  let sanitizedKeywords := sanitizeKeywords keywords in
  if (length sanitizedKeywords =? 0)%nat
  then mret (analysis msgNoKeywords (js "UNKNOWN") (js "ERROR"))
  else
    tryCatch
      (response ← call (ACompletion sanitizedKeywords sanitizedContent)
                       (fun n => chatCompletion n sanitizedKeywords sanitizedContent);
       liftO (interpretReply response))
      (fun _ => mret (analysis msgOffline (js "UNKNOWN") (js "ERROR"))).

End WithRuntime.

End Insforge.

(* ===================================================================== *)
(** ** server/lib/signal.js                                                *)
(* ===================================================================== *)

Module Signal.

(** Scan period, the default of [SCRAPE_INTERVAL]. *)
Definition SCRAPE_INTERVAL : Z := 60000.

Definition setRunning (b : bool) (s : Session) : Session :=
  mkSession (s_id s) (s_userId s) (s_interval s) b.

Definition setInterval (i : option nat) (s : Session) : Session :=
  mkSession (s_id s) (s_userId s) i (s_isRunning s).

Definition stopMonitoring (userId : jsstring) : M unit := fun w =>
  match activeSessions w !! userId with
  | Some session =>
      (* session.isRunning = false *)
      let heap1 := alter (setRunning false) session (heap w) in
      (* if (session.interval) { clearInterval(...); session.interval = null } *)
      let '(timers1, heap2) :=
        match heap1 !! session ≫= s_interval with
        | Some handle =>
            (delete handle (timers w), alter (setInterval None) session heap1)
        | None => (timers w, heap1)
        end in
      (* activeSessions.delete(userId), then the 100 ms pause *)
      (Ret tt,
       mkWorld (delete userId (activeSessions w)) heap2 timers1
               (nextRef w) (nextTimer w) (S (steps w)) (trace w))
  | None => (Ret tt, w)
  end.

Definition sessionIdOf (w : World) (session : nat) : jsstring :=
  default [] (s_id <$> heap w !! session).

Section WithEnv.
Context `{Runtime} `{Env}.

(** A call of [startMonitoring] that nothing interrupts: the awaited
    [stopMonitoring] and the rest of the function run one after the other.
    A call during whose [await] other operations run is the stop, those
    operations, then [startAfterStop] below. *)
Definition startMonitoring (userId : jsstring) (onSignal onNoise : nat)
: M jsstring :=
stopMonitoring userId;;
((fun w =>
    match activeSessions w !! userId with
    | Some session => (Ret (sessionIdOf w session), w)
    | None =>
        let sessionId := js "session_" ++ dec (dateNow (steps w)) in
        let session := nextRef w in
        let handle := nextTimer w in
        (Ret sessionId,
         mkWorld (<[userId := session]> (activeSessions w))
                 (<[session := mkSession sessionId userId (Some handle) true]> (heap w))
                 (<[handle := mkClosure session userId onSignal onNoise]> (timers w))
                 (S (nextRef w)) (S (nextTimer w)) (steps w) (trace w))
    end) : M jsstring).

(** What is left of [startMonitoring] once the awaited [stopMonitoring]
    has completed: the second look at the registry and the creation of
    the session. Whatever ran on the module during the [await] ran before
    it. *)
Definition startAfterStop (userId : jsstring) (onSignal onNoise : nat)
  : M jsstring := fun w =>
  match activeSessions w !! userId with
  | Some session => (Ret (sessionIdOf w session), w)
  | None =>
      let sessionId := js "session_" ++ dec (dateNow (steps w)) in
      let session := nextRef w in
      let handle := nextTimer w in
      (Ret sessionId,
       mkWorld (<[userId := session]> (activeSessions w))
               (<[session := mkSession sessionId userId (Some handle) true]> (heap w))
               (<[handle := mkClosure session userId onSignal onNoise]> (timers w))
               (S (nextRef w)) (S (nextTimer w)) (steps w) (trace w))
  end.

(** [{ isActive: !!session, sessionId: session?.id || null }]. *)
Definition getStatus (userId : jsstring) (w : World) : bool * option jsstring :=
match activeSessions w !! userId with
| Some session =>
    (true, match sessionIdOf w session with
           | [] => None
           | id => Some id
           end)
| None => (false, None)
end.

(** [aiAnalysis?.k]. *)
Definition optProp (aiAnalysis : option jsobject) (k : jsstring) : jsvalue :=
match aiAnalysis with
| Some o => getProp o k
| None => JUndefined
end.

(** The object given to [signals.create]. *)
Definition signalRecord (target : Target) (userId : jsstring)
         (result : ScanResult) (aiAnalysis : option jsobject) : SignalRecord :=
mkSignalRecord
  (t_id target) userId (content result) (matches result)
  (orElse (optProp aiAnalysis Insforge.k_summary) JNull)
  (orElse (optProp aiAnalysis Insforge.k_threat_level) (JString (js "UNKNOWN")))
  (orElse (optProp aiAnalysis Insforge.k_category) (JString (js "UNKNOWN")))
  (t_url target).

(** The call [onSignal({ type: 'SIGNAL_INTERCEPTED', data: ... })]. *)
Definition notifyClient (onSignal : nat) (signalId : jsstring) (target : Target)
         (result : ScanResult) (aiAnalysis : option jsobject) : M unit :=
emit (fun n =>
        AOnSignal onSignal
          (mkSignalEvent signalId (displayName target) (t_url target)
                         (matches result) (content result) aiAnalysis (isoNow n))).

Definition noise (onNoise : nat) (l : NoiseLine) : M unit :=
emit (fun _ => AOnNoise onNoise l).

(** [onNoise(generateNoise())]. *)
Definition randomNoise (onNoise : nat) : M unit :=
emit (fun n => AOnNoise onNoise (NoiseRandom (generateNoise n))).

(** The body of the [for] loop of the interval callback. *)
Definition scanTarget (userId : jsstring) (onSignal onNoise : nat)
         (target : Target) : M unit :=
tryCatch
  (result ← Scraper.checkForSignal (t_url target) (t_keywords target)
                                   (t_last_hash target);
   call (AUpdateLastCheck (t_id target) (hash result))
        (fun n => updateLastCheck n (t_id target) (hash result));;
   if (0 <? length (matches result))%nat
   then
     aiAnalysis ← (if truthy (JString (content result))
                   then a ← Insforge.analyzeSignal (content result) (matches result);
                        mret (Some a)
                   else mret None);
     let record := signalRecord target userId result aiAnalysis in
     signalId ← call (ASignalsCreate record) (fun n => signalsCreate n record);
     notifyClient onSignal signalId target result aiAnalysis
   else if changed result
        then noise onNoise (ScanUpdated (displayName target))
        else noise onNoise (ScanNoChange (displayName target)))
  (fun msg => noise onNoise (ScanError (displayName target) msg));;
sleep.

Fixpoint scanTargets (userId : jsstring) (onSignal onNoise : nat)
       (userTargets : list Target) : M unit :=
match userTargets with
| [] => mret tt
| target :: rest =>
    scanTarget userId onSignal onNoise target;;
    scanTargets userId onSignal onNoise rest
end.

(** The callback given to [setInterval], run with its captured variables. *)
Definition intervalCallback (c : Closure) : M unit := fun w =>
match heap w !! c_session c with
| Some session =>
    if negb (s_isRunning session) then (Ret tt, w)
    else
      tryCatch
        (userTargets ← call (AGetActive (c_userId c))
                            (fun n => getActiveByUser n (c_userId c));
         if (length userTargets =? 0)%nat
         then randomNoise (c_onNoise c)
         else
           scanTargets (c_userId c) (c_onSignal c) (c_onNoise c) userTargets;;
           randomNoise (c_onNoise c))
        (fun msg => noise (c_onNoise c) (SystemError msg))
        w
| None => (Ret tt, w)
end.

(** The timer [handle] fires: its callback runs if the timer has not been
  cleared. *)
Definition timerFires (handle : nat) : M unit := fun w =>
match timers w !! handle with
| Some c => intervalCallback c w
| None => (Ret tt, w)
end.

(** The body of the [for] loop of [forceScan]. *)
Definition forceScanTarget (userId : jsstring) (onSignal onNoise : nat)
         (target : Target) : M unit :=
noise onNoise (Scanning (displayName target));;
tryCatch
  (result ← Scraper.checkForSignal (t_url target) (t_keywords target) None;
   call (AUpdateLastCheck (t_id target) (hash result))
        (fun n => updateLastCheck n (t_id target) (hash result));;
   if (0 <? length (matches result))%nat
   then
     aiAnalysis ← Insforge.analyzeSignal (content result) (matches result);
     let record := signalRecord target userId result (Some aiAnalysis) in
     signalId ← call (ASignalsCreate record) (fun n => signalsCreate n record);
     notifyClient onSignal signalId target result (Some aiAnalysis)
   else noise onNoise (ScanComplete (displayName target)))
  (fun msg => noise onNoise (ScanError (displayName target) msg)).

Fixpoint forceScanTargets (userId : jsstring) (onSignal onNoise : nat)
       (userTargets : list Target) : M unit :=
match userTargets with
| [] => mret tt
| target :: rest =>
    forceScanTarget userId onSignal onNoise target;;
    forceScanTargets userId onSignal onNoise rest
end.

Definition forceScan (userId : jsstring) (onSignal onNoise : nat) : M unit :=
noise onNoise ManualScanInitiated;;
tryCatch
  (userTargets ← call (AGetActive userId) (fun n => getActiveByUser n userId);
   forceScanTargets userId onSignal onNoise userTargets;;
   noise onNoise ManualScanComplete)
  (fun msg => noise onNoise (ScanFailed msg)).

(** The operations of the module and the firing of a timer, run one after
  the other to completion: histories in which no operation starts while
  another is suspended at an [await]. What an operation that lands inside
  another one meets is stated apart, on the parts of the interrupted
  function ([startAfterStop], [scanTargets]). *)
Inductive Op : Type :=
| OpStart (userId : jsstring) (onSignal onNoise : nat)
| OpStop (userId : jsstring)
| OpTimer (handle : nat)
| OpForceScan (userId : jsstring) (onSignal onNoise : nat).

Definition step (w : World) (op : Op) : World :=
match op with
| OpStart userId onSignal onNoise => (startMonitoring userId onSignal onNoise w).2
| OpStop userId => (stopMonitoring userId w).2
| OpTimer handle => (timerFires handle w).2
| OpForceScan userId onSignal onNoise => (forceScan userId onSignal onNoise w).2
end.

Definition run (ops : list Op) (w : World) : World := fold_left step ops w.

End WithEnv.

(** The module as loaded: no session, no timer, nothing done yet. *)
Definition initial : World := mkWorld ∅ ∅ ∅ 0 0 0 [].

(** The pending timers that drive a session of [userId]. *)
Definition liveTimers (w : World) (userId : jsstring) : list nat :=
  (map_to_list (filter (fun hc => c_userId hc.2 = userId) (timers w))).*1.

End Signal.


(* ===================================================================== *)
(** ** Vocabulary of the specification                                     *)
(* ===================================================================== *)

Module Spec.

(** *** URL guard *)

(** The dotted-decimal rendering of an IPv4 address. *)
Definition dotted (a b c d : N) : jsstring :=
  dec a ++ js "." ++ dec b ++ js "." ++ dec c ++ js "." ++ dec d.

Definition isOctet (n : N) : Prop := (n < 256)%N.

(** The host names the guard has to refuse. The IPv6 loopback is listed
    both bare and between brackets: [new URL('http://[::1]/').hostname] is
    ['[::1]'], the only form in which the parser gives that host. *)
Inductive BlockedHost : jsstring → Prop :=
| BlockedLocalhost h :
    h ∈ [js "localhost"; js "127.0.0.1"; js "0.0.0.0"; js "::1"; js "[::1]"] →
    BlockedHost h
| BlockedPrivate10 b c d :
    isOctet b → isOctet c → isOctet d → BlockedHost (dotted 10 b c d)
| BlockedPrivate172 b c d :
    (16 <= b <= 31)%N → isOctet c → isOctet d → BlockedHost (dotted 172 b c d)
| BlockedPrivate192 c d :
    isOctet c → isOctet d → BlockedHost (dotted 192 168 c d)
| BlockedLinkLocal c d :
    isOctet c → isOctet d → BlockedHost (dotted 169 254 c d)
| BlockedLoopback b c d :
    isOctet b → isOctet c → isOctet d → BlockedHost (dotted 127 b c d)
| BlockedMetadata h :
    h ∈ [js "metadata.google.internal"; js "metadata.gke.internal";
         js "kubernetes.default.svc"] →
    BlockedHost h.

(** The first two octets lie in one of the five refused ranges. *)
Definition inBlockedRange (a b : N) : bool :=
  ((a =? 10) || (a =? 172) && (16 <=? b) && (b <=? 31)
   || (a =? 192) && (b =? 168) || (a =? 169) && (b =? 254) || (a =? 127))%N.

Definition invalidUrlMessage : jsstring := js "Invalid URL format".

Definition disallowedProtocolMessage : jsstring :=
  js "Only HTTP/HTTPS protocols allowed".

(** The messages of the errors classed as "SSRF blocked". *)
Definition ssrfBlockedMessages : list jsstring :=
  [js "Access to localhost is not allowed";
   js "Access to private IP range (10.x.x.x) is not allowed";
   js "Access to private IP range (172.16-31.x.x) is not allowed";
   js "Access to private IP range (192.168.x.x) is not allowed";
   js "Access to link-local/metadata IP is not allowed";
   js "Access to loopback IP is not allowed";
   js "Access to cloud metadata endpoints is not allowed"].

(** *** Excerpts *)

(** [pat] occurs in [s] at position [i]. *)
Definition occursAt (s pat : jsstring) (i : Z) : Prop :=
  0 ≤ i ≤ len s ∧ startsWith pat (drop (Z.to_nat i) s) = true.

(** [idxs] lists, earliest first, at most [n] occurrences of [pat] in [s]:
    each is the first occurrence at or after the end of the previous one
    ([klen] code units after its start), the search starting at [from]; the
    list stops before [n] only when no further occurrence exists. *)
Inductive EarliestOccurrences (s pat : jsstring) (klen : Z)
  : nat → Z → list Z → Prop :=
| eo_limit from : EarliestOccurrences s pat klen 0 from []
| eo_none n from :
    (∀ i, clamp (len s) from ≤ i → ¬ occursAt s pat i) →
    EarliestOccurrences s pat klen (S n) from []
| eo_next n from i rest :
    occursAt s pat i →
    clamp (len s) from ≤ i →
    (∀ j, clamp (len s) from ≤ j < i → ¬ occursAt s pat j) →
    EarliestOccurrences s pat klen n (i + klen) rest →
    EarliestOccurrences s pat klen (S n) from (i :: rest).

(** The positions visited by the search loop. *)
Fixpoint indexesFrom (remaining : nat) (lowerText lowerKeyword : jsstring)
         (klen index : Z) : list Z :=
  match remaining with
  | O => []
  | S remaining' =>
      let index := indexOf lowerText lowerKeyword index in
      if index =? -1 then []
      else index :: indexesFrom remaining' lowerText lowerKeyword klen (index + klen)
  end.

Definition occurrenceIndexes `{Runtime} (text keyword : jsstring) : list Z :=
  indexesFrom Scraper.MAX_OCCURRENCES (toLowerCase text) (toLowerCase keyword)
              (len keyword) 0.

Definition ellipsis : jsstring := js "...".

(** The window of [CONTEXT_RADIUS] code units on each side of the
    occurrence at [index], cut at the ends of the text and trimmed. *)
Definition window (text keyword : jsstring) (index : Z) : jsstring :=
  trim (substring text
          (Z.max 0 (index - Scraper.CONTEXT_RADIUS))
          (Z.min (len text) (index + len keyword + Scraper.CONTEXT_RADIUS))).

(** The window reaches past the start (the end) of the text and was
    clipped there. *)
Definition clippedAtStart (index : Z) : bool :=
  index - Scraper.CONTEXT_RADIUS <? 0.
Definition clippedAtEnd (text keyword : jsstring) (index : Z) : bool :=
  len text <? index + len keyword + Scraper.CONTEXT_RADIUS.

(** Text is left out before (after) the window. *)
Definition textBefore (index : Z) : bool :=
  0 <? index - Scraper.CONTEXT_RADIUS.
Definition textAfter (text keyword : jsstring) (index : Z) : bool :=
  index + len keyword + Scraper.CONTEXT_RADIUS <? len text.

(** An excerpt with its ellipses placed by [before] and [after]. *)
Definition excerptWith (before after : bool) (text keyword : jsstring)
           (index : Z) : jsstring :=
  (if before then ellipsis else []) ++ window text keyword index
  ++ (if after then ellipsis else []).

(** The excerpt as the specification words it: ellipsis where the window
    was clipped by the text boundary. *)
Definition excerptAsClaimed (text keyword : jsstring) (index : Z) : jsstring :=
  excerptWith (clippedAtStart index) (clippedAtEnd text keyword index)
              text keyword index.

(** The excerpt with an ellipsis where text is left out. *)
Definition excerptOf (text keyword : jsstring) (index : Z) : jsstring :=
  excerptWith (textBefore index) (textAfter text keyword index)
              text keyword index.

(** The excerpts of all keywords, joined and cut. *)
Definition assemble `{Runtime} (mk : jsstring → jsstring → Z → jsstring)
           (text : jsstring) (keywords : list jsstring) : jsstring :=
  substring
    (join Scraper.separator
          (flat_map (fun keyword => map (mk text keyword)
                                        (occurrenceIndexes text keyword))
                    keywords))
    0 Scraper.MAX_EXCERPT_LENGTH.

(** *** Sanitized input of the summarizer *)

Definition sanitizedExcerpt (c : jsstring) : Prop :=
  Forall (fun ch => Insforge.isControl ch = false) c
  ∧ (∀ i, startsWith Insforge.fence (drop i c) = false)
  ∧ (length c ≤ 2000)%nat.

Definition sanitizedKeyword (k : jsstring) : Prop :=
  (0 < length k < 50)%nat
  ∧ Forall (fun ch => Insforge.isKeywordChar ch = true) k.

(** An action that is not a request to the summarizer, or a request whose
    excerpt and keywords are sanitized. *)
Definition sanitizedRequest (a : Action) : Prop :=
  match a with
  | ACompletion keywords excerpt =>
      sanitizedExcerpt excerpt ∧ Forall sanitizedKeyword keywords
  | _ => True
  end.

(** *** Reading a history *)

(** The actions added to the history between [w] and [w']. *)
Definition since (w w' : World) : list Action :=
  drop (length (trace w)) (trace w').

Definition signalEvents (l : list Action) : list SignalEvent :=
  omap (fun a => match a with AOnSignal _ e => Some e | _ => None end) l.

Definition noiseLines (l : list Action) : list NoiseLine :=
  omap (fun a => match a with AOnNoise _ x => Some x | _ => None end) l.

Definition fingerprintUpdates (l : list Action) : list (jsstring * jsstring) :=
  omap (fun a => match a with AUpdateLastCheck id h => Some (id, h) | _ => None end) l.

Definition createdSignals (l : list Action) : list SignalRecord :=
  omap (fun a => match a with ASignalsCreate r => Some r | _ => None end) l.

Definition completions (l : list Action) : list (list jsstring * jsstring) :=
  omap (fun a => match a with ACompletion ks c => Some (ks, c) | _ => None end) l.

Definition targetQueries (l : list Action) : list jsstring :=
  omap (fun a => match a with AGetActive u => Some u | _ => None end) l.

Definition isFetch (a : Action) : Prop :=
  match a with AFetch _ => True | _ => False end.

Definition isCompletion (a : Action) : Prop :=
  match a with ACompletion _ _ => True | _ => False end.

(** The lines of each kind among noise lines. *)
Definition contentUpdatedLines (l : list NoiseLine) : list jsstring :=
  omap (fun x => match x with ScanUpdated name => Some name | _ => None end) l.


(** What the callbacks received, in order. *)
Definition emissions (l : list Action) : list (SignalEvent + NoiseLine) :=
  omap (fun a => match a with
                 | AOnSignal _ e => Some (inl e)
                 | AOnNoise _ x => Some (inr x)
                 | _ => None
                 end) l.


(** *** Validated analysis *)

Definition threatLevels : list jsstring :=
  [js "LOW"; js "MEDIUM"; js "HIGH"; js "CRITICAL"; js "UNKNOWN"].

(** The shape of every analysis the engine stores. *)
Definition wellFormedAnalysis (a : jsobject) : Prop :=
  (∃ t, getProp a Insforge.k_threat_level = JString t ∧ t ∈ threatLevels)
  ∧ (∃ s, getProp a Insforge.k_summary = JString s ∧ (0 < length s ≤ 100)%nat)
  ∧ (∃ c, getProp a Insforge.k_category = JString c ∧ (0 < length c)%nat).

(** *** Sessions *)

(** The registry, the session objects and the pending timers agree: a
    registered session is running and holds a pending timer whose callback
    captured that very session, every pending timer is the one held by the
    registered session of its user, and references and handles not yet
    allocated are unused. *)
Definition consistent (w : World) : Prop :=
  (∀ u session, activeSessions w !! u = Some session →
     ∃ id handle onSignal onNoise,
       heap w !! session = Some (mkSession id u (Some handle) true)
       ∧ timers w !! handle = Some (mkClosure session u onSignal onNoise))
  ∧ (∀ handle c, timers w !! handle = Some c →
       activeSessions w !! c_userId c = Some (c_session c)
       ∧ heap w !! c_session c ≫= s_interval = Some handle)
  ∧ (∀ session, (nextRef w ≤ session)%nat → heap w !! session = None)
  ∧ (∀ handle, (nextTimer w ≤ handle)%nat → timers w !! handle = None).

(** The timer held by the registered session of [userId], if any. *)
Definition registeredTimer (w : World) (userId : jsstring) : option nat :=
  session ← activeSessions w !! userId; heap w !! session ≫= s_interval.


(** *** The excerpt and the keywords handed over, from what was found *)

(** [stripped] is [text] without its control characters. *)
Inductive ControlsRemoved : jsstring → jsstring → Prop :=
| controls_end : ControlsRemoved [] []
| controls_drop c text stripped :
    Insforge.isControl c = true →
    ControlsRemoved text stripped → ControlsRemoved (c :: text) stripped
| controls_keep c text stripped :
    Insforge.isControl c = false →
    ControlsRemoved text stripped → ControlsRemoved (c :: text) (c :: stripped).

(** [replaced] is [text] with every run of three backquotes, taken from
    the left, replaced by three hyphens. *)
Inductive FencesReplaced : jsstring → jsstring → Prop :=
| fences_end : FencesReplaced [] []
| fences_fence text replaced :
    FencesReplaced text replaced →
    FencesReplaced (96 :: 96 :: 96 :: text)%N (45 :: 45 :: 45 :: replaced)%N
| fences_keep c text replaced :
    startsWith Insforge.fence (c :: text) = false →
    FencesReplaced text replaced → FencesReplaced (c :: text) (c :: replaced).

(** The excerpt handed over for [text], in the words of the
    specification: control characters removed, code fences replaced, and
    the result capped at 2000 code units. *)
Definition sanitizedFrom (text excerpt : jsstring) : Prop :=
  ∃ stripped replaced,
    ControlsRemoved text stripped
    ∧ FencesReplaced stripped replaced
    ∧ excerpt = take 2000 replaced.

(** The keyword handed over for [keyword], if any: what is left of it
    once the characters that are not allowed are removed and the ends
    trimmed, unless that is empty or 50 code units or more. *)
Definition keywordFrom (keyword : jsstring) : option jsstring :=
  let kept := trim (List.filter Insforge.isKeywordChar keyword) in
  if bool_decide (0 < length kept < 50)%nat then Some kept else None.

(** The request made for the excerpt [content] and the matched
    [keywords]: none when no keyword is left. *)
Definition requestFor (content : jsstring) (keywords : list jsstring)
  : list Action :=
  match omap keywordFrom keywords with
  | [] => []
  | handed => [ACompletion handed (Insforge.sanitizeInput content)]
  end.

(** The analysis obtained for them when the request is made at step [n]. *)
Definition analysisAt `{Runtime} `{Env} (n : nat) (content : jsstring)
           (keywords : list jsstring) : jsobject :=
  match Insforge.sanitizeKeywords keywords with
  | [] => Insforge.analysis Insforge.msgNoKeywords (js "UNKNOWN") (js "ERROR")
  | handed =>
      match chatCompletion n handed (Insforge.sanitizeInput content)
              ≫= Insforge.interpretReply with
      | Ret a => a
      | Throw _ => Insforge.analysis Insforge.msgOffline (js "UNKNOWN") (js "ERROR")
      end
  end.

End Spec.

(* ===================================================================== *)
(** ** A concrete platform and concrete collaborators for the examples     *)
(* ===================================================================== *)

Module Examples.

(** What [new URL] builds for a few inputs; it throws on the others. *)
Definition exampleUrls : list (jsstring * URL) :=
  [(js "https://example.com",
    mkURL (js "https:") (js "example.com") (js "https://example.com/"));
   (js "http://example.com:8080/api",
    mkURL (js "http:") (js "example.com") (js "http://example.com:8080/api"));
   (js "ftp://files.example.com",
    mkURL (js "ftp:") (js "files.example.com") (js "ftp://files.example.com/"));
   (js "http://localhost:3000",
    mkURL (js "http:") (js "localhost") (js "http://localhost:3000/"));
   (js "http://172.20.1.9/admin",
    mkURL (js "http:") (js "172.20.1.9") (js "http://172.20.1.9/admin"));
   (js "http://[::1]:3000",
    mkURL (js "http:") (js "[::1]") (js "http://[::1]:3000/"));
   (js "http://metadata.google.internal",
    mkURL (js "http:") (js "metadata.google.internal")
          (js "http://metadata.google.internal/"))].

(** A platform for strings of ASCII code units. The digest is a stand-in
    that tells apart the texts of the examples. *)
Definition exampleRuntime : Runtime :=
  {| toLowerCase := asciiLower;
     URL_parse := fun s => (list_to_map exampleUrls : gmap jsstring URL) !! s;
     JSON_parse := fun _ => None;
     sha256hex := fun s => dec (N.of_nat (length s)) |}.





Definition pageText : jsstring := js "Breaking: AI-powered robot!".

Definition page : Response :=
  mkResponse true 200 (js "OK") None (js "  Breaking:   AI-powered robot! ").

(** One target of alice, never checked; the same target of carol, checked
    when the page had its present text; two targets of bob, the first of
    which cannot be fetched. *)
Definition aliceTarget : Target :=
  mkTarget (js "t-1") (js "https://example.com") [js "AI"] (Some (js "News")) None.

Definition carolTarget : Target :=
  mkTarget (js "t-2") (js "https://example.com") [js "AI"] (Some (js "News"))
           (Some (js "27")).

Definition bobTargets : list Target :=
  [mkTarget (js "t-3") (js "http://example.com:8080/api") [js "AI"] None None;
   mkTarget (js "t-4") (js "https://example.com") [js "ghost"] None None].

(** Collaborators: the storage answers, the page at example.com is [page],
    any other fetch times out, and the summarizer replies without JSON. *)
Definition exampleEnv : Env :=
  {| dateNow := fun n => (1766188800000 + N.of_nat n)%N;
     isoNow := fun _ => js "2025-12-20T00:00:00.000Z";
     generateNoise := fun _ => js "0x00a1b2: 00 11 22";
     getActiveByUser := fun _ u =>
       if bool_decide (u = js "alice") then Ret [aliceTarget]
       else if bool_decide (u = js "carol") then Ret [carolTarget]
       else if bool_decide (u = js "bob") then Ret bobTargets
       else Ret [];
     fetchPage := fun _ url =>
       if bool_decide (url = js "https://example.com/") then Ret page
       else Throw (js "The operation was aborted due to timeout");
     updateLastCheck := fun _ _ _ => Ret tt;
     signalsCreate := fun _ _ => Ret (js "sig-1");
     chatCompletion := fun _ _ _ => Ret (js "I cannot answer in JSON.") |}.


(** The module after alice has started monitoring. *)
Definition aliceRunning : World :=
  Signal.run (H := exampleRuntime) (H0 := exampleEnv)
             [Signal.OpStart (js "alice") 1 2] Signal.initial.

(** The module after bob, then carol, has started monitoring. *)
Definition bobRunning : World :=
  Signal.run (H := exampleRuntime) (H0 := exampleEnv)
             [Signal.OpStart (js "bob") 1 2] Signal.initial.


(** The session object made by the first start. *)
Definition firstSession (userId : jsstring) : Session :=
  mkSession (js "session_1766188800000") userId (Some 0%nat) true.


End Examples.

(* ===================================================================== *)
(** ** server/routes/targets.js: POST /api/targets                         *)
(* ===================================================================== *)

Module Targets.

Definition MAX_URL_LENGTH : Z := 2048.
Definition MAX_KEYWORDS : nat := 20.
Definition MAX_KEYWORD_LENGTH : nat := 100.
Definition MAX_NAME_LENGTH : Z := 200.
Definition MIN_CHECK_INTERVAL : Z := 60.
Definition MAX_TARGETS_PER_USER : nat := 20.

(** A value of the parsed JSON body. [JsonUndefined] is the value of a
    property that the body does not have. Of an array the handler reads the
    length and the elements that are strings: an element is [Some s] for the
    string [s] and [None] for any other value. An object is opaque. *)
Inductive json : Type :=
| JsonUndefined
| JsonNull
| JsonBool (b : bool)
| JsonNumber (q : Q)
| JsonString (s : jsstring)
| JsonArray (items : list (option jsstring))
| JsonObject.

(** The four properties read from [req.body]. *)
Record Body : Type := mkBody {
  b_url : json;
  b_keywords : json;
  b_name : json;
  b_check_interval : json
}.

(** ToBoolean. *)
Definition jsonTruthy (v : json) : bool :=
  match v with
  | JsonUndefined | JsonNull => false
  | JsonBool b => b
  | JsonNumber q => negb (Qeq_bool q 0)
  | JsonString s => negb (bool_decide (s = []))
  | JsonArray _ | JsonObject => true
  end.

(** The strings among the elements of an array:
    [filter(k => typeof k === 'string')]. *)
Definition stringsOf (items : list (option jsstring)) : list jsstring :=
  omap id items.

(** What [parseInt] returns: [NaN], an infinity or an integer (zero and
    minus zero, both falsy, are not told apart). *)
Inductive jsinteger : Type :=
| NaN
| Infinity (negative : bool)
| Finite (z : Z).

(** [v || 60]. *)
Definition orDefault (v : jsinteger) (d : Z) : jsinteger :=
  match v with
  | NaN | Finite 0 => Finite d
  | _ => v
  end.

(** [Math.max(a, b)] for an integer [a]. *)
Definition mathMax (a : Z) (b : jsinteger) : jsinteger :=
  match b with
  | NaN => NaN
  | Infinity true => Finite a
  | Infinity false => Infinity false
  | Finite z => Finite (Z.max a z)
  end.

(** The object given to [targets.create]. *)
Record NewTarget : Type := mkNewTarget {
  nt_user_id : jsstring;
  nt_url : jsstring;
  nt_keywords : list jsstring;
  nt_name : option jsstring;
  nt_check_interval : jsinteger;
  nt_is_active : bool
}.

(** The calls to the storage made while a request is handled. *)
Inductive DbCall : Type :=
| DbGetByUser (userId : jsstring)
| DbCreate (target : NewTarget).

(** The response: its status and the [error] or [data] of its body. *)
Inductive Reply (Row : Type) : Type :=
| Created (data : Row)
| BadRequest (error : jsstring)
| ServerError (error : jsstring).
Arguments Created {Row} data.
Arguments BadRequest {Row} error.
Arguments ServerError {Row} error.

Definition status {Row : Type} (r : Reply Row) : Z :=
  match r with
  | Created _ => 201
  | BadRequest _ => 400
  | ServerError _ => 500
  end.

(** [name?.trim() || null]; [None] when the call throws a [TypeError],
    which it does when [name] is neither nullish nor a string. *)
Definition trimmedName (name : json) : option (option jsstring) :=
  match name with
  | JsonUndefined | JsonNull => Some None
  | JsonString s =>
      match trim s with
      | [] => Some None
      | n => Some (Some n)
      end
  | _ => None
  end.

Section Handler.
Context `{Runtime}.
(** The rows of [watch_targets], the two storage operations the handler
    awaits, and [parseInt] on a value of the body. *)
Context {Row : Type}.
Context (getByUser : jsstring → outcome (list Row)).
Context (create : NewTarget → outcome Row).
Context (parseInt : json → jsinteger).

(** The handler of [router.post('/')], for the user of the session: the
    storage calls it makes and the response it sends. Whatever is thrown
    inside its [try] gives the same response 500. *)
Definition postTarget (userId : jsstring) (body : Body) : list DbCall * Reply Row :=
  let failed := ServerError (js "Failed to create target") in
  (* if (!url || typeof url !== 'string') *)
  match b_url body with
  | JsonString (c :: u) =>
      let url := c :: u in
      if MAX_URL_LENGTH <? len url
      then ([], BadRequest (js "URL must be less than 2048 characters"))
      else
        match Scraper.validateUrl url with
        | Throw msg => ([], BadRequest (js "Invalid URL: " ++ msg))
        | Ret _ =>
            (* if (!keywords || !Array.isArray(keywords)) *)
            match b_keywords body with
            | JsonArray keywords =>
                if (length keywords =? 0)%nat || (MAX_KEYWORDS <? length keywords)%nat
                then ([], BadRequest (js "Keywords count must be between 1 and 20"))
                else
                  let validKeywords :=
                    List.filter
                      (fun k => (0 <? length k)%nat && (length k <=? MAX_KEYWORD_LENGTH)%nat)
                      (map trim (stringsOf keywords)) in
                  if (length validKeywords =? 0)%nat
                  then ([], BadRequest (js "At least one valid keyword required"))
                  else
                    (* if (name && (typeof name !== 'string' || name.length > ...)) *)
                    if jsonTruthy (b_name body)
                       && match b_name body with
                          | JsonString name => MAX_NAME_LENGTH <? len name
                          | _ => true
                          end
                    then ([], BadRequest (js "Name must be less than 200 characters"))
                    else
                      match getByUser userId with
                      | Throw _ => ([DbGetByUser userId], failed)
                      | Ret existingTargets =>
                          if (MAX_TARGETS_PER_USER <=? length existingTargets)%nat
                          then ([DbGetByUser userId],
                                BadRequest (js "Maximum 20 targets allowed"))
                          else
                            let sanitizedInterval :=
                              mathMax MIN_CHECK_INTERVAL
                                      (orDefault (parseInt (b_check_interval body)) 60) in
                            match trimmedName (b_name body) with
                            | None => ([DbGetByUser userId], failed)
                            | Some name =>
                                let target :=
                                  mkNewTarget userId (trim url) validKeywords name
                                              sanitizedInterval true in
                                match create target with
                                | Throw _ =>
                                    ([DbGetByUser userId; DbCreate target], failed)
                                | Ret row =>
                                    ([DbGetByUser userId; DbCreate target], Created row)
                                end
                            end
                      end
            | _ => ([], BadRequest (js "Keywords must be an array"))
            end
        end
  | _ => ([], BadRequest (js "URL is required"))
  end.

End Handler.

End Targets.

(* ===================================================================== *)
(** ** server/lib/scraper.js: generateNoise                                *)
(* ===================================================================== *)

Module Noise.

(** The values of [Math.floor(Math.random() * k)]: [randomBelow k i] is
    the one obtained from the [i]-th draw of [Math.random], a number in
    [[0, 1)], and so an integer below [k]. *)
Class Random : Type := {
  randomBelow : N → nat → N;
  randomBelow_lt : ∀ k i, (0 < k)%N → (randomBelow k i < k)%N
}.

(** The digits [0-9a-f]. *)
Definition hexDigit (d : N) : N := if (d <? 10)%N then (48 + d)%N else (87 + d)%N.

(** The hexadecimal digits of [n], most significant first, for a number
    of at most [digits] digits. *)
Fixpoint toHex (digits : nat) (n : N) : jsstring :=
  match digits with
  | O => []
  | S digits' =>
      (if (n / 16 =? 0)%N then [] else toHex digits' (n / 16))
      ++ [hexDigit (n mod 16)]
  end.

(** [n.toString(16)]. *)
Definition toString16 (n : N) : jsstring := toHex (S (N.to_nat (N.log2 n))) n.

(** [s.padStart(targetLength, pad)] for a [pad] of one code unit. *)
Definition padStart (s : jsstring) (targetLength : nat) (pad : N) : jsstring :=
  replicate (targetLength - length s) pad ++ s.

Section WithRandom.
Context `{Random}.

(** One turn of the outer loop, whose first draw is the [i]-th: sixteen
    bytes, then the address. *)
Definition noiseLine (i : nat) : jsstring :=
  let bytes :=
    map (fun j => padStart (toString16 (randomBelow 256 (i + j))) 2 48)
        (seq 0 16) in
  let address := padStart (toString16 (randomBelow 16777215 (i + 16))) 6 48 in
  js "0x" ++ address ++ js ": " ++ join (js " ") bytes.

(** [generateNoise()], its first draw being the [i]-th. *)
Definition generateNoise (i : nat) : jsstring :=
  let lineCount := N.to_nat (randomBelow 3 i + 1) in
  join [10%N] (map (fun l => noiseLine (i + 1 + 17 * l)) (seq 0 lineCount)).

End WithRandom.

End Noise.

(* ===================================================================== *)
(** ** Vocabulary of further properties of the code                        *)
(* ===================================================================== *)

Module Vocabulary.

(** *** Extracted text *)

(** No two adjacent code units of [s] are both white space. *)
Fixpoint singleSpaced (s : jsstring) : bool :=
  match s with
  | [] => true
  | c1 :: r =>
      match r with
      | c2 :: _ => negb (isWhiteSpace c1 && isWhiteSpace c2)
      | [] => true
      end && singleSpaced r
  end.

(** [s] does not begin with white space. *)
Definition startsClean (s : jsstring) : bool :=
  match s with
  | c :: _ => negb (isWhiteSpace c)
  | [] => true
  end.

(** The only white space code unit of [s] is the space. *)
Definition onlySpaces (s : jsstring) : Prop :=
  Forall (fun c => isWhiteSpace c = true → c = 32%N) s.

(** *** What reaches the outside *)

(** The URLs requested, in order. *)
Definition fetches (l : list Action) : list jsstring :=
  omap (fun a => match a with AFetch url => Some url | _ => None end) l.

(** The requests that the scan of a target with URL [url] makes: one, to
    the URL returned by the guard, or none when the guard refuses. *)
Definition guardedFetch `{Runtime} (url : jsstring) : list jsstring :=
  match Scraper.validateUrl url with
  | Ret validatedUrl => [validatedUrl]
  | Throw _ => []
  end.

(** A URL the guard lets through: the serialization of a URL that parses,
    with scheme http or https and a host that is not a blocked one. *)
Definition allowedUrl `{Runtime} (validatedUrl : jsstring) : Prop :=
  ∃ urlString url,
    Scraper.validateUrl urlString = Ret validatedUrl
    ∧ URL_parse urlString = Some url
    ∧ validatedUrl = href url
    ∧ protocol url ∈ [js "http:"; js "https:"]
    ∧ ¬ Spec.BlockedHost (toLowerCase (hostname url)).

(** The analysis attached to a signal: a well-formed one, or none when
    there is no excerpt to analyze. *)
Definition attachedAnalysis (excerpt : jsstring) (aiAnalysis : option jsobject)
  : Prop :=
  match aiAnalysis with
  | Some a => Spec.wellFormedAnalysis a
  | None => excerpt = []
  end.

(** The shape of a record given to [signals.create]. *)
Definition storedSignal (r : SignalRecord) : Prop :=
  matched_keywords r ≠ []
  ∧ len (sr_content r) ≤ 3000
  ∧ (ai_summary r = JNull
     ∨ ∃ s, ai_summary r = JString s ∧ (0 < length s ≤ 100)%nat)
  ∧ (∃ t, ai_threat_level r = JString t ∧ t ∈ Spec.threatLevels)
  ∧ (∃ c, ai_category r = JString c ∧ (0 < length c)%nat).

(** The shape of an event given to [onSignal]. *)
Definition sentSignal (e : SignalEvent) : Prop :=
  ev_keywords e ≠ []
  ∧ len (ev_content e) ≤ 3000
  ∧ attachedAnalysis (ev_content e) (ev_ai e).

(** What holds of every action of the engine. *)
Definition guarded `{Runtime} (a : Action) : Prop :=
  match a with
  | AFetch url => allowedUrl url
  | ASignalsCreate r => storedSignal r
  | AOnSignal _ e => sentSignal e
  | _ => True
  end.

(** *** Reports of a cycle *)

(** The target a call of a callback is about, when it names one. *)
Definition namedTarget (e : SignalEvent + NoiseLine) : option jsstring :=
  match e with
  | inl ev => Some (ev_targetName ev)
  | inr (ScanUpdated name) | inr (ScanNoChange name) | inr (ScanError name _)
  | inr (Scanning name) | inr (ScanComplete name) => Some name
  | inr _ => None
  end.

(** What a forced scan reports about the target [name] after the
    "scanning" line: a signal, a "complete" line or an error line. *)
Definition forcedResult (name : jsstring) (e : SignalEvent + NoiseLine) : Prop :=
  match e with
  | inl ev => ev_targetName ev = name
  | inr (ScanComplete n) => n = name
  | inr (ScanError n _) => n = name
  | inr _ => False
  end.

(** The calls of the callbacks in a forced scan of [userTargets] whose
    results are [results]. *)
Definition forcedReports (userTargets : list Target)
           (results : list (SignalEvent + NoiseLine))
  : list (SignalEvent + NoiseLine) :=
  [inr ManualScanInitiated]
  ++ flat_map (fun tr => [inr (Scanning (displayName tr.1)); tr.2])
              (zip userTargets results)
  ++ [inr ManualScanComplete].

(** *** Targets accepted by the API *)

(** A check interval of at least a minute. *)
Definition atLeastAMinute (v : Targets.jsinteger) : Prop :=
  match v with
  | Targets.Finite z => 60 ≤ z
  | Targets.Infinity negative => negative = false
  | Targets.NaN => False
  end.

(** The target [t] was made for [userId] from the body [body], whose URL
    the guard accepts. *)
Definition acceptedTarget `{Runtime} (userId : jsstring) (body : Targets.Body)
           (t : Targets.NewTarget) : Prop :=
  Targets.nt_user_id t = userId
  ∧ Targets.nt_is_active t = true
  ∧ (∃ url validatedUrl,
       Targets.b_url body = Targets.JsonString url
       ∧ len url ≤ 2048
       ∧ Scraper.validateUrl url = Ret validatedUrl
       ∧ Targets.nt_url t = trim url)
  ∧ (∃ keywords,
       Targets.b_keywords body = Targets.JsonArray keywords
       ∧ (length keywords ≤ 20)%nat
       ∧ Targets.nt_keywords t `sublist_of` map trim (Targets.stringsOf keywords))
  ∧ Targets.nt_keywords t ≠ []
  ∧ Forall (fun k => (1 ≤ length k ≤ 100)%nat ∧ trim k = k) (Targets.nt_keywords t)
  ∧ match Targets.nt_name t with
    | Some name => name ≠ [] ∧ trim name = name ∧ len name ≤ 200
    | None => True
    end
  ∧ atLeastAMinute (Targets.nt_check_interval t).

(** *** Noise *)

Definition isHex (c : N) : bool := isDigit c || (97 <=? c)%N && (c <=? 102)%N.

(** [s] is [n] hexadecimal digits. *)
Definition hexField (n : nat) (s : jsstring) : Prop :=
  length s = n ∧ Forall (fun c => isHex c = true) s.

(** A line of a hex dump: an address of six digits, then sixteen bytes of
    two digits separated by single spaces. *)
Definition dumpLine (line : jsstring) : Prop :=
  ∃ address bytes,
    line = js "0x" ++ address ++ js ": " ++ join (js " ") bytes
    ∧ hexField 6 address
    ∧ length bytes = 16%nat
    ∧ Forall (hexField 2) bytes.

End Vocabulary.

(* ===================================================================== *)
(** ** More collaborators and requests for the examples                    *)
(* ===================================================================== *)

Module Scenarios.

Definition outageMessage : jsstring := js "connection refused".

(** The collaborators of the examples with a storage that fails where
    told: on the query for the targets, on the update of the fingerprint,
    on the creation of a signal. *)
Definition outageEnv (load update create : bool) : Env :=
  {| dateNow := dateNow (Env := Examples.exampleEnv);
     isoNow := isoNow (Env := Examples.exampleEnv);
     generateNoise := generateNoise (Env := Examples.exampleEnv);
     getActiveByUser := fun n u =>
       if load then Throw outageMessage
       else getActiveByUser (Env := Examples.exampleEnv) n u;
     fetchPage := fetchPage (Env := Examples.exampleEnv);
     updateLastCheck := fun _ _ _ => if update then Throw outageMessage else Ret tt;
     signalsCreate := fun _ _ => if create then Throw outageMessage else Ret (js "sig-1");
     chatCompletion := chatCompletion (Env := Examples.exampleEnv) |}.

(** A request to watch example.com, with a keyword to trim, two elements
    that are no keywords, a name to trim and an interval below the
    minimum; and the target made from it. *)
Definition newsBody : Targets.Body :=
  Targets.mkBody (Targets.JsonString (js "https://example.com"))
                 (Targets.JsonArray [Some (js " AI "); None; Some (js "  ")])
                 (Targets.JsonString (js " News "))
                 (Targets.JsonNumber 30).

Definition newsTarget : Targets.NewTarget :=
  Targets.mkNewTarget (js "alice") (js "https://example.com") [js "AI"]
                      (Some (js "News")) (Targets.Finite 60) true.

(** A storage that holds no target yet and returns the row it is given. *)
Definition emptyStore (userId : jsstring) : outcome (list Targets.NewTarget) :=
  Ret [].

Definition storeRow (target : Targets.NewTarget) : outcome Targets.NewTarget :=
  Ret target.

(** [parseInt] on the intervals of the examples. *)
Definition parseThirty (v : Targets.json) : Targets.jsinteger :=
  match v with
  | Targets.JsonNumber _ => Targets.Finite 30
  | _ => Targets.NaN
  end.

(** A source of draws: the [i]-th one scaled by [k] gives [i mod k]. *)
Definition cyclicDraws : Noise.Random :=
  {| Noise.randomBelow := fun k i => (N.of_nat i mod k)%N;
     Noise.randomBelow_lt := fun k i Hk =>
       N.mod_lt (N.of_nat i) k (proj2 (N.neq_0_lt_0 k) Hk) |}.

End Scenarios.


(* ===================================================================== *)
(** * Properties                                                           *)
(* ===================================================================== *)

(** ** Strings *)

Section StringFacts.

Lemma splitDot_nodot (p : jsstring) :
  Forall (fun c => c ≠ 46%N) p → splitDot p = [p].
Proof.
  induction 1 as [|c p Hc _ IH]; [done|].
  cbn. destruct (N.eqb_spec c 46) as [->|_]; [done|]. by rewrite IH.
Qed.

Lemma splitDot_app (p rest : jsstring) :
  Forall (fun c => c ≠ 46%N) p →
  splitDot (p ++ 46%N :: rest) = p :: splitDot rest.
Proof.
  induction 1 as [|c p Hc _ IH]; [done|].
  cbn. destruct (N.eqb_spec c 46) as [->|_]; [done|]. by rewrite IH.
Qed.

(** The decimal rendering of an octet is what one group of the address
    pattern matches, and [Number] reads it back. *)
Lemma dec_octet (n : N) :
  (n < 256)%N →
  Forall (fun c => c ≠ 46%N) (dec n)
  ∧ Scraper.isOctetDigits (dec n) = true
  ∧ digitsToN (dec n) = n.
Proof.
  intros Hn.
  assert (Hall : forallb (fun k =>
                   let n := N.of_nat k in
                   forallb (fun c => negb (c =? 46)%N) (dec n)
                   && Scraper.isOctetDigits (dec n)
                   && (digitsToN (dec n) =? n)%N) (seq 0 256) = true)
    by (vm_compute; reflexivity).
  rewrite forallb_forall in Hall.
  specialize (Hall (N.to_nat n)).
  rewrite N2Nat.id in Hall.
  destruct (andb_prop _ _ (Hall ltac:(apply in_seq; lia))) as [H12 H3].
  destruct (andb_prop _ _ H12) as [H1 H2].
  split_and!; [|done|by apply N.eqb_eq].
  apply List.Forall_forall. intros c Hc.
  rewrite forallb_forall in H1.
  specialize (H1 c Hc).
  by destruct (N.eqb_spec c 46).
Qed.

Lemma ipRegex_dotted (a b c d : N) :
  (a < 256)%N → (b < 256)%N → (c < 256)%N → (d < 256)%N →
  Scraper.ipRegex (Spec.dotted a b c d) = Some (a, b).
Proof.
  intros Ha Hb Hc Hd.
  destruct (dec_octet a Ha) as (Ha1 & Ha2 & Ha3).
  destruct (dec_octet b Hb) as (Hb1 & Hb2 & Hb3).
  destruct (dec_octet c Hc) as (Hc1 & Hc2 & _).
  destruct (dec_octet d Hd) as (Hd1 & Hd2 & _).
  unfold Scraper.ipRegex, Spec.dotted.
  change (js ".") with [46%N]. cbn [app].
  rewrite !splitDot_app, splitDot_nodot by done.
  cbn [forallb]. rewrite Ha2, Hb2, Hc2, Hd2. cbn. by rewrite Ha3, Hb3.
Qed.

End StringFacts.

(** ** URL guard *)

(** Membership in a list given by its elements. *)
Ltac in_list :=
  repeat first [ apply list_elem_of_here | apply list_elem_of_further ].

Ltac ssrf_blocked :=
  eexists; split; [reflexivity | unfold Spec.ssrfBlockedMessages; in_list].

Section UrlGuard.
Context `{Runtime}.

Lemma blocked_host_checks (h : jsstring) :
  Spec.BlockedHost h →
  arrayIncludes Scraper.localhostPatterns h = true
  ∨ (∃ a b, Scraper.ipRegex h = Some (a, b) ∧ Spec.inBlockedRange a b = true)
  ∨ arrayIncludes Scraper.blockedHosts h = true.
Proof.
  destruct 1 as [h Hh|b c d|b c d|c d|c d|b c d|h Hh]; unfold Spec.isOctet in *.
  - left. apply bool_decide_eq_true. unfold Scraper.localhostPatterns.
    repeat (apply elem_of_cons in Hh as [->|Hh]; [in_list|]).
    by apply elem_of_nil in Hh.
  - right; left. exists 10%N, b. by rewrite ipRegex_dotted by lia.
  - right; left. exists 172%N, b. rewrite ipRegex_dotted by lia.
    split; [done|]. unfold Spec.inBlockedRange.
    replace (16 <=? b)%N with true by (symmetry; apply N.leb_le; lia).
    replace (b <=? 31)%N with true by (symmetry; apply N.leb_le; lia).
    done.
  - right; left. exists 192%N, 168%N. by rewrite ipRegex_dotted by lia.
  - right; left. exists 169%N, 254%N. by rewrite ipRegex_dotted by lia.
  - right; left. exists 127%N, b. by rewrite ipRegex_dotted by lia.
  - right; right. by apply bool_decide_eq_true.
Qed.

(** C2. [validateUrl] throws "Invalid URL format" when the string does not
    parse as a URL, throws "Only HTTP/HTTPS protocols allowed" when the
    parsed scheme is neither http nor https, and otherwise throws one of
    the "SSRF blocked" errors when the lower-cased host name is a localhost
    alias (localhost, 127.0.0.1, 0.0.0.0, or the IPv6 loopback, written
    ::1 or, as the URL parser gives it, [::1]), a dotted IPv4 literal of
    10/8, 172.16/12, 192.168/16, 169.254/16 or 127/8, or one of the three
    metadata host names. For an
    http(s) URL whose host is example.com, such as https://example.com and
    http://example.com:8080/api, it returns the [href] of the parsed URL:
    the serialization made by the parser, which the guard leaves as it
    is. *)
Theorem validateUrl_guard (urlString : jsstring) :
  (URL_parse urlString = None →
   Scraper.validateUrl urlString = Throw Spec.invalidUrlMessage)
  ∧ (∀ url, URL_parse urlString = Some url →
            protocol url ∉ [js "http:"; js "https:"] →
            Scraper.validateUrl urlString = Throw Spec.disallowedProtocolMessage)
  ∧ (∀ url, URL_parse urlString = Some url →
            protocol url ∈ [js "http:"; js "https:"] →
            Spec.BlockedHost (toLowerCase (hostname url)) →
            ∃ msg, Scraper.validateUrl urlString = Throw msg
                   ∧ msg ∈ Spec.ssrfBlockedMessages)
  ∧ (∀ url, URL_parse urlString = Some url →
            protocol url ∈ [js "http:"; js "https:"] →
            toLowerCase (hostname url) = js "example.com" →
            Scraper.validateUrl urlString = Ret (href url)).
Proof.
  unfold Scraper.validateUrl, arrayIncludes.
  split_and!.
  - by intros ->.
  - intros url -> Hp. by rewrite (bool_decide_eq_false_2 _ Hp).
  - intros url -> Hp Hb.
    rewrite (bool_decide_eq_true_2 _ Hp). cbn [negb throwIf mbind outcome_bind].
    apply blocked_host_checks in Hb. unfold arrayIncludes in Hb.
    set (h := toLowerCase (hostname url)) in *.
    destruct (bool_decide (h ∈ Scraper.localhostPatterns)) eqn:E1; cbn.
    { ssrf_blocked. }
    destruct Hb as [Hb|[(a & b & -> & Hr)|Hb]]; [done| |].
    + unfold Spec.inBlockedRange in Hr.
      destruct (a =? 10)%N; cbn.
      { ssrf_blocked. }
      destruct ((a =? 172) && (16 <=? b) && (b <=? 31))%N; cbn.
      { ssrf_blocked. }
      destruct ((a =? 192) && (b =? 168))%N; cbn.
      { ssrf_blocked. }
      destruct ((a =? 169) && (b =? 254))%N; cbn.
      { ssrf_blocked. }
      destruct (a =? 127)%N; cbn; [|done].
      ssrf_blocked.
    + rewrite Hb.
      destruct (Scraper.ipRegex h) as [[a b]|]; cbn.
      2:{ ssrf_blocked. }
      destruct (a =? 10)%N; cbn.
      { ssrf_blocked. }
      destruct ((a =? 172) && (16 <=? b) && (b <=? 31))%N; cbn.
      { ssrf_blocked. }
      destruct ((a =? 192) && (b =? 168))%N; cbn.
      { ssrf_blocked. }
      destruct ((a =? 169) && (b =? 254))%N; cbn.
      { ssrf_blocked. }
      destruct (a =? 127)%N; cbn.
      { ssrf_blocked. }
      ssrf_blocked.
  - intros url -> Hp ->.
    rewrite (bool_decide_eq_true_2 _ Hp). reflexivity.
Qed.

End UrlGuard.

Lemma validateUrl_guard_witness :
  Scraper.validateUrl (H := Examples.exampleRuntime) (js "not-a-url")
  = Throw Spec.invalidUrlMessage
  ∧ Scraper.validateUrl (H := Examples.exampleRuntime) (js "ftp://files.example.com")
    = Throw Spec.disallowedProtocolMessage
  ∧ (∃ msg, Scraper.validateUrl (H := Examples.exampleRuntime)
                                (js "http://172.20.1.9/admin") = Throw msg
            ∧ msg ∈ Spec.ssrfBlockedMessages)
  ∧ (∃ msg, Scraper.validateUrl (H := Examples.exampleRuntime)
                                (js "http://[::1]:3000") = Throw msg
            ∧ msg ∈ Spec.ssrfBlockedMessages)
  ∧ Scraper.validateUrl (H := Examples.exampleRuntime) (js "https://example.com")
    = Ret (js "https://example.com/")
  ∧ Scraper.validateUrl (H := Examples.exampleRuntime) (js "http://example.com:8080/api")
    = Ret (js "http://example.com:8080/api").
Proof.
  split_and!.
  - apply (proj1 (validateUrl_guard (H := Examples.exampleRuntime) (js "not-a-url"))).
    vm_compute. reflexivity.
  - apply (proj1 (proj2 (validateUrl_guard (H := Examples.exampleRuntime)
                                           (js "ftp://files.example.com")))
             (mkURL (js "ftp:") (js "files.example.com") (js "ftp://files.example.com/"))).
    + vm_compute. reflexivity.
    + apply (bool_decide_eq_false_1 _). vm_compute. reflexivity.
  - apply (proj1 (proj2 (proj2 (validateUrl_guard (H := Examples.exampleRuntime)
                                                  (js "http://172.20.1.9/admin"))))
             (mkURL (js "http:") (js "172.20.1.9") (js "http://172.20.1.9/admin"))).
    + vm_compute. reflexivity.
    + apply (bool_decide_eq_true_1 _). vm_compute. reflexivity.
    + change (Spec.BlockedHost (Spec.dotted 172 20 1 9)).
      apply Spec.BlockedPrivate172; unfold Spec.isOctet; lia.
  - apply (proj1 (proj2 (proj2 (validateUrl_guard (H := Examples.exampleRuntime)
                                                  (js "http://[::1]:3000"))))
             (mkURL (js "http:") (js "[::1]") (js "http://[::1]:3000/"))).
    + vm_compute. reflexivity.
    + apply (bool_decide_eq_true_1 _). vm_compute. reflexivity.
    + apply Spec.BlockedLocalhost. change (asciiLower (js "[::1]")) with (js "[::1]").
      in_list.
  - apply (proj2 (proj2 (proj2 (validateUrl_guard (H := Examples.exampleRuntime)
                                                  (js "https://example.com"))))
             (mkURL (js "https:") (js "example.com") (js "https://example.com/"))).
    + vm_compute. reflexivity.
    + apply (bool_decide_eq_true_1 _). vm_compute. reflexivity.
    + vm_compute. reflexivity.
  - apply (proj2 (proj2 (proj2 (validateUrl_guard (H := Examples.exampleRuntime)
                                                  (js "http://example.com:8080/api"))))
             (mkURL (js "http:") (js "example.com") (js "http://example.com:8080/api"))).
    + vm_compute. reflexivity.
    + apply (bool_decide_eq_true_1 _). vm_compute. reflexivity.
    + vm_compute. reflexivity.
Defined.

(** ** Excerpts *)

Section Excerpts.
Context `{Runtime}.

Lemma substring_prefix_length (s : jsstring) (n : Z) :
  0 ≤ n → (length (substring s 0 n) ≤ Z.to_nat n)%nat.
Proof.
  intros Hn. unfold substring, clamp, len. rewrite length_take. lia.
Qed.

Lemma indexFrom_spec (pat s : jsstring) (k : nat) :
  (indexFrom pat s k = -1
   ∧ ∀ j, (j ≤ length s)%nat → startsWith pat (drop j s) = false)
  ∨ (∃ j, (j ≤ length s)%nat
          ∧ indexFrom pat s k = Z.of_nat (k + j)
          ∧ startsWith pat (drop j s) = true
          ∧ ∀ j', (j' < j)%nat → startsWith pat (drop j' s) = false).
Proof.
  revert k. induction s as [|c r IH]; intros k; cbn [indexFrom].
  - destruct (startsWith pat []) eqn:E.
    + right. exists 0%nat. rewrite Nat.add_0_r. split_and!; [done..|lia].
    + left. split; [done|]. intros j _. by rewrite drop_nil.
  - destruct (startsWith pat (c :: r)) eqn:E.
    + right. exists 0%nat. rewrite Nat.add_0_r. split_and!; [cbn; lia|done..|lia].
    + destruct (IH (S k)) as [[Hr Hnone]|(j & Hj & Hr & Hat & Hmin)].
      * left. split; [done|]. intros [|j] Hj; [done|].
        cbn in Hj. apply Hnone. lia.
      * right. exists (S j). split_and!; [cbn; lia| |done|].
        -- rewrite Hr. lia.
        -- intros [|j'] Hj'; [done|]. apply Hmin. lia.
Qed.

Lemma indexOf_spec (s pat : jsstring) (pos : Z) :
  (indexOf s pat pos = -1
   ∧ ∀ i, clamp (len s) pos ≤ i → ¬ Spec.occursAt s pat i)
  ∨ (indexOf s pat pos ≠ -1
     ∧ Spec.occursAt s pat (indexOf s pat pos)
     ∧ clamp (len s) pos ≤ indexOf s pat pos
     ∧ ∀ j, clamp (len s) pos ≤ j < indexOf s pat pos → ¬ Spec.occursAt s pat j).
Proof.
  unfold indexOf, Spec.occursAt.
  set (from := clamp (len s) pos).
  assert (Hfrom : 0 ≤ from ≤ len s) by (unfold from, clamp, len; lia).
  set (start := Z.to_nat from).
  assert (Hlen : length (drop start s) = (length s - start)%nat)
    by apply length_drop.
  assert (Hstart : (start ≤ length s)%nat) by (unfold start, len in *; lia).
  destruct (indexFrom_spec pat (drop start s) start)
    as [[Hr Hnone]|(j & Hj & Hr & Hat & Hmin)]; rewrite Hr.
  - left. split; [done|]. intros i Hi [Hrange Hocc].
    specialize (Hnone (Z.to_nat i - start)%nat).
    rewrite drop_drop in Hnone.
    replace (start + (Z.to_nat i - start))%nat with (Z.to_nat i) in Hnone
      by (unfold start; lia).
    rewrite Hnone in Hocc; [done|]. unfold len in *. lia.
  - right. rewrite drop_drop in Hat. unfold len in *.
    split_and!; [lia|lia|lia|by rewrite Nat2Z.id|unfold start; lia|].
    intros i Hi [Hrange Hocc].
    specialize (Hmin (Z.to_nat i - start)%nat).
    rewrite drop_drop in Hmin.
    replace (start + (Z.to_nat i - start))%nat with (Z.to_nat i) in Hmin
      by (unfold start; lia).
    rewrite Hmin in Hocc; [done|]. unfold start. lia.
Qed.

Lemma indexesFrom_earliest (n : nat) (s pat : jsstring) (klen from : Z) :
  Spec.EarliestOccurrences s pat klen n from (Spec.indexesFrom n s pat klen from).
Proof.
  revert from. induction n as [|n IH]; intros from; cbn [Spec.indexesFrom].
  - constructor.
  - destruct (indexOf_spec s pat from) as [[Hr Hnone]|(Hr & Hocc & Hge & Hmin)].
    + rewrite Hr. cbn. by constructor.
    + destruct (Z.eqb_spec (indexOf s pat from) (-1)); [done|].
      by constructor.
Qed.

Lemma indexesFrom_length (n : nat) (s pat : jsstring) (klen from : Z) :
  (length (Spec.indexesFrom n s pat klen from) ≤ n)%nat.
Proof.
  revert from. induction n as [|n IH]; intros from; cbn [Spec.indexesFrom].
  - done.
  - destruct (_ =? _); cbn; [lia|]. specialize (IH (indexOf s pat from + klen)). lia.
Qed.

Lemma excerptsFrom_indexes (n : nat) (text lowerText keyword lowerKeyword : jsstring)
      (index : Z) :
  Scraper.excerptsFrom n text lowerText keyword lowerKeyword index
  = map (Spec.excerptOf text keyword)
        (Spec.indexesFrom n lowerText lowerKeyword (len keyword) index).
Proof.
  revert index. induction n as [|n IH]; intros index; [done|].
  cbn [Scraper.excerptsFrom Spec.indexesFrom].
  destruct (_ =? _); [done|]. cbn [map]. rewrite IH. f_equal.
  unfold Spec.excerptOf, Spec.excerptWith, Spec.textBefore, Spec.textAfter,
    Spec.window, Spec.ellipsis.
  set (i := indexOf lowerText lowerKeyword index).
  replace (0 <? Z.max 0 (i - Scraper.CONTEXT_RADIUS))
    with (0 <? i - Scraper.CONTEXT_RADIUS) by lia.
  replace (Z.min (len text) (i + len keyword + Scraper.CONTEXT_RADIUS) <? len text)
    with (i + len keyword + Scraper.CONTEXT_RADIUS <? len text) by lia.
  destruct (0 <? _), (_ <? len text); cbn [app];
    rewrite ?app_nil_r, <- ?app_assoc; reflexivity.
Qed.

Lemma substring_limited (s : jsstring) (a b : Z) :
  substring s (Z.max 0 a) (Z.min (len s) b) = substring s a b.
Proof.
  unfold substring.
  assert (Ha : clamp (len s) (Z.max 0 a) = clamp (len s) a) by (unfold clamp; lia).
  assert (Hb : clamp (len s) (Z.min (len s) b) = clamp (len s) b)
    by (unfold clamp, len; lia).
  by rewrite Ha, Hb.
Qed.

(** C3, as the code has it. The result of [extractRelevantContent] is at
    most 3000 code units long. It is the join, cut at 3000, of the excerpts
    of the keywords in order, where a keyword contributes one excerpt for
    each of its first occurrences in the lower-cased text, at most three,
    earliest first, each searched from the end of the previous one. For an
    occurrence found at position [index], the excerpt is the part of the
    original text from [index - 200] to [index + len keyword + 200],
    limited to the text and trimmed, with an ellipsis in front exactly when
    that part starts after the beginning of the text, that is when
    [200 < index], and an ellipsis behind exactly when it ends before the
    end of the text, that is when [index + len keyword + 200 < len text].
    A window that was clipped at an end of the text, or that reaches that
    end exactly, has no ellipsis there. *)
Theorem extractRelevantContent_excerpts (text : jsstring) (keywords : list jsstring) :
  (length (Scraper.extractRelevantContent text keywords) ≤ 3000)%nat
  ∧ Scraper.extractRelevantContent text keywords
    = Spec.assemble Spec.excerptOf text keywords
  ∧ Forall (fun keyword =>
              (length (Spec.occurrenceIndexes text keyword) ≤ 3)%nat
              ∧ Spec.EarliestOccurrences (toLowerCase text) (toLowerCase keyword)
                  (len keyword) 3 0 (Spec.occurrenceIndexes text keyword))
           keywords
  ∧ (∀ keyword index,
       Spec.excerptOf text keyword index
       = (if 200 <? index then Spec.ellipsis else [])
         ++ trim (substring text (index - 200) (index + len keyword + 200))
         ++ (if index + len keyword + 200 <? len text then Spec.ellipsis else []))
  ∧ (∀ keyword index,
       (Spec.textBefore index = true ↔ 200 < index)
       ∧ (Spec.textAfter text keyword index = true
          ↔ index + len keyword + 200 < len text)
       ∧ (Spec.clippedAtStart index = true → Spec.textBefore index = false)
       ∧ (Spec.clippedAtEnd text keyword index = true
          → Spec.textAfter text keyword index = false)
       ∧ (index = 200 →
          Spec.clippedAtStart index = false ∧ Spec.textBefore index = false)
       ∧ (index + len keyword + 200 = len text →
          Spec.clippedAtEnd text keyword index = false
          ∧ Spec.textAfter text keyword index = false)).
Proof.
  split_and!.
  - apply (substring_prefix_length _ 3000). lia.
  - unfold Scraper.extractRelevantContent, Spec.assemble, Spec.occurrenceIndexes.
    do 2 f_equal. induction keywords as [|k ks IH]; [done|].
    cbn [flat_map]. by rewrite IH, excerptsFrom_indexes.
  - apply Forall_forall. intros keyword _. split.
    + apply indexesFrom_length.
    + apply indexesFrom_earliest.
  - intros keyword index.
    unfold Spec.excerptOf, Spec.excerptWith, Spec.window, Spec.textBefore,
      Spec.textAfter. change Scraper.CONTEXT_RADIUS with 200.
    rewrite substring_limited.
    replace (0 <? index - 200) with (200 <? index)
      by (destruct (Z.ltb_spec 200 index), (Z.ltb_spec 0 (index - 200)); lia).
    reflexivity.
  - intros keyword index.
    unfold Spec.textBefore, Spec.textAfter, Spec.clippedAtStart, Spec.clippedAtEnd.
    change Scraper.CONTEXT_RADIUS with 200.
    rewrite !Z.ltb_lt, !Z.ltb_ge. lia.
Qed.

End Excerpts.

(** The wording of the specification, an ellipsis where the window was
    clipped by the text boundary, fails on the text "AI" with the keyword
    "AI": the window is clipped at both ends of the text, and the excerpt is
    "AI", with no ellipsis. *)
Lemma excerpt_ellipsis_counterexample :
  Spec.clippedAtStart 0 = true
  ∧ Spec.clippedAtEnd (js "AI") (js "AI") 0 = true
  ∧ Scraper.extractRelevantContent (H := Examples.exampleRuntime) (js "AI") [js "AI"]
    = js "AI"
  ∧ Spec.assemble (H := Examples.exampleRuntime) Spec.excerptAsClaimed (js "AI") [js "AI"]
    = js "...AI..."
  ∧ Scraper.extractRelevantContent (H := Examples.exampleRuntime) (js "AI") [js "AI"]
    ≠ Spec.assemble (H := Examples.exampleRuntime) Spec.excerptAsClaimed
                    (js "AI") [js "AI"].
Proof.
  split_and!; [vm_compute; reflexivity..|].
  vm_compute. discriminate.
Qed.

(** ** Sanitizers *)

Section Sanitizers.

Lemma startsWith_app (pat s : jsstring) :
  startsWith pat s = true ↔ ∃ rest, s = pat ++ rest.
Proof.
  revert s. induction pat as [|p pat IH]; intros s; cbn.
  - split; [by exists s|done].
  - destruct s as [|c s].
    + split; [done|]. by intros [rest Hrest].
    + rewrite andb_true_iff, N.eqb_eq, IH. split.
      * intros [-> [rest ->]]. by exists rest.
      * intros [rest [= -> ->]]. eauto.
Qed.

Lemma startsWith_take (pat s : jsstring) (m : nat) :
  startsWith pat (take m s) = true → startsWith pat s = true.
Proof.
  rewrite !startsWith_app. intros [rest Hrest].
  exists (rest ++ drop m s). by rewrite app_assoc, <- Hrest, take_drop.
Qed.

Lemma replaceFences_fence (r : jsstring) :
  Insforge.replaceFences (96 :: 96 :: 96 :: r)%N
  = (45 :: 45 :: 45 :: Insforge.replaceFences r)%N.
Proof. reflexivity. Qed.

Lemma replaceFences_other (c : N) (r : jsstring) :
  startsWith Insforge.fence (c :: r) = false →
  Insforge.replaceFences (c :: r) = c :: Insforge.replaceFences r.
Proof. intros E. cbn [Insforge.replaceFences]. by rewrite E. Qed.

Lemma fence_cases (s : jsstring) :
  (∃ r, s = (96 :: 96 :: 96 :: r)%N) ∨ startsWith Insforge.fence s = false.
Proof.
  destruct (startsWith Insforge.fence s) eqn:E; [left|by right].
  apply startsWith_app in E as [rest ->]. by exists rest.
Qed.

Lemma replaceFences_head (r t : jsstring) :
  Insforge.replaceFences r = 96%N :: t →
  ∃ r1, r = 96%N :: r1 ∧ Insforge.replaceFences r1 = t.
Proof.
  destruct r as [|c r1]; [done|].
  destruct (fence_cases (c :: r1)) as [[r' [= -> ->]]|E].
  - by rewrite replaceFences_fence.
  - rewrite (replaceFences_other _ _ E). intros [= -> <-]. eauto.
Qed.

Lemma replaceFences_no_fence (s : jsstring) (i : nat) :
  startsWith Insforge.fence (drop i (Insforge.replaceFences s)) = false.
Proof.
  remember (length s) as n eqn:Hn. revert s Hn i.
  induction n as [n IH] using lt_wf_ind. intros s Hn i.
  destruct s as [|c r]; [cbn; by rewrite drop_nil|].
  destruct (fence_cases (c :: r)) as [[r' [= -> ->]]|E].
  - rewrite replaceFences_fence.
    destruct i as [|[|[|i]]]; [done..|].
    cbn [drop]. eapply (IH (length r')); [|done]. cbn in Hn. lia.
  - rewrite (replaceFences_other _ _ E).
    destruct i as [|i].
    + cbn [drop]. destruct (startsWith _ (c :: Insforge.replaceFences r)) eqn:E'; [|done].
      apply startsWith_app in E' as [rest [= -> Hr]].
      apply replaceFences_head in Hr as (r1 & -> & Hr).
      apply replaceFences_head in Hr as (r2 & -> & _).
      done.
    + cbn [drop]. eapply (IH (length r)); [|done]. cbn in Hn. lia.
Qed.

Lemma replaceFences_Forall (P : N → Prop) (s : jsstring) :
  P 45%N → Forall P s → Forall P (Insforge.replaceFences s).
Proof.
  intros H45. remember (length s) as n eqn:Hn. revert s Hn.
  induction n as [n IH] using lt_wf_ind. intros s Hn Hs.
  destruct s as [|c r]; [done|].
  destruct (fence_cases (c :: r)) as [[r' [= -> ->]]|E].
  - rewrite replaceFences_fence. repeat constructor; try done.
    eapply (IH (length r')); [cbn in Hn; lia|done|].
    by do 3 apply Forall_cons_1 in Hs as [_ Hs].
  - rewrite (replaceFences_other _ _ E).
    apply Forall_cons_1 in Hs as [Hc Hs]. constructor; [done|].
    eapply (IH (length r)); [cbn in Hn; lia|done..].
Qed.

Lemma substring_Forall (P : N → Prop) (s : jsstring) (a b : Z) :
  Forall P s → Forall P (substring s a b).
Proof. intros Hs. unfold substring. by apply Forall_take, Forall_drop. Qed.

Lemma trimStart_Forall (P : N → Prop) (s : jsstring) :
  Forall P s → Forall P (trimStart s).
Proof.
  induction 1 as [|c r Hc Hr IH]; [done|]. cbn.
  destruct (isWhiteSpace c); [done|by constructor].
Qed.

Lemma trim_Forall (P : N → Prop) (s : jsstring) :
  Forall P s → Forall P (trim s).
Proof.
  intros Hs. unfold trim, trimEnd.
  apply Forall_rev, trimStart_Forall, Forall_rev. by apply trimStart_Forall.
Qed.

Lemma filter_Forall (f : N → bool) (P : N → Prop) (s : jsstring) :
  (∀ c, f c = true → P c) → Forall P (List.filter f s).
Proof.
  intros HP. induction s as [|c r IH]; [done|]. cbn.
  destruct (f c) eqn:E; [constructor; auto|done].
Qed.

Lemma sanitizeInput_sanitized (text : jsstring) :
  Spec.sanitizedExcerpt (Insforge.sanitizeInput text).
Proof.
  unfold Spec.sanitizedExcerpt, Insforge.sanitizeInput. split_and!.
  - apply substring_Forall, replaceFences_Forall; [done|].
    apply filter_Forall. intros c Hc. by apply negb_true_iff.
  - intros i. unfold substring.
    match goal with
    | |- startsWith _ (drop i (take ?m (drop ?k ?l))) = false =>
        replace k with 0%nat by (unfold clamp, len; lia);
        destruct (startsWith Insforge.fence (drop i (take m (drop 0 l)))) eqn:E;
        [|done]
    end.
    rewrite drop_0, skipn_firstn_comm in E. apply startsWith_take in E.
    by rewrite replaceFences_no_fence in E.
  - apply (substring_prefix_length _ 2000). lia.
Qed.

Lemma sanitizeKeywords_sanitized (keywords : list jsstring) :
  Forall Spec.sanitizedKeyword (Insforge.sanitizeKeywords keywords).
Proof.
  unfold Insforge.sanitizeKeywords, Spec.sanitizedKeyword.
  induction keywords as [|k ks IH]; [done|]. cbn [map List.filter].
  destruct (_ && _) eqn:E; [|done]. constructor; [|done].
  apply andb_true_iff in E as [E1 E2].
  apply Nat.ltb_lt in E1, E2. split; [lia|].
  by apply trim_Forall, filter_Forall.
Qed.

End Sanitizers.

(** ** Validation of the reply of the summarizer *)

Section ReplyValidation.

Lemma getProp_insert (o : jsobject) (k k' : jsstring) (v : jsvalue) :
  getProp (<[k := v]> o) k' = if decide (k = k') then v else getProp o k'.
Proof.
  unfold getProp. rewrite lookup_insert. by destruct (decide (k = k')).
Qed.

Lemma substring_prefix (s : jsstring) (n : Z) :
  0 ≤ n → substring s 0 n = take (Z.to_nat n) s.
Proof.
  intros Hn. unfold substring, clamp, len.
  replace (Z.to_nat (Z.min _ _)) with 0%nat by lia. rewrite drop_0.
  destruct (decide (n ≤ Z.of_nat (length s))) as [Hle|Hgt].
  - f_equal. lia.
  - rewrite !take_ge by lia. done.
Qed.

Lemma getProp_insert_eq (o : jsobject) (k : jsstring) (v : jsvalue) :
  getProp (<[k := v]> o) k = v.
Proof. rewrite getProp_insert. by rewrite decide_True. Qed.

Lemma getProp_insert_ne (o : jsobject) (k k' : jsstring) (v : jsvalue) :
  k ≠ k' → getProp (<[k := v]> o) k' = getProp o k'.
Proof. intros Hk. rewrite getProp_insert. by rewrite decide_False. Qed.

Lemma getProp_ite_ne (b : bool) (o : jsobject) (k k' : jsstring) (v : jsvalue) :
  k ≠ k' → getProp (if b then <[k := v]> o else o) k' = getProp o k'.
Proof. intros Hk. destruct b; [by apply getProp_insert_ne|done]. Qed.

(** The three stages of [validateResult], each writing one property. *)
Lemma validateResult_stages (o : jsobject) :
  ∃ o1 o2,
    (∀ k, Insforge.k_threat_level ≠ k → getProp o1 k = getProp o k)
    ∧ getProp o1 Insforge.k_threat_level
      = (if Insforge.isValidThreatLevel (getProp o Insforge.k_threat_level)
         then getProp o Insforge.k_threat_level
         else JString (js "UNKNOWN"))
    ∧ (∀ k, Insforge.k_summary ≠ k → getProp o2 k = getProp o1 k)
    ∧ getProp o2 Insforge.k_summary
      = match getProp o1 Insforge.k_summary with
        | JString (c :: r) =>
            if (100 <? length (c :: r))%nat then JString (take 100 (c :: r))
            else JString (c :: r)
        | _ => JString Insforge.msgAbnormal
        end
    ∧ (∀ k, Insforge.k_category ≠ k →
            getProp (Insforge.validateResult o) k = getProp o2 k)
    ∧ getProp (Insforge.validateResult o) Insforge.k_category
      = match getProp o2 Insforge.k_category with
        | JString (c :: r) => JString (c :: r)
        | _ => JString (js "UNKNOWN")
        end.
Proof.
  unfold Insforge.validateResult. cbv zeta.
  set (o1 := if negb (Insforge.isValidThreatLevel _) then _ else o).
  set (o2 := if negb (truthy (getProp o1 _)) || _ then _ else _).
  exists o1, o2. split_and!.
  - intros k Hk. by apply getProp_ite_ne.
  - unfold o1. destruct (Insforge.isValidThreatLevel _); cbn [negb]; [done|].
    apply getProp_insert_eq.
  - intros k Hk. unfold o2.
    destruct (_ || _); [by apply getProp_insert_ne|].
    destruct (getProp o1 Insforge.k_summary); try done.
    by apply getProp_ite_ne.
  - unfold o2.
    destruct (getProp o1 Insforge.k_summary) as [| |b|q|[|c r]| |] eqn:E;
      cbn [truthy isString negb orb]; rewrite ?orb_true_r;
      rewrite ?getProp_insert_eq; try done.
    + rewrite bool_decide_eq_true_2 by done. cbn [negb orb].
      by rewrite getProp_insert_eq.
    + rewrite bool_decide_eq_false_2 by done. cbn [negb orb].
      destruct (100 <? _)%nat; [|done].
      rewrite getProp_insert_eq, substring_prefix by lia. done.
  - intros k Hk. by apply getProp_ite_ne.
  - destruct (getProp o2 Insforge.k_category) as [| |b|q|[|c r]| |] eqn:E;
      cbn [truthy isString negb orb]; rewrite ?orb_true_r;
      rewrite ?getProp_insert_eq; try done.
    rewrite bool_decide_eq_true_2 by done. cbn [negb orb].
    by rewrite getProp_insert_eq.
Qed.

Lemma keys_distinct :
  Insforge.k_summary ≠ Insforge.k_threat_level
  ∧ Insforge.k_summary ≠ Insforge.k_category
  ∧ Insforge.k_threat_level ≠ Insforge.k_category.
Proof. done. Qed.

(** An invalid threat level is replaced by UNKNOWN, a valid one is kept. *)
Lemma validateResult_threat_level (o : jsobject) :
  getProp (Insforge.validateResult o) Insforge.k_threat_level
  = if Insforge.isValidThreatLevel (getProp o Insforge.k_threat_level)
    then getProp o Insforge.k_threat_level
    else JString (js "UNKNOWN").
Proof.
  destruct keys_distinct as (H1 & H2 & H3).
  destruct (validateResult_stages o) as (o1 & o2 & _ & Ht & Hs & _ & Hc & _).
  rewrite Hc, Hs by done. exact Ht.
Qed.

(** A summary that is not a non-empty string is replaced by a fixed text,
    a summary of more than 100 code units is cut to its first 100, any
    other summary is kept. *)
Lemma validateResult_summary (o : jsobject) :
  getProp (Insforge.validateResult o) Insforge.k_summary
  = match getProp o Insforge.k_summary with
    | JString (c :: r) =>
        if (100 <? length (c :: r))%nat then JString (take 100 (c :: r))
        else JString (c :: r)
    | _ => JString Insforge.msgAbnormal
    end.
Proof.
  destruct keys_distinct as (H1 & H2 & H3).
  destruct (validateResult_stages o) as (o1 & o2 & Ht & _ & _ & Hs & Hc & _).
  rewrite Hc, Hs, Ht by done. done.
Qed.

(** A category that is not a non-empty string is replaced by UNKNOWN. *)
Lemma validateResult_category (o : jsobject) :
  getProp (Insforge.validateResult o) Insforge.k_category
  = match getProp o Insforge.k_category with
    | JString (c :: r) => JString (c :: r)
    | _ => JString (js "UNKNOWN")
    end.
Proof.
  destruct keys_distinct as (H1 & H2 & H3).
  destruct (validateResult_stages o) as (o1 & o2 & Ht & _ & Hs & _ & _ & Hc).
  rewrite Hc, Hs, Ht by done. done.
Qed.

Lemma validateResult_wellFormed (o : jsobject) :
  Spec.wellFormedAnalysis (Insforge.validateResult o).
Proof.
  unfold Spec.wellFormedAnalysis.
  rewrite validateResult_threat_level, validateResult_summary,
    validateResult_category.
  split_and!.
  - destruct (Insforge.isValidThreatLevel _) eqn:E.
    + destruct (getProp o Insforge.k_threat_level) as [| | | |t| |]; try done.
      exists t. split; [done|]. cbn in E. apply bool_decide_eq_true in E.
      unfold Spec.threatLevels, Insforge.validThreatLevels in *.
      repeat (apply elem_of_cons in E as [->|E]; [in_list|]).
      by apply elem_of_nil in E.
    + eexists. split; [done|]. unfold Spec.threatLevels. in_list.
  - destruct (getProp o Insforge.k_summary) as [| | | |[|c r]| |];
      try (eexists; split; [reflexivity|cbn; lia]).
    destruct (100 <? _)%nat eqn:E; eexists; (split; [reflexivity|]).
    + apply Nat.ltb_lt in E. rewrite length_take. cbn [length] in *. lia.
    + apply Nat.ltb_ge in E. cbn [length] in *. lia.
  - destruct (getProp o Insforge.k_category) as [| | | |[|c r]| |];
      eexists; (split; [reflexivity|cbn; lia]).
Qed.

Lemma analysis_wellFormed (summary threat_level category : jsstring) :
  (0 < length summary ≤ 100)%nat → threat_level ∈ Spec.threatLevels →
  (0 < length category)%nat →
  Spec.wellFormedAnalysis (Insforge.analysis summary threat_level category).
Proof.
  destruct keys_distinct as (H1 & H2 & H3).
  intros Hs Ht Hc. unfold Spec.wellFormedAnalysis, Insforge.analysis.
  split_and!; eexists;
    (split; [rewrite ?getProp_insert_eq, ?getProp_insert_ne,
               ?getProp_insert_eq by done; reflexivity|done]).
Qed.

End ReplyValidation.

(** ** Effects: a calculus of histories *)

Section Calculus.

Lemma advance_0 (w : World) : advance 0 [] w = w.
Proof. destruct w. unfold advance. cbn. by rewrite app_nil_r. Qed.

Lemma advance_advance (n1 n2 : nat) (l1 l2 : list Action) (w : World) :
  advance n2 l2 (advance n1 l1 w) = advance (n2 + n1) (l1 ++ l2) w.
Proof. unfold advance. cbn. by rewrite app_assoc, Nat.add_assoc. Qed.

Lemma log_advance (a : Action) (w : World) : log a w = advance 1 [a] w.
Proof. reflexivity. Qed.

Lemma pass_advance (w : World) : pass w = advance 1 [] w.
Proof. unfold pass, advance. cbn. by rewrite app_nil_r. Qed.

Lemma since_advance (n : nat) (l : list Action) (w : World) :
  Spec.since w (advance n l w) = l.
Proof. unfold Spec.since, advance. cbn. by rewrite drop_app_length. Qed.

Lemma yields_mono {C : Type} (m : M C) (w : World)
      (P P' : outcome C → nat → list Action → Prop) :
  yields m w P → (∀ a n l, P a n l → P' a n l) → yields m w P'.
Proof. intros (a & n & l & Hm & HP) HPP'. exists a, n, l. eauto. Qed.

Context {A B : Type}.
Implicit Types (w : World) (P : outcome A → nat → list Action → Prop).

Lemma yields_ret (a : A) w P : P (Ret a) 0%nat [] → yields (mret a) w P.
Proof. intros HP. exists (Ret a), 0%nat, []. by rewrite advance_0. Qed.

Lemma yields_throw (msg : jsstring) w P :
  P (Throw msg) 0%nat [] → yields (throw msg) w P.
Proof. intros HP. exists (Throw msg), 0%nat, []. by rewrite advance_0. Qed.

Lemma yields_liftO (o : outcome A) w P : P o 0%nat [] → yields (liftO o) w P.
Proof. intros HP. exists o, 0%nat, []. by rewrite advance_0. Qed.

Lemma yields_call (a : Action) (answer : nat → outcome A) w P :
  P (answer (steps w)) 1%nat [a] → yields (call a answer) w P.
Proof. intros HP. by exists (answer (steps w)), 1%nat, [a]. Qed.

Lemma yields_bind (m : M A) (f : A → M B) w
      (Q : outcome B → nat → list Action → Prop) :
  yields m w (fun a n l =>
                match a with
                | Ret x => yields (f x) (advance n l w)
                                  (fun b n' l' => Q b (n' + n)%nat (l ++ l'))
                | Throw msg => Q (Throw msg) n l
                end) →
  yields (m ≫= f) w Q.
Proof.
  intros (a & n & l & Hm & HP). unfold yields, mbind, M_bind. rewrite Hm.
  destruct a as [x|msg].
  - destruct HP as (b & n' & l' & Hf & HQ).
    exists b, (n' + n)%nat, (l ++ l'). by rewrite Hf, advance_advance.
  - by exists (Throw msg), n, l.
Qed.

Lemma yields_tryCatch (body : M A) (handler : jsstring → M A) w P :
  yields body w (fun a n l =>
                   match a with
                   | Ret x => P (Ret x) n l
                   | Throw msg => yields (handler msg) (advance n l w)
                                         (fun b n' l' => P b (n' + n)%nat (l ++ l'))
                   end) →
  yields (tryCatch body handler) w P.
Proof.
  intros (a & n & l & Hm & HP). unfold yields, tryCatch. rewrite Hm.
  destruct a as [x|msg].
  - by exists (Ret x), n, l.
  - destruct HP as (b & n' & l' & Hf & HQ).
    exists b, (n' + n)%nat, (l ++ l'). by rewrite Hf, advance_advance.
Qed.

Implicit Types (R : outcome A → Prop) (Q : Action → Prop).

Lemma produces_mono R R' Q Q' (m : M A) :
  produces R Q m → (∀ a, R a → R' a) → (∀ a, Q a → Q' a) → produces R' Q' m.
Proof.
  intros Hm HR HQ w. eapply yields_mono; [apply Hm|].
  intros a _ l [Ha Hl]. split; [auto|]. eapply Forall_impl; eauto.
Qed.

Lemma produces_ret R Q (a : A) : R (Ret a) → produces R Q (mret a).
Proof. intros HR w. by apply yields_ret. Qed.

Lemma produces_throw R Q (msg : jsstring) : R (Throw msg) → produces R Q (throw msg).
Proof. intros HR w. by apply yields_throw. Qed.

Lemma produces_liftO R Q (o : outcome A) : R o → produces R Q (liftO o).
Proof. intros HR w. by apply yields_liftO. Qed.

Lemma produces_call R Q (a : Action) (answer : nat → outcome A) :
  (∀ n, R (answer n)) → Q a → produces R Q (call a answer).
Proof. intros HR HQ w. apply yields_call. split; [done|by constructor]. Qed.

Lemma produces_bind R (R' : outcome B → Prop) Q (m : M A) (f : A → M B) :
  produces R Q m →
  (∀ x, R (Ret x) → produces R' Q (f x)) →
  (∀ msg, R (Throw msg) → R' (Throw msg)) →
  produces R' Q (m ≫= f).
Proof.
  intros Hm Hf Hthrow w. apply yields_bind.
  eapply yields_mono; [apply Hm|]. intros [x|msg] n l [Ha Hl].
  - eapply yields_mono; [by apply Hf|]. intros b n' l' [Hb Hl'].
    split; [done|by apply Forall_app].
  - split; [auto|done].
Qed.

Lemma produces_tryCatch R R' Q (body : M A) (handler : jsstring → M A) :
  produces R Q body →
  (∀ x, R (Ret x) → R' (Ret x)) →
  (∀ msg, R (Throw msg) → produces R' Q (handler msg)) →
  produces R' Q (tryCatch body handler).
Proof.
  intros Hm Hret Hh w. apply yields_tryCatch.
  eapply yields_mono; [apply Hm|]. intros [x|msg] n l [Ha Hl].
  - split; [auto|done].
  - eapply yields_mono; [by apply Hh|]. intros b n' l' [Hb Hl'].
    split; [done|by apply Forall_app].
Qed.

End Calculus.

Section CalculusUnit.

Lemma yields_emit (a : nat → Action) (w : World)
      (P : outcome unit → nat → list Action → Prop) :
  P (Ret tt) 1%nat [a (steps w)] → yields (emit a) w P.
Proof. intros HP. by exists (Ret tt), 1%nat, [a (steps w)]. Qed.

Lemma yields_sleep (w : World) (P : outcome unit → nat → list Action → Prop) :
  P (Ret tt) 1%nat [] → yields sleep w P.
Proof.
  intros HP. exists (Ret tt), 1%nat, []. unfold sleep. by rewrite pass_advance.
Qed.

Lemma produces_emit (R : outcome unit → Prop) (Q : Action → Prop)
      (a : nat → Action) :
  R (Ret tt) → (∀ n, Q (a n)) → produces R Q (emit a).
Proof. intros HR HQ w. apply yields_emit. split; [done|by constructor]. Qed.

Lemma produces_sleep (R : outcome unit → Prop) (Q : Action → Prop) :
  R (Ret tt) → produces R Q sleep.
Proof. intros HR w. by apply yields_sleep. Qed.

End CalculusUnit.

(** ** What each part of the engine adds to the history *)

Section Blocks.
Context `{Runtime} `{Env}.

Lemma scrape_produces (url : jsstring) :
  produces (fun _ => True) Spec.isFetch (Scraper.scrape url).
Proof.
  unfold Scraper.scrape.
  eapply (produces_bind (fun _ => True)); [by apply produces_liftO| |done].
  intros validatedUrl _.
  eapply (produces_bind (fun _ => True)); [by apply produces_call| |done].
  intros response _.
  eapply (produces_bind (fun _ => True)); [| |done].
  { destruct (negb _); [by apply produces_throw|by apply produces_ret]. }
  intros _ _.
  eapply (produces_bind (fun _ => True)); [| |done].
  { destruct (r_contentLength response) as [n|]; [destruct (_ <? n)|];
      first [by apply produces_throw|by apply produces_ret]. }
  intros _ _. by apply produces_ret.
Qed.

Lemma checkForSignal_produces (url : jsstring) (keywords : list jsstring)
      (lastHash : option jsstring) :
  produces (fun _ => True) Spec.isFetch
           (Scraper.checkForSignal url keywords lastHash).
Proof.
  unfold Scraper.checkForSignal.
  eapply (produces_bind (fun _ => True)); [apply scrape_produces| |done].
  intros [text hash] _.
  destruct (negb _); [by apply produces_ret|].
  destruct (_ =? _)%nat; by apply produces_ret.
Qed.

Lemma interpretReply_wellFormed (response : jsstring) :
  match Insforge.interpretReply response with
  | Ret a => Spec.wellFormedAnalysis a
  | Throw _ => True
  end.
Proof.
  unfold Insforge.interpretReply.
  destruct (Insforge.matchJsonObject response) as [jsonMatch|].
  - destruct (JSON_parse jsonMatch); [apply validateResult_wellFormed|done].
  - apply analysis_wellFormed; [cbn; lia|unfold Spec.threatLevels; in_list|cbn; lia].
Qed.

Lemma analyzeSignal_produces (content : jsstring) (keywords : list jsstring) :
  produces (fun a => match a with
                     | Ret x => Spec.wellFormedAnalysis x
                     | Throw _ => False
                     end)
           (fun a => Spec.isCompletion a ∧ Spec.sanitizedRequest a)
           (Insforge.analyzeSignal content keywords).
Proof.
  unfold Insforge.analyzeSignal.
  destruct (_ =? _)%nat.
  { apply produces_ret.
    apply analysis_wellFormed; [cbn; lia|unfold Spec.threatLevels; in_list|cbn; lia]. }
  eapply (produces_tryCatch
            (fun a => match a with
                      | Ret x => Spec.wellFormedAnalysis x
                      | Throw _ => True
                      end)).
  - eapply (produces_bind (fun _ => True)); [apply produces_call; [done|]| |done].
    + split; [done|]. split; [apply sanitizeInput_sanitized|].
      apply sanitizeKeywords_sanitized.
    + intros response _. apply produces_liftO. apply interpretReply_wellFormed.
  - done.
  - intros msg _. apply produces_ret.
    apply analysis_wellFormed; [cbn; lia|unfold Spec.threatLevels; in_list|cbn; lia].
Qed.

End Blocks.

Section Scans.
Context `{Runtime} `{Env}.

Lemma fetch_sanitized (a : Action) : Spec.isFetch a → Spec.sanitizedRequest a.
Proof. by destruct a. Qed.

Lemma unit_ret (x : unit) : Ret x = Ret tt.
Proof. by destruct x. Qed.

Lemma scanTarget_produces (userId : jsstring) (onSignal onNoise : nat)
      (target : Target) :
  produces (fun a => a = Ret tt) Spec.sanitizedRequest
           (Signal.scanTarget userId onSignal onNoise target).
Proof.
  unfold Signal.scanTarget, Signal.noise, Signal.notifyClient.
  eapply (produces_bind (fun a => a = Ret tt)).
  - eapply (produces_tryCatch (fun _ => True)).
    + eapply (produces_bind (fun _ => True)); [| |done].
      { eapply produces_mono;
          [apply checkForSignal_produces|done|apply fetch_sanitized]. }
      intros result _.
      eapply (produces_bind (fun _ => True)); [by apply produces_call| |done].
      intros _ _.
      destruct (0 <? _)%nat.
      * eapply (produces_bind (fun _ => True)); [| |done].
        { destruct (truthy _); [|by apply produces_ret].
          eapply (produces_bind (fun _ => True)); [| |done].
          - eapply produces_mono; [apply analyzeSignal_produces|done|by intros ? []].
          - intros a _. by apply produces_ret. }
        intros aiAnalysis _.
        eapply (produces_bind (fun _ => True)); [by apply produces_call| |done].
        intros signalId _. by apply produces_emit.
      * destruct (changed result); by apply produces_emit.
    + intros x _. apply unit_ret.
    + intros msg _. by apply produces_emit.
  - intros _ _. by apply produces_sleep.
  - done.
Qed.

Lemma scanTargets_produces (userId : jsstring) (onSignal onNoise : nat)
      (userTargets : list Target) :
  produces (fun a => a = Ret tt) Spec.sanitizedRequest
           (Signal.scanTargets userId onSignal onNoise userTargets).
Proof.
  induction userTargets as [|target rest IH]; cbn [Signal.scanTargets].
  - by apply produces_ret.
  - eapply produces_bind; [apply scanTarget_produces|by intros _ _|done].
Qed.

Lemma yields_unchanged {A : Type} (a : outcome A) (w : World)
      (P : outcome A → nat → list Action → Prop) :
  P a 0%nat [] → yields (fun w => (a, w)) w P.
Proof. intros HP. exists a, 0%nat, []. by rewrite advance_0. Qed.

Lemma produces_at {A : Type} (R : outcome A → Prop) (Q : Action → Prop)
      (m : M A) (w : World) :
  produces R Q m → yields m w (fun a _ l => R a ∧ Forall Q l).
Proof. auto. Qed.

Lemma intervalCallback_produces (c : Closure) :
  produces (fun a => a = Ret tt) Spec.sanitizedRequest (Signal.intervalCallback c).
Proof.
  intros w. unfold Signal.intervalCallback, Signal.randomNoise, Signal.noise.
  unfold yields. cbv beta.
  destruct (heap w !! c_session c) as [session|];
    [|by apply (yields_unchanged (Ret tt))].
  destruct (negb _); [by apply (yields_unchanged (Ret tt))|].
  apply (produces_at (fun a => a = Ret tt) Spec.sanitizedRequest).
  eapply (produces_tryCatch (fun _ => True)).
  - eapply (produces_bind (fun _ => True)); [by apply produces_call| |done].
    intros userTargets _. destruct (_ =? _)%nat; [by apply produces_emit|].
    eapply (produces_bind (fun _ => True)); [| |done].
    + eapply produces_mono; [apply scanTargets_produces|done..].
    + intros _ _. by apply produces_emit.
  - intros x _. apply unit_ret.
  - intros msg _. by apply produces_emit.
Qed.

Lemma timerFires_produces (handle : nat) :
  produces (fun a => a = Ret tt) Spec.sanitizedRequest (Signal.timerFires handle).
Proof.
  intros w. unfold Signal.timerFires, yields. cbv beta.
  destruct (timers w !! handle) as [c|];
    [apply intervalCallback_produces|by apply (yields_unchanged (Ret tt))].
Qed.

Lemma forceScanTarget_produces (userId : jsstring) (onSignal onNoise : nat)
      (target : Target) :
  produces (fun a => a = Ret tt) Spec.sanitizedRequest
           (Signal.forceScanTarget userId onSignal onNoise target).
Proof.
  unfold Signal.forceScanTarget, Signal.noise, Signal.notifyClient.
  eapply (produces_bind (fun a => a = Ret tt)); [by apply produces_emit| |done].
  intros _ _.
  eapply (produces_tryCatch (fun _ => True)).
  - eapply (produces_bind (fun _ => True)); [| |done].
    { eapply produces_mono;
        [apply checkForSignal_produces|done|apply fetch_sanitized]. }
    intros result _.
    eapply (produces_bind (fun _ => True)); [by apply produces_call| |done].
    intros _ _.
    destruct (0 <? _)%nat; [|by apply produces_emit].
    eapply (produces_bind (fun _ => True)); [| |done].
    { eapply produces_mono; [apply analyzeSignal_produces|done|by intros ? []]. }
    intros aiAnalysis _.
    eapply (produces_bind (fun _ => True)); [by apply produces_call| |done].
    intros signalId _. by apply produces_emit.
  - intros x _. apply unit_ret.
  - intros msg _. by apply produces_emit.
Qed.

Lemma forceScanTargets_produces (userId : jsstring) (onSignal onNoise : nat)
      (userTargets : list Target) :
  produces (fun a => a = Ret tt) Spec.sanitizedRequest
           (Signal.forceScanTargets userId onSignal onNoise userTargets).
Proof.
  induction userTargets as [|target rest IH]; cbn [Signal.forceScanTargets].
  - by apply produces_ret.
  - eapply produces_bind; [apply forceScanTarget_produces|by intros _ _|done].
Qed.

Lemma forceScan_produces (userId : jsstring) (onSignal onNoise : nat) :
  produces (fun a => a = Ret tt) Spec.sanitizedRequest
           (Signal.forceScan userId onSignal onNoise).
Proof.
  unfold Signal.forceScan, Signal.noise.
  eapply (produces_bind (fun a => a = Ret tt)); [by apply produces_emit| |done].
  intros _ _.
  eapply (produces_tryCatch (fun _ => True)).
  - eapply (produces_bind (fun _ => True)); [by apply produces_call| |done].
    intros userTargets _.
    eapply (produces_bind (fun _ => True)); [| |done].
    + eapply produces_mono; [apply forceScanTargets_produces|done..].
    + intros _ _. by apply produces_emit.
  - intros x _. apply unit_ret.
  - intros msg _. by apply produces_emit.
Qed.

End Scans.

(** ** Sessions *)

Section Sessions.
Context `{Runtime} `{Env}.

Lemma stopMonitoring_absent (userId : jsstring) (w : World) :
  activeSessions w !! userId = None →
  Signal.stopMonitoring userId w = (Ret tt, w).
Proof. intros E. unfold Signal.stopMonitoring. by rewrite E. Qed.

Lemma stopMonitoring_registry (userId : jsstring) (w : World) :
  activeSessions (Signal.stopMonitoring userId w).2
  = delete userId (activeSessions w).
Proof.
  unfold Signal.stopMonitoring.
  destruct (activeSessions w !! userId) as [session|] eqn:E.
  - by destruct (_ ≫= _).
  - cbn. by rewrite delete_id.
Qed.

Lemma stopMonitoring_gone (userId : jsstring) (w : World) :
  activeSessions (Signal.stopMonitoring userId w).2 !! userId = None.
Proof. rewrite stopMonitoring_registry. apply lookup_delete_eq. Qed.

Lemma stopMonitoring_again (userId : jsstring) (w : World) :
  Signal.stopMonitoring userId (Signal.stopMonitoring userId w).2
  = (Ret tt, (Signal.stopMonitoring userId w).2).
Proof. apply stopMonitoring_absent, stopMonitoring_gone. Qed.

(** C9. Stopping twice in a row: the second [stopMonitoring] changes
    nothing, neither in the registry nor anywhere else, and [getStatus]
    after a stop reports no active session and no session id. *)
Theorem stopMonitoring_idempotent (userId : jsstring) (w : World) :
  (Signal.stopMonitoring userId (Signal.stopMonitoring userId w).2).2
  = (Signal.stopMonitoring userId w).2
  ∧ activeSessions (Signal.stopMonitoring userId (Signal.stopMonitoring userId w).2).2
    = activeSessions (Signal.stopMonitoring userId w).2
  ∧ Signal.getStatus userId (Signal.stopMonitoring userId w).2 = (false, None).
Proof.
  split_and!.
  - by rewrite stopMonitoring_again.
  - by rewrite stopMonitoring_again.
  - unfold Signal.getStatus. by rewrite stopMonitoring_gone.
Qed.

Lemma consistent_initial : Spec.consistent Signal.initial.
Proof. by split_and!. Qed.

Lemma consistent_advance (n : nat) (l : list Action) (w : World) :
  Spec.consistent w → Spec.consistent (advance n l w).
Proof. done. Qed.

(** What [stopMonitoring] does to a registered session. *)
Lemma stopMonitoring_registered (userId : jsstring) (w : World)
      (session handle : nat) (id : jsstring) :
  activeSessions w !! userId = Some session →
  heap w !! session = Some (mkSession id userId (Some handle) true) →
  Signal.stopMonitoring userId w
  = (Ret tt,
     mkWorld (delete userId (activeSessions w))
             (<[session := mkSession id userId None false]> (heap w))
             (delete handle (timers w))
             (nextRef w) (nextTimer w) (S (steps w)) (trace w)).
Proof.
  intros Hreg Hheap. unfold Signal.stopMonitoring. rewrite Hreg.
  rewrite lookup_alter_eq, Hheap. cbn. do 3 f_equal.
  apply map_eq. intros i.
  destruct (decide (session = i)) as [<-|Hne].
  - by rewrite lookup_insert_eq, !lookup_alter_eq, Hheap.
  - by rewrite lookup_insert_ne, !lookup_alter_ne.
Qed.

Lemma consistent_stop (userId : jsstring) (w : World) :
  Spec.consistent w → Spec.consistent (Signal.stopMonitoring userId w).2.
Proof.
  intros (Hreg & Htim & Href & Hhan).
  destruct (activeSessions w !! userId) as [session|] eqn:E;
    [|by rewrite stopMonitoring_absent].
  destruct (Hreg _ _ E) as (id & handle & onSignal & onNoise & Hheap & Htimer).
  rewrite (stopMonitoring_registered _ _ _ _ _ E Hheap). cbn [snd].
  split_and!; cbn.
  - intros u session' Hu.
    apply lookup_delete_Some in Hu as [Hne Hu].
    destruct (Hreg _ _ Hu) as (id' & handle' & s' & n' & Hheap' & Htimer').
    assert (session ≠ session') by (intros <-; congruence).
    assert (handle ≠ handle') by (intros <-; congruence).
    exists id', handle', s', n'.
    by rewrite lookup_insert_ne, lookup_delete_ne by done.
  - intros handle' c Hc.
    apply lookup_delete_Some in Hc as [Hne Hc].
    destruct (Htim _ _ Hc) as [Hu Hi].
    assert (userId ≠ c_userId c).
    { intros Heq. rewrite <- Heq, E in Hu. injection Hu as Hs.
      rewrite <- Hs, Hheap in Hi. cbn in Hi. congruence. }
    assert (session ≠ c_session c).
    { intros Hs. rewrite <- Hs in Hu.
      destruct (Hreg _ _ Hu) as (? & ? & ? & ? & Hheap' & _). congruence. }
    by rewrite lookup_delete_ne, lookup_insert_ne by done.
  - intros session' Hle. rewrite lookup_insert_ne; [by apply Href|].
    intros <-. rewrite Href in Hheap; done.
  - intros handle' Hle. rewrite lookup_delete_ne; [by apply Hhan|].
    intros <-. rewrite Hhan in Htimer; done.
Qed.

(** What [startMonitoring] does when the user has no registered session
    once the stop is done. *)
Lemma startMonitoring_run (userId : jsstring) (onSignal onNoise : nat) (w : World) :
  let w1 := (Signal.stopMonitoring userId w).2 in
  Signal.startMonitoring userId onSignal onNoise w
  = (Ret (js "session_" ++ dec (dateNow (steps w1))),
     mkWorld (<[userId := nextRef w1]> (activeSessions w1))
             (<[nextRef w1 := mkSession (js "session_" ++ dec (dateNow (steps w1)))
                                        userId (Some (nextTimer w1)) true]> (heap w1))
             (<[nextTimer w1 := mkClosure (nextRef w1) userId onSignal onNoise]>
                (timers w1))
             (S (nextRef w1)) (S (nextTimer w1)) (steps w1) (trace w1)).
Proof.
  intros w1.
  assert (Hgone : activeSessions w1 !! userId = None)
    by (unfold w1; rewrite stopMonitoring_registry; apply lookup_delete_eq).
  unfold Signal.startMonitoring, mbind, M_bind.
  destruct (Signal.stopMonitoring userId w) as [[[]|msg] w'] eqn:Hstop.
  - subst w1. cbn [snd] in *. by rewrite Hgone.
  - exfalso. unfold Signal.stopMonitoring in Hstop.
    destruct (activeSessions w !! userId); [destruct (_ ≫= _)|]; done.
Qed.

Lemma consistent_start (userId : jsstring) (onSignal onNoise : nat) (w : World) :
  Spec.consistent w →
  Spec.consistent (Signal.startMonitoring userId onSignal onNoise w).2.
Proof.
  intros Hw. rewrite startMonitoring_run. cbn [snd].
  assert (Hgone : activeSessions (Signal.stopMonitoring userId w).2 !! userId = None)
    by (rewrite stopMonitoring_registry; apply lookup_delete_eq).
  apply (consistent_stop userId) in Hw.
  set (w1 := (Signal.stopMonitoring userId w).2) in *.
  destruct Hw as (Hreg & Htim & Href & Hhan).
  split_and!; cbn.
  - intros u session Hu.
    apply lookup_insert_Some in Hu as [[<- <-]|[Hne Hu]].
    + eexists _, _, _, _. by rewrite !lookup_insert_eq.
    + destruct (Hreg _ _ Hu) as (id' & handle' & s' & n' & Hheap' & Htimer').
      assert (nextRef w1 ≠ session)
        by (intros <-; rewrite Href in Hheap'; [done|lia]).
      assert (nextTimer w1 ≠ handle')
        by (intros <-; rewrite Hhan in Htimer'; [done|lia]).
      exists id', handle', s', n'. by rewrite !lookup_insert_ne by done.
  - intros handle c Hc.
    apply lookup_insert_Some in Hc as [[<- <-]|[Hne Hc]].
    + cbn. by rewrite !lookup_insert_eq.
    + destruct (Htim _ _ Hc) as [Hu Hi].
      assert (userId ≠ c_userId c) by (intros Heq; congruence).
      assert (nextRef w1 ≠ c_session c).
      { intros Heq. rewrite <- Heq, Href in Hi; [done|lia]. }
      by rewrite !lookup_insert_ne by done.
  - intros session Hle. rewrite lookup_insert_ne by lia. apply Href. lia.
  - intros handle Hle. rewrite lookup_insert_ne by lia. apply Hhan. lia.
Qed.

Lemma step_frame (handle : nat) (userId : jsstring) (onSignal onNoise : nat)
      (w : World) :
  (∃ n l, (Signal.timerFires handle w).2 = advance n l w
          ∧ Forall Spec.sanitizedRequest l)
  ∧ (∃ n l, (Signal.forceScan userId onSignal onNoise w).2 = advance n l w
            ∧ Forall Spec.sanitizedRequest l).
Proof.
  split.
  - destruct (timerFires_produces handle w) as (a & n & l & -> & _ & Hl). eauto.
  - destruct (forceScan_produces userId onSignal onNoise w)
      as (a & n & l & -> & _ & Hl). eauto.
Qed.

Lemma consistent_step (op : Signal.Op) (w : World) :
  Spec.consistent w → Spec.consistent (Signal.step w op).
Proof.
  intros Hw. destruct op as [u s n|u|h|u s n]; cbn [Signal.step].
  - by apply consistent_start.
  - by apply consistent_stop.
  - destruct (proj1 (step_frame h [] 0 0 w)) as (k & l & -> & _).
    by apply consistent_advance.
  - destruct (proj2 (step_frame 0 u s n w)) as (k & l & -> & _).
    by apply consistent_advance.
Qed.

Lemma consistent_run (ops : list Signal.Op) (w : World) :
  Spec.consistent w → Spec.consistent (Signal.run ops w).
Proof.
  revert w. induction ops as [|op ops IH]; intros w Hw; [done|].
  cbn. by apply IH, consistent_step.
Qed.

Lemma liveTimers_registered (w : World) (userId : jsstring) :
  Spec.consistent w →
  Signal.liveTimers w userId
  = match Spec.registeredTimer w userId with
    | Some handle => [handle]
    | None => []
    end.
Proof.
  intros (Hreg & Htim & _ & _). unfold Signal.liveTimers, Spec.registeredTimer.
  destruct (activeSessions w !! userId) as [session|] eqn:E; cbn.
  - destruct (Hreg _ _ E) as (id & handle & s & n & Hheap & Htimer).
    rewrite Hheap. cbn.
    replace (filter _ (timers w))
      with ({[handle := mkClosure session userId s n]} : gmap nat Closure).
    { by rewrite map_to_list_singleton. }
    apply map_eq. intros i. destruct (decide (handle = i)) as [<-|Hne].
    + rewrite lookup_singleton_eq. symmetry.
      by apply map_lookup_filter_Some.
    + rewrite lookup_singleton_ne by done. symmetry.
      apply map_lookup_filter_None. right. intros c Hc Hu. cbn in Hu.
      destruct (Htim _ _ Hc) as [Hr Hi]. rewrite Hu, E in Hr.
      injection Hr as Hr. rewrite <- Hr, Hheap in Hi. cbn in Hi. congruence.
  - replace (filter _ (timers w)) with (∅ : gmap nat Closure).
    { by rewrite map_to_list_empty. }
    symmetry. apply map_empty. intros i.
    apply map_lookup_filter_None. right. intros c Hc Hu. cbn in Hu.
    destruct (Htim _ _ Hc) as [Hr _]. congruence.
Qed.

End Sessions.

(** C4. Whatever operations ran, one after the other, since the module was
    loaded (starts, stops, timer firings, forced scans), a user has at most
    one pending timer, the one held by the user's registered session. A start
    for a user with a registered session first stops it: its timer is
    cleared, it leaves the registry and is marked not running, and no timer
    of the user is pending; the start then proceeds as a start from that
    stopped state and registers a new session object with a new timer, the
    only pending timer of the user. *)
Theorem one_live_session_per_owner `{Runtime} `{Env}
        (ops : list Signal.Op) (userId : jsstring) :
  (length (Signal.liveTimers (Signal.run ops Signal.initial) userId) ≤ 1)%nat
  ∧ (∀ handle,
       handle ∈ Signal.liveTimers (Signal.run ops Signal.initial) userId
       ↔ Spec.registeredTimer (Signal.run ops Signal.initial) userId = Some handle)
  ∧ (∀ session handle onSignal onNoise,
       activeSessions (Signal.run ops Signal.initial) !! userId = Some session →
       heap (Signal.run ops Signal.initial) !! session ≫= s_interval = Some handle →
       let w := Signal.run ops Signal.initial in
       let w1 := (Signal.stopMonitoring userId w).2 in
       let w2 := (Signal.startMonitoring userId onSignal onNoise w).2 in
       timers w1 !! handle = None
       ∧ activeSessions w1 !! userId = None
       ∧ s_isRunning <$> heap w1 !! session = Some false
       ∧ Signal.liveTimers w1 userId = []
       ∧ w2 = (Signal.startMonitoring userId onSignal onNoise w1).2
       ∧ activeSessions w2 !! userId = Some (nextRef w1)
       ∧ nextRef w1 ≠ session
       ∧ Signal.liveTimers w2 userId = [nextTimer w1]
       ∧ nextTimer w1 ≠ handle).
Proof.
  pose proof (consistent_run ops _ consistent_initial) as Hw.
  set (w := Signal.run ops Signal.initial) in *.
  rewrite (liveTimers_registered w userId Hw).
  split_and!.
  - destruct (Spec.registeredTimer w userId); cbn; lia.
  - intros handle. destruct (Spec.registeredTimer w userId) as [h|].
    + rewrite list_elem_of_singleton. split; congruence.
    + split; [by intros ?%elem_of_nil|done].
  - intros session handle onSignal onNoise Hreg Hint. cbv zeta.
    pose proof (consistent_stop userId w Hw) as Hw1.
    pose proof (consistent_start userId onSignal onNoise w Hw) as Hw2.
    destruct Hw as (Hr & Ht & Href & Hhan).
    destruct (Hr _ _ Hreg) as (id & handle' & s & n & Hheap & Htimer).
    rewrite Hheap in Hint. injection Hint as ->.
    assert (Hgone : activeSessions (Signal.stopMonitoring userId w).2 !! userId = None)
      by (rewrite stopMonitoring_registry; apply lookup_delete_eq).
    rewrite (liveTimers_registered _ userId Hw1), (liveTimers_registered _ userId Hw2).
    rewrite !startMonitoring_run.
    rewrite stopMonitoring_again. cbn [snd].
    set (w1 := (Signal.stopMonitoring userId w).2) in *.
    assert (Hw1eq : w1 = mkWorld (delete userId (activeSessions w))
                             (<[session := mkSession id userId None false]> (heap w))
                             (delete handle (timers w))
                             (nextRef w) (nextTimer w) (S (steps w)) (trace w))
      by (unfold w1; by rewrite (stopMonitoring_registered _ _ _ _ _ Hreg Hheap)).
    split_and!.
    + rewrite Hw1eq. apply lookup_delete_eq.
    + done.
    + rewrite Hw1eq. cbn. by rewrite lookup_insert_eq.
    + unfold Spec.registeredTimer. rewrite Hgone. reflexivity.
    + done.
    + cbn. by rewrite lookup_insert_eq.
    + rewrite Hw1eq. cbn. intros <-. rewrite Href in Hheap; [done|lia].
    + unfold Spec.registeredTimer. cbn [activeSessions heap snd].
      rewrite lookup_insert_eq. cbn [mbind option_bind].
      by rewrite lookup_insert_eq.
    + rewrite Hw1eq. cbn. intros <-. rewrite Hhan in Htimer; [done|lia].
Qed.

Lemma one_live_session_per_owner_witness :
  activeSessions Examples.aliceRunning !! js "alice" = Some 0%nat
  ∧ heap Examples.aliceRunning !! 0%nat ≫= s_interval = Some 0%nat
  ∧ timers (Signal.stopMonitoring (js "alice") Examples.aliceRunning).2 !! 0%nat = None
  ∧ Signal.liveTimers
      (Signal.startMonitoring (H0 := Examples.exampleEnv) (js "alice") 1 2
                              Examples.aliceRunning).2 (js "alice")
    = [1%nat].
Proof.
  destruct (proj2 (proj2 (one_live_session_per_owner
                            (H := Examples.exampleRuntime) (H0 := Examples.exampleEnv)
                            [Signal.OpStart (js "alice") 1 2] (js "alice")))
              0%nat 0%nat 1%nat 2%nat)
    as (Hcleared & _ & _ & _ & _ & _ & _ & Hlive & _);
    [vm_compute; reflexivity..|].
  split_and!; [vm_compute; reflexivity..|exact Hcleared|].
  etransitivity; [exact Hlive|]. vm_compute. reflexivity.
Defined.

(** ** The input of the summarizer *)

Section SummarizerInput.
Context `{Runtime} `{Env}.

Lemma stopMonitoring_trace (userId : jsstring) (w : World) :
  trace (Signal.stopMonitoring userId w).2 = trace w.
Proof.
  unfold Signal.stopMonitoring.
  destruct (activeSessions w !! userId); [by destruct (_ ≫= _)|done].
Qed.

Lemma step_sanitized (op : Signal.Op) (w : World) :
  Forall Spec.sanitizedRequest (trace w) →
  Forall Spec.sanitizedRequest (trace (Signal.step w op)).
Proof.
  intros Hw. destruct op as [u s n|u|h|u s n]; cbn [Signal.step].
  - rewrite startMonitoring_run. cbn. by rewrite stopMonitoring_trace.
  - by rewrite stopMonitoring_trace.
  - destruct (proj1 (step_frame h [] 0 0 w)) as (k & l & -> & Hl).
    cbn. by apply Forall_app.
  - destruct (proj2 (step_frame 0 u s n w)) as (k & l & -> & Hl).
    cbn. by apply Forall_app.
Qed.

End SummarizerInput.

(** The requests do occur: the callback of alice's timer asks the summarizer
    about the excerpt of her target, with the matched keyword. *)
Example summarizer_is_consulted :
  Spec.completions
    (trace (Signal.run (H := Examples.exampleRuntime) (H0 := Examples.exampleEnv)
                       [Signal.OpStart (js "alice") 1 2; Signal.OpTimer 0]
                       Signal.initial))
  = [([js "AI"], js "Breaking: AI-powered robot!")].
Proof. vm_compute. reflexivity. Qed.

(** ** The scan of one target, case by case *)

Section ScanCases.
Context `{Runtime} `{Env}.

Lemma run_bind {A B : Type} (m : M A) (f : A → M B) (w : World) :
  (m ≫= f) w = match m w with
               | (Ret a, w') => f a w'
               | (Throw msg, w') => (Throw msg, w')
               end.
Proof. reflexivity. Qed.

Lemma run_tryCatch {A : Type} (body : M A) (handler : jsstring → M A) (w : World) :
  tryCatch body handler w = match body w with
                            | (Ret a, w') => (Ret a, w')
                            | (Throw msg, w') => handler msg w'
                            end.
Proof. reflexivity. Qed.

Lemma pass_log (a : Action) (w : World) : pass (log a w) = advance 2 [a] w.
Proof. by rewrite log_advance, pass_advance, advance_advance. Qed.

Lemma scanTarget_throw (userId : jsstring) (onSignal onNoise : nat) (target : Target)
      (w w0 : World) (msg : jsstring) :
  Scraper.checkForSignal (t_url target) (t_keywords target) (t_last_hash target) w
  = (Throw msg, w0) →
  Signal.scanTarget userId onSignal onNoise target w
  = (Ret tt, advance 2 [AOnNoise onNoise (ScanError (displayName target) msg)] w0).
Proof.
  intros Hc. unfold Signal.scanTarget.
  rewrite run_bind, run_tryCatch, run_bind, Hc. cbv beta iota.
  unfold Signal.noise, emit, sleep. by rewrite pass_log.
Qed.

Lemma scanTarget_update_throw (userId : jsstring) (onSignal onNoise : nat)
      (target : Target) (w w0 : World) (result : ScanResult) (msg : jsstring) :
  Scraper.checkForSignal (t_url target) (t_keywords target) (t_last_hash target) w
  = (Ret result, w0) →
  updateLastCheck (steps w0) (t_id target) (hash result) = Throw msg →
  Signal.scanTarget userId onSignal onNoise target w
  = (Ret tt, advance 3 [AUpdateLastCheck (t_id target) (hash result);
                        AOnNoise onNoise (ScanError (displayName target) msg)] w0).
Proof.
  intros Hc Hu. unfold Signal.scanTarget.
  rewrite run_bind, run_tryCatch, run_bind, Hc. cbv beta iota.
  rewrite run_bind. unfold call at 1. rewrite Hu. cbv beta iota.
  unfold Signal.noise, emit, sleep.
  by rewrite !log_advance, pass_advance, !advance_advance.
Qed.

Lemma scanTarget_no_match (userId : jsstring) (onSignal onNoise : nat)
      (target : Target) (w w0 : World) (result : ScanResult) :
  Scraper.checkForSignal (t_url target) (t_keywords target) (t_last_hash target) w
  = (Ret result, w0) →
  updateLastCheck (steps w0) (t_id target) (hash result) = Ret tt →
  matches result = [] →
  Signal.scanTarget userId onSignal onNoise target w
  = (Ret tt, advance 3 [AUpdateLastCheck (t_id target) (hash result);
                        AOnNoise onNoise
                          (if changed result then ScanUpdated (displayName target)
                           else ScanNoChange (displayName target))] w0).
Proof.
  intros Hc Hu Hm. unfold Signal.scanTarget.
  rewrite run_bind, run_tryCatch, run_bind, Hc. cbv beta iota.
  rewrite run_bind. unfold call at 1. rewrite Hu, Hm. cbv beta iota.
  cbn [length Nat.ltb Nat.leb].
  unfold Signal.noise, emit, sleep.
  destruct (changed result); by rewrite !log_advance, pass_advance, !advance_advance.
Qed.

(** The analysis attached to a signal: none when the excerpt is empty, the
    result of [analyzeSignal] otherwise. *)
Lemma analysis_step (result : ScanResult) (w : World) :
  ∃ ai n l,
    (if truthy (JString (content result))
     then a ← Insforge.analyzeSignal (content result) (matches result); mret (Some a)
     else mret None) w = (Ret ai, advance n l w)
    ∧ Forall (fun a => Spec.isCompletion a ∧ Spec.sanitizedRequest a) l
    ∧ match ai with
      | Some a => Spec.wellFormedAnalysis a
      | None => True
      end.
Proof.
  destruct (truthy _).
  - destruct (analyzeSignal_produces (content result) (matches result) w)
      as ([a|msg] & n & l & Ha & Hwf & Hl); [|done].
    exists (Some a), n, l. rewrite run_bind, Ha. by split_and!.
  - exists None, 0%nat, []. by rewrite advance_0.
Qed.

Lemma scanTarget_match (userId : jsstring) (onSignal onNoise : nat)
      (target : Target) (w w0 : World) (result : ScanResult) :
  Scraper.checkForSignal (t_url target) (t_keywords target) (t_last_hash target) w
  = (Ret result, w0) →
  updateLastCheck (steps w0) (t_id target) (hash result) = Ret tt →
  matches result ≠ [] →
  ∃ ai n l k,
    Forall (fun a => Spec.isCompletion a ∧ Spec.sanitizedRequest a) l
    ∧ match ai with
      | Some a => Spec.wellFormedAnalysis a
      | None => True
      end
    ∧ Signal.scanTarget userId onSignal onNoise target w
      = (Ret tt,
         advance n
           ([AUpdateLastCheck (t_id target) (hash result)] ++ l
            ++ [ASignalsCreate (Signal.signalRecord target userId result ai);
                match signalsCreate k (Signal.signalRecord target userId result ai) with
                | Ret signalId =>
                    AOnSignal onSignal
                      (mkSignalEvent signalId (displayName target) (t_url target)
                                     (matches result) (content result) ai (isoNow (S k)))
                | Throw msg => AOnNoise onNoise (ScanError (displayName target) msg)
                end])
           w0).
Proof.
  intros Hc Hu Hm.
  destruct (analysis_step result (log (AUpdateLastCheck (t_id target) (hash result)) w0))
    as (ai & n & l & Hai & Hl & Hwf).
  exists ai, (3 + n + 1)%nat, l, (n + S (steps w0))%nat. split_and!; [done..|].
  unfold Signal.scanTarget.
  rewrite run_bind, run_tryCatch, run_bind, Hc. cbv beta iota.
  rewrite run_bind. unfold call at 1. rewrite Hu. cbv beta iota.
  replace (0 <? length (matches result))%nat with true
    by (destruct (matches result); done).
  rewrite run_bind, Hai. cbv beta iota.
  rewrite run_bind. unfold call at 1. cbn [steps advance log].
  destruct (signalsCreate _ _) as [signalId|msg]; cbv beta iota;
    unfold Signal.notifyClient, Signal.noise, emit, sleep;
    rewrite !log_advance, pass_advance, !advance_advance;
    cbn [steps advance]; f_equal; f_equal; try lia;
    rewrite <- ?app_assoc, ?app_nil_r; cbn [app]; repeat f_equal; lia.
Qed.

End ScanCases.

(** ** Reading the history of a scan *)

Section Histories.
Context `{Runtime} `{Env}.

Lemma fetches_quiet (l : list Action) :
  Forall Spec.isFetch l →
  Spec.emissions l = [] ∧ Spec.signalEvents l = [] ∧ Spec.noiseLines l = []
  ∧ Spec.fingerprintUpdates l = [] ∧ Spec.createdSignals l = []
  ∧ Spec.completions l = [] ∧ Spec.targetQueries l = [].
Proof.
  induction 1 as [|a l Ha _ IH]; [done|].
  destruct a; try done; cbn; exact IH.
Qed.

Lemma completions_quiet (l : list Action) :
  Forall (fun a => Spec.isCompletion a ∧ Spec.sanitizedRequest a) l →
  Spec.emissions l = [] ∧ Spec.signalEvents l = [] ∧ Spec.noiseLines l = []
  ∧ Spec.fingerprintUpdates l = [] ∧ Spec.createdSignals l = []
  ∧ Spec.targetQueries l = [].
Proof.
  induction 1 as [|a l [Ha _] _ IH]; [done|].
  destruct a; try done; cbn; exact IH.
Qed.

Lemma checkForSignal_frame (url : jsstring) (keywords : list jsstring)
      (lastHash : option jsstring) (w : World) :
  ∃ n l, (Scraper.checkForSignal url keywords lastHash w).2 = advance n l w
         ∧ Forall Spec.isFetch l.
Proof.
  destruct (checkForSignal_produces url keywords lastHash w)
    as (a & n & l & -> & _ & Hl). eauto.
Qed.

Lemma scanTarget_returns (userId : jsstring) (onSignal onNoise : nat)
      (target : Target) (w : World) :
  (Signal.scanTarget userId onSignal onNoise target w).1 = Ret tt.
Proof.
  by destruct (scanTarget_produces userId onSignal onNoise target w)
    as (a & n & l & -> & -> & _).
Qed.

Lemma scanTargets_cons (userId : jsstring) (onSignal onNoise : nat)
      (target : Target) (rest : list Target) (w : World) :
  Signal.scanTargets userId onSignal onNoise (target :: rest) w
  = Signal.scanTargets userId onSignal onNoise rest
      (Signal.scanTarget userId onSignal onNoise target w).2.
Proof.
  cbn [Signal.scanTargets]. rewrite run_bind.
  pose proof (scanTarget_returns userId onSignal onNoise target w) as Hr.
  destruct (Signal.scanTarget userId onSignal onNoise target w) as [a w'].
  cbn in Hr. by rewrite Hr.
Qed.

(** C10. When the fingerprint computed for the fetched text equals the one
    stored for the target, [checkForSignal] returns an outcome that is
    unchanged, with no matched keyword and an empty excerpt, whatever the
    text and the keywords are; the scan of that target then sends no request
    to the summarizer, creates no signal and emits no signal event. *)
Theorem unchanged_fingerprint_no_signal (userId : jsstring) (onSignal onNoise : nat)
        (target : Target) (w : World) (text fingerprint : jsstring) :
  (Scraper.scrape (t_url target) w).1 = Ret (text, fingerprint) →
  t_last_hash target = Some fingerprint →
  (Scraper.checkForSignal (t_url target) (t_keywords target) (t_last_hash target) w).1
  = Ret (mkScanResult false [] [] fingerprint)
  ∧ Spec.completions
      (Spec.since w (Signal.scanTarget userId onSignal onNoise target w).2) = []
  ∧ Spec.createdSignals
      (Spec.since w (Signal.scanTarget userId onSignal onNoise target w).2) = []
  ∧ Spec.signalEvents
      (Spec.since w (Signal.scanTarget userId onSignal onNoise target w).2) = [].
Proof.
  intros Hs Hlast.
  destruct (Scraper.scrape (t_url target) w) as [a w0] eqn:Hscrape.
  cbn in Hs. subst a.
  assert (Hc : Scraper.checkForSignal (t_url target) (t_keywords target)
                                      (t_last_hash target) w
               = (Ret (mkScanResult false [] [] fingerprint), w0)).
  { unfold Scraper.checkForSignal. rewrite run_bind, Hscrape, Hlast.
    by rewrite bool_decide_eq_true_2. }
  destruct (checkForSignal_frame (t_url target) (t_keywords target)
                                 (t_last_hash target) w) as (n0 & l0 & Hw0 & Hl0).
  rewrite Hc in Hw0. cbn [snd] in Hw0. subst w0.
  destruct (fetches_quiet l0 Hl0) as (_ & Hsig & _ & _ & Hcre & Hcom & _).
  rewrite Hc. split; [done|].
  destruct (updateLastCheck (steps (advance n0 l0 w)) (t_id target) fingerprint)
    as [[]|msg] eqn:Hu.
  - rewrite (scanTarget_no_match _ _ _ _ _ _ _ Hc Hu eq_refl).
    cbn [snd]. rewrite advance_advance, since_advance.
    unfold Spec.completions, Spec.createdSignals, Spec.signalEvents in *.
    rewrite !omap_app, Hsig, Hcre, Hcom. done.
  - rewrite (scanTarget_update_throw _ _ _ _ _ _ _ _ Hc Hu).
    cbn [snd]. rewrite advance_advance, since_advance.
    unfold Spec.completions, Spec.createdSignals, Spec.signalEvents in *.
    rewrite !omap_app, Hsig, Hcre, Hcom. done.
Qed.

End Histories.

Lemma unchanged_fingerprint_no_signal_witness :
  (Scraper.scrape (H := Examples.exampleRuntime) (H0 := Examples.exampleEnv)
                  (t_url Examples.carolTarget) Signal.initial).1
  = Ret (Examples.pageText, js "27")
  ∧ (Scraper.checkForSignal (H := Examples.exampleRuntime) (H0 := Examples.exampleEnv)
                            (t_url Examples.carolTarget) (t_keywords Examples.carolTarget)
                            (t_last_hash Examples.carolTarget) Signal.initial).1
    = Ret (mkScanResult false [] [] (js "27"))
  ∧ Spec.signalEvents
      (Spec.since Signal.initial
         (Signal.scanTarget (H := Examples.exampleRuntime) (H0 := Examples.exampleEnv)
                            (js "carol") 1 2 Examples.carolTarget Signal.initial).2)
    = [].
Proof.
  destruct (unchanged_fingerprint_no_signal
              (H := Examples.exampleRuntime) (H0 := Examples.exampleEnv)
              (js "carol") 1 2 Examples.carolTarget Signal.initial
              Examples.pageText (js "27"))
    as (Hresult & _ & _ & Hevents); [vm_compute; reflexivity..|].
  split_and!; [vm_compute; reflexivity|exact Hresult|exact Hevents].
Defined.

(** ** A cycle over the targets *)

Section Cycle.
Context `{Runtime} `{Env}.


Lemma scanTarget_frame (userId : jsstring) (onSignal onNoise : nat)
      (target : Target) (w : World) :
  ∃ n l, Signal.scanTarget userId onSignal onNoise target w = (Ret tt, advance n l w).
Proof.
  destruct (scanTarget_produces userId onSignal onNoise target w)
    as (a & n & l & -> & -> & _). eauto.
Qed.

Lemma scanTargets_frame (userId : jsstring) (onSignal onNoise : nat)
      (userTargets : list Target) (w : World) :
  ∃ n l, Signal.scanTargets userId onSignal onNoise userTargets w
         = (Ret tt, advance n l w).
Proof.
  destruct (scanTargets_produces userId onSignal onNoise userTargets w)
    as (a & n & l & -> & -> & _). eauto.
Qed.

(** The callback of a pending timer of a running session, when the user has
    targets. *)
Lemma timerFires_run (handle : nat) (c : Closure) (session : Session)
      (userTargets : list Target) (w : World) :
  timers w !! handle = Some c →
  heap w !! c_session c = Some session →
  s_isRunning session = true →
  getActiveByUser (steps w) (c_userId c) = Ret userTargets →
  userTargets ≠ [] →
  Signal.timerFires handle w
  = (Ret tt,
     let w' := (Signal.scanTargets (c_userId c) (c_onSignal c) (c_onNoise c) userTargets
                                   (log (AGetActive (c_userId c)) w)).2 in
     log (AOnNoise (c_onNoise c) (NoiseRandom (generateNoise (steps w')))) w').
Proof.
  intros Ht Hh Hr Hg Hne. unfold Signal.timerFires. rewrite Ht.
  unfold Signal.intervalCallback. rewrite Hh, Hr. cbn [negb].
  rewrite run_tryCatch, run_bind. unfold call at 1. rewrite Hg. cbv beta iota.
  replace (length userTargets =? 0)%nat with false by (by destruct userTargets).
  rewrite run_bind.
  destruct (scanTargets_frame (c_userId c) (c_onSignal c) (c_onNoise c) userTargets
                              (log (AGetActive (c_userId c)) w)) as (n & l & ->).
  reflexivity.
Qed.


End Cycle.



(** ** A signal *)

Section SignalScenario.
Context `{Runtime} `{Env}.

Lemma scrape_frame (url : jsstring) (w : World) :
  ∃ n l, (Scraper.scrape url w).2 = advance n l w ∧ Forall Spec.isFetch l.
Proof.
  destruct (scrape_produces url w) as (a & n & l & -> & _ & Hl). eauto.
Qed.

(** [checkForSignal] on a page whose fingerprint is new and whose text
    contains one of the keywords. *)
Lemma checkForSignal_changed_match (url : jsstring) (keywords : list jsstring)
      (lastHash : option jsstring) (w w0 : World) (text fingerprint keyword : jsstring) :
  Scraper.scrape url w = (Ret (text, fingerprint), w0) →
  lastHash ≠ Some fingerprint →
  keyword ∈ keywords →
  includes (toLowerCase text) (toLowerCase keyword) = true →
  ∃ result,
    Scraper.checkForSignal url keywords lastHash w = (Ret result, w0)
    ∧ changed result = true ∧ hash result = fingerprint
    ∧ keyword ∈ matches result ∧ matches result ≠ [].
Proof.
  intros Hs Hlast Hk Hinc.
  set (found := List.filter (fun k => includes (toLowerCase text) (toLowerCase k)) keywords).
  assert (Hfound : keyword ∈ found).
  { apply list_elem_of_In, filter_In. split; [by apply list_elem_of_In|done]. }
  assert (Hne : found ≠ []) by (intros Heq; rewrite Heq in Hfound; by apply elem_of_nil in Hfound).
  exists (mkScanResult true found (Scraper.extractRelevantContent text found) fingerprint).
  split_and!; try done.
  unfold Scraper.checkForSignal. rewrite run_bind, Hs. cbv beta iota.
  rewrite bool_decide_eq_false_2 by done. cbn [negb]. fold found.
  by destruct found.
Qed.

End SignalScenario.

(** C5. A timer of a running session fires for a user with one active target;
    the text fetched for it contains one of its keywords and the fingerprint
    computed differs from the stored one; the storage answers its calls. Then
    the callback emits exactly one signal event, for that target and with
    that keyword, emits no "content updated" line, and the storage receives
    exactly one fingerprint update, of that target with the new fingerprint,
    and exactly one signal to create, of that target. *)
Theorem matching_target_signals_once `{Runtime} `{Env}
        (c : Closure) (handle : nat) (session : Session) (target : Target) (w : World)
        (text fingerprint keyword : jsstring) :
  timers w !! handle = Some c →
  heap w !! c_session c = Some session →
  s_isRunning session = true →
  getActiveByUser (steps w) (c_userId c) = Ret [target] →
  (Scraper.scrape (t_url target) (log (AGetActive (c_userId c)) w)).1
  = Ret (text, fingerprint) →
  t_last_hash target ≠ Some fingerprint →
  keyword ∈ t_keywords target →
  includes (toLowerCase text) (toLowerCase keyword) = true →
  (∀ k id h, updateLastCheck k id h = Ret tt) →
  (∀ k r, ∃ signalId, signalsCreate k r = Ret signalId) →
  (∃ e, Spec.signalEvents (Spec.since w (Signal.timerFires handle w).2) = [e]
        ∧ ev_url e = t_url target ∧ ev_targetName e = displayName target
        ∧ keyword ∈ ev_keywords e)
  ∧ Spec.contentUpdatedLines
      (Spec.noiseLines (Spec.since w (Signal.timerFires handle w).2)) = []
  ∧ Spec.fingerprintUpdates (Spec.since w (Signal.timerFires handle w).2)
    = [(t_id target, fingerprint)]
  ∧ (∃ r, Spec.createdSignals (Spec.since w (Signal.timerFires handle w).2) = [r]
          ∧ target_id r = t_id target ∧ user_id r = c_userId c
          ∧ keyword ∈ matched_keywords r).
Proof.
  intros Ht Hh Hr Hg Hs Hlast Hk Hinc Hupd Hcre.
  set (w1 := log (AGetActive (c_userId c)) w) in *.
  destruct (scrape_frame (t_url target) w1) as (n0 & l0 & Hw0 & Hl0).
  destruct (fetches_quiet l0 Hl0) as (_ & Hsig0 & Hnoi0 & Hfp0 & Hcre0 & _).
  destruct (Scraper.scrape (t_url target) w1) as [a w0] eqn:Hscrape.
  cbn [fst snd] in *. subst a w0.
  destruct (checkForSignal_changed_match _ (t_keywords target) _ _ _ _ _ _
              Hscrape Hlast Hk Hinc) as (result & Hc & Hch & Hhash & Hin & Hne).
  destruct (scanTarget_match (c_userId c) (c_onSignal c) (c_onNoise c) _ _ _ _
              Hc (Hupd _ _ _) Hne) as (ai & n & l & k & Hl & _ & Hscan).
  destruct (completions_quiet l Hl) as (_ & Hsig & Hnoi & Hfp & Hcr & _).
  destruct (Hcre k (Signal.signalRecord target (c_userId c) result ai))
    as [signalId Hid].
  rewrite Hid in Hscan.
  rewrite (timerFires_run _ _ _ _ _ Ht Hh Hr Hg) by done. cbn [snd]. cbv zeta.
  rewrite scanTargets_cons. cbn [Signal.scanTargets]. fold w1.
  rewrite Hscan. cbn [snd mret M_ret].
  unfold w1. rewrite !log_advance, !advance_advance, since_advance.
  unfold Spec.signalEvents, Spec.noiseLines, Spec.fingerprintUpdates,
    Spec.createdSignals in *.
  rewrite !omap_app, ?Hsig0, ?Hnoi0, ?Hfp0, ?Hcre0, ?Hsig, ?Hnoi, ?Hfp, ?Hcr.
  cbn. split_and!.
  - eexists. split_and!; [reflexivity|done..].
  - done.
  - by rewrite Hhash.
  - eexists. split_and!; [reflexivity|done..].
Qed.

Lemma matching_target_signals_once_witness :
  timers Examples.aliceRunning !! 0%nat = Some (mkClosure 0 (js "alice") 1 2)
  ∧ includes (asciiLower Examples.pageText) (asciiLower (js "AI")) = true
  ∧ Spec.fingerprintUpdates
      (Spec.since Examples.aliceRunning
         (Signal.timerFires (H := Examples.exampleRuntime) (H0 := Examples.exampleEnv)
                            0 Examples.aliceRunning).2)
    = [(js "t-1", js "27")]
  ∧ Spec.contentUpdatedLines
      (Spec.noiseLines
         (Spec.since Examples.aliceRunning
            (Signal.timerFires (H := Examples.exampleRuntime) (H0 := Examples.exampleEnv)
                               0 Examples.aliceRunning).2))
    = [].
Proof.
  destruct (matching_target_signals_once
              (H := Examples.exampleRuntime) (H0 := Examples.exampleEnv)
              (mkClosure 0 (js "alice") 1 2) 0%nat (Examples.firstSession (js "alice"))
              Examples.aliceTarget Examples.aliceRunning
              Examples.pageText (js "27") (js "AI"))
    as (_ & Hnoise & Hupdates & _).
  - vm_compute. reflexivity.
  - vm_compute. reflexivity.
  - reflexivity.
  - vm_compute. reflexivity.
  - vm_compute. reflexivity.
  - discriminate.
  - apply list_elem_of_here.
  - vm_compute. reflexivity.
  - intros k id h. reflexivity.
  - intros k r. exists (js "sig-1"). reflexivity.
  - split_and!; [vm_compute; reflexivity..|exact Hupdates|exact Hnoise].
Defined.

(** ** Malformed replies of the summarizer *)

Section MalformedReplies.
Context `{Runtime} `{Env}.



End MalformedReplies.




(** ** Forced scans *)

Section ForcedScan.
Context `{Runtime} `{Env}.







End ForcedScan.

(* ===================================================================== *)
(** * Further properties of the code                                       *)
(* ===================================================================== *)

(** ** The URL guard, beyond the refused hosts *)

Section GuardBoundary.
Context `{Runtime}.

Lemma splitDot_dotted (a b c d : N) :
  (a < 256)%N → (b < 256)%N → (c < 256)%N → (d < 256)%N →
  splitDot (Spec.dotted a b c d) = [dec a; dec b; dec c; dec d].
Proof.
  intros Ha Hb Hc Hd.
  destruct (dec_octet a Ha) as (Ha1 & _).
  destruct (dec_octet b Hb) as (Hb1 & _).
  destruct (dec_octet c Hc) as (Hc1 & _).
  destruct (dec_octet d Hd) as (Hd1 & _).
  unfold Spec.dotted. change (js ".") with [46%N]. cbn [app].
  by rewrite !splitDot_app, splitDot_nodot.
Qed.

Lemma dec_octet_inj (n : N) (digits : jsstring) :
  (n < 256)%N → dec n = digits → n = digitsToN digits.
Proof. intros Hn <-. by destruct (dec_octet n Hn) as (_ & _ & ->). Qed.

(** A dotted address is in none of the literal lists, apart from the two
    addresses listed as localhost. *)
Lemma dotted_listed (a b c d : N) :
  (a < 256)%N → (b < 256)%N → (c < 256)%N → (d < 256)%N →
  (Spec.dotted a b c d ∈ Scraper.localhostPatterns →
   (a = 127 ∧ b = 0 ∧ c = 0 ∧ d = 1)%N ∨ (a = 0 ∧ b = 0 ∧ c = 0 ∧ d = 0)%N)
  ∧ Spec.dotted a b c d ∉ Scraper.blockedHosts.
Proof.
  intros Ha Hb Hc Hd.
  pose proof (splitDot_dotted a b c d Ha Hb Hc Hd) as Hsplit.
  assert (Hlit : ∀ lit, Spec.dotted a b c d = lit →
                        splitDot lit = [dec a; dec b; dec c; dec d])
    by (by intros lit <-).
  split.
  - unfold Scraper.localhostPatterns. intros Hin.
    repeat (apply elem_of_cons in Hin as [Hin|Hin];
            [apply Hlit in Hin; vm_compute in Hin|]).
    + discriminate.
    + injection Hin as H1 H2 H3 H4. left.
      symmetry in H1, H2, H3, H4.
      apply (dec_octet_inj _ _ Ha) in H1. apply (dec_octet_inj _ _ Hb) in H2.
      apply (dec_octet_inj _ _ Hc) in H3. apply (dec_octet_inj _ _ Hd) in H4.
      by subst.
    + injection Hin as H1 H2 H3 H4. right.
      symmetry in H1, H2, H3, H4.
      apply (dec_octet_inj _ _ Ha) in H1. apply (dec_octet_inj _ _ Hb) in H2.
      apply (dec_octet_inj _ _ Hc) in H3. apply (dec_octet_inj _ _ Hd) in H4.
      by subst.
    + discriminate.
    + discriminate.
    + by apply elem_of_nil in Hin.
  - unfold Scraper.blockedHosts. intros Hin.
    repeat (apply elem_of_cons in Hin as [Hin|Hin];
            [apply Hlit in Hin; vm_compute in Hin; discriminate|]).
    by apply elem_of_nil in Hin.
Qed.

End GuardBoundary.

(** X1. For an http(s) URL whose lower-cased host is a dotted IPv4 literal,
    [validateUrl] returns the parsed [href] exactly when the first two octets
    are outside the five refused ranges and the address is not 0.0.0.0; so
    11.0.0.0, 172.15.0.0, 172.32.0.0, 192.167.0.0 and 128.0.0.0 pass. *)
Theorem validateUrl_ipv4_boundary `{Runtime} (urlString : jsstring) (url : URL)
        (a b c d : N) :
  URL_parse urlString = Some url →
  protocol url ∈ [js "http:"; js "https:"] →
  toLowerCase (hostname url) = Spec.dotted a b c d →
  (a < 256)%N → (b < 256)%N → (c < 256)%N → (d < 256)%N →
  Scraper.validateUrl urlString = Ret (href url)
  ↔ Spec.inBlockedRange a b = false ∧ ¬ (a = 0 ∧ b = 0 ∧ c = 0 ∧ d = 0)%N.
Proof.
  intros Hparse Hp Hh Ha Hb Hc Hd.
  destruct (dotted_listed a b c d Ha Hb Hc Hd) as [Hlocal Hmeta].
  unfold Scraper.validateUrl, arrayIncludes. rewrite Hparse, Hh.
  rewrite (bool_decide_eq_true_2 _ Hp). cbn [negb throwIf mbind outcome_bind].
  rewrite (ipRegex_dotted a b c d Ha Hb Hc Hd).
  rewrite (bool_decide_eq_false_2 _ Hmeta).
  unfold Spec.inBlockedRange.
  destruct (bool_decide (Spec.dotted a b c d ∈ Scraper.localhostPatterns)) eqn:El.
  - apply bool_decide_eq_true in El.
    cbn [throwIf mbind outcome_bind]. split; [done|]. intros [Hr Hz].
    destruct (Hlocal El) as [(-> & _)|Hzero]; [done|by destruct Hz].
  - apply bool_decide_eq_false in El.
    assert (Hz : ¬ (a = 0 ∧ b = 0 ∧ c = 0 ∧ d = 0)%N).
    { intros (-> & -> & -> & ->). apply El. unfold Scraper.localhostPatterns.
      change (Spec.dotted 0 0 0 0) with (js "0.0.0.0"). in_list. }
    cbn [throwIf mbind outcome_bind].
    destruct (a =? 10)%N, ((a =? 172) && (16 <=? b) && (b <=? 31))%N,
      ((a =? 192) && (b =? 168))%N, ((a =? 169) && (b =? 254))%N, (a =? 127)%N;
      cbn; split; try done; by intros [? ?].
Qed.

Lemma validateUrl_ipv4_boundary_witness :
  Scraper.validateUrl (H := Examples.exampleRuntime) (js "http://172.20.1.9/admin")
  = Ret (js "http://172.20.1.9/admin")
  ↔ Spec.inBlockedRange 172 20 = false ∧ ¬ (172 = 0 ∧ 20 = 0 ∧ 1 = 0 ∧ 9 = 0)%N.
Proof.
  apply (validateUrl_ipv4_boundary
           (H := Examples.exampleRuntime) (js "http://172.20.1.9/admin")
           (mkURL (js "http:") (js "172.20.1.9") (js "http://172.20.1.9/admin"))
           172 20 1 9).
  - vm_compute. reflexivity.
  - apply (bool_decide_eq_true_1 _). vm_compute. reflexivity.
  - vm_compute. reflexivity.
  - lia.
  - lia.
  - lia.
  - lia.
Defined.

Section GuardNames.
Context `{Runtime}.

Lemma splitDot_nonempty (s : jsstring) : splitDot s ≠ [].
Proof.
  destruct s as [|c r]; [done|]. cbn.
  destruct (c =? 46)%N; [done|]. by destruct (splitDot r).
Qed.

Lemma splitDot_part (s : jsstring) (ch : N) :
  ch ∈ s → ch ≠ 46%N → ∃ p, p ∈ splitDot s ∧ ch ∈ p.
Proof.
  intros Hin Hch. induction s as [|c r IH]; [by apply elem_of_nil in Hin|].
  cbn. apply elem_of_cons in Hin as [->|Hin].
  - destruct (N.eqb_spec c 46) as [->|_]; [done|].
    pose proof (splitDot_nonempty r).
    destruct (splitDot r) as [|p ps]; [done|].
    exists (c :: p). split; apply list_elem_of_here.
  - destruct (IH Hin) as (p & Hp & Hc).
    destruct (c =? 46)%N.
    + exists p. split; [by apply list_elem_of_further|done].
    + destruct (splitDot r) as [|q qs]; [by apply elem_of_nil in Hp|].
      apply elem_of_cons in Hp as [->|Hp].
      * exists (c :: q). split; [apply list_elem_of_here|by apply list_elem_of_further].
      * exists p. split; [by apply list_elem_of_further|done].
Qed.

Lemma ipRegex_not_numeric (hostname : jsstring) (ch : N) :
  ch ∈ hostname → isDigit ch = false → ch ≠ 46%N →
  Scraper.ipRegex hostname = None.
Proof.
  intros Hin Hd Hch.
  destruct (splitDot_part hostname ch Hin Hch) as (p & Hp & Hc).
  assert (Hbad : Scraper.isOctetDigits p = false).
  { unfold Scraper.isOctetDigits.
    replace (forallb isDigit p) with false; [done|]. symmetry.
    apply not_true_is_false. intros Hall.
    rewrite forallb_forall in Hall.
    specialize (Hall ch (proj1 (list_elem_of_In _ _) Hc)). congruence. }
  unfold Scraper.ipRegex.
  destruct (splitDot hostname) as [|p1 [|p2 [|p3 [|p4 [|p5 ps]]]]]; try done.
  replace (forallb Scraper.isOctetDigits [p1; p2; p3; p4]) with false; [done|].
  symmetry. cbn [forallb].
  repeat (apply elem_of_cons in Hp as [->|Hp];
          [rewrite Hbad; by rewrite ?andb_false_r|]).
  by apply elem_of_nil in Hp.
Qed.

End GuardNames.

(** X2. An http(s) URL whose lower-cased host name has a character that is
    neither a digit nor a dot, and is none of the listed localhost and
    metadata names, passes the guard: [validateUrl] returns the parsed
    [href]. *)
Theorem validateUrl_accepts_names `{Runtime} (urlString : jsstring) (url : URL)
        (ch : N) :
  URL_parse urlString = Some url →
  protocol url ∈ [js "http:"; js "https:"] →
  toLowerCase (hostname url) ∉ Scraper.localhostPatterns →
  toLowerCase (hostname url) ∉ Scraper.blockedHosts →
  ch ∈ toLowerCase (hostname url) → isDigit ch = false → ch ≠ 46%N →
  Scraper.validateUrl urlString = Ret (href url).
Proof.
  intros Hparse Hp Hlocal Hmeta Hin Hd Hch.
  unfold Scraper.validateUrl, arrayIncludes. rewrite Hparse.
  rewrite (bool_decide_eq_true_2 _ Hp), (bool_decide_eq_false_2 _ Hlocal),
    (bool_decide_eq_false_2 _ Hmeta), (ipRegex_not_numeric _ ch Hin Hd Hch).
  reflexivity.
Qed.

Lemma validateUrl_accepts_names_witness :
  Scraper.validateUrl (H := Examples.exampleRuntime) (js "http://example.com:8080/api")
  = Ret (js "http://example.com:8080/api").
Proof.
  apply (validateUrl_accepts_names
           (H := Examples.exampleRuntime) (js "http://example.com:8080/api")
           (mkURL (js "http:") (js "example.com") (js "http://example.com:8080/api"))
           101).
  - vm_compute. reflexivity.
  - apply (bool_decide_eq_true_1 _). vm_compute. reflexivity.
  - apply (bool_decide_eq_false_1 _). vm_compute. reflexivity.
  - apply (bool_decide_eq_false_1 _). vm_compute. reflexivity.
  - apply (bool_decide_eq_true_1 _). vm_compute. reflexivity.
  - reflexivity.
  - discriminate.
Defined.

(** ** The fetched text *)

Section FetchedText.
Context `{Runtime} `{Env}.

Lemma collapseWhitespace_spaced (s : jsstring) :
  (∀ inRun, Vocabulary.singleSpaced (Scraper.collapseWhitespace inRun s) = true)
  ∧ Vocabulary.startsClean (Scraper.collapseWhitespace true s) = true.
Proof.
  induction s as [|c r [IH1 IH2]]; [done|]. split.
  - intros inRun. cbn [Scraper.collapseWhitespace].
    destruct (isWhiteSpace c) eqn:Ec.
    + destruct inRun; [apply IH1|].
      cbn [Vocabulary.singleSpaced]. rewrite IH1, andb_true_r.
      destruct (Scraper.collapseWhitespace true r) as [|c2 r2]; [done|].
      cbn in IH2. apply negb_true_iff in IH2. by rewrite IH2, andb_false_r.
    + cbn [Vocabulary.singleSpaced]. rewrite IH1, andb_true_r, Ec.
      by destruct (Scraper.collapseWhitespace false r).
  - cbn [Scraper.collapseWhitespace].
    destruct (isWhiteSpace c) eqn:Ec; [done|]. cbn. by rewrite Ec.
Qed.

Lemma collapseWhitespace_onlySpaces (inRun : bool) (s : jsstring) :
  Vocabulary.onlySpaces (Scraper.collapseWhitespace inRun s).
Proof.
  unfold Vocabulary.onlySpaces. revert inRun.
  induction s as [|c r IH]; intros inRun; [constructor|].
  cbn [Scraper.collapseWhitespace].
  destruct (isWhiteSpace c) eqn:Ec.
  - destruct inRun; [apply IH|]. constructor; [done|apply IH].
  - constructor; [congruence|apply IH].
Qed.

Lemma singleSpaced_suffix (pre s : jsstring) :
  Vocabulary.singleSpaced (pre ++ s) = true → Vocabulary.singleSpaced s = true.
Proof.
  induction pre as [|c pre IH]; [done|]. cbn [app Vocabulary.singleSpaced].
  intros Hs. apply andb_true_iff in Hs as [_ Hs]. by apply IH.
Qed.

Lemma singleSpaced_prefix (s post : jsstring) :
  Vocabulary.singleSpaced (s ++ post) = true → Vocabulary.singleSpaced s = true.
Proof.
  induction s as [|c s IH]; [done|]. cbn [app Vocabulary.singleSpaced].
  intros Hs. apply andb_true_iff in Hs as [Hc Hs]. rewrite (IH Hs), andb_true_r.
  destruct s as [|c2 s]; [done|]. exact Hc.
Qed.

Lemma trimStart_suffix (s : jsstring) : ∃ pre, s = pre ++ trimStart s.
Proof.
  induction s as [|c r [pre IH]]; [by exists []|]. cbn.
  destruct (isWhiteSpace c); [|by exists []].
  exists (c :: pre). cbn. by rewrite <- IH.
Qed.

Lemma trimEnd_prefix (s : jsstring) : ∃ post, s = trimEnd s ++ post.
Proof.
  unfold trimEnd. destruct (trimStart_suffix (rev s)) as [pre Hpre].
  exists (rev pre). rewrite <- rev_app_distr, <- Hpre. by rewrite rev_involutive.
Qed.

Lemma trimStart_clean (s : jsstring) : Vocabulary.startsClean (trimStart s) = true.
Proof.
  induction s as [|c r IH]; [done|]. cbn.
  destruct (isWhiteSpace c) eqn:Ec; [done|]. cbn. by rewrite Ec.
Qed.

Lemma trimStart_snoc (l : jsstring) (c : N) :
  isWhiteSpace c = false → trimStart (l ++ [c]) = trimStart l ++ [c].
Proof.
  intros Hc. induction l as [|x l IH]; cbn; [by rewrite Hc|].
  by destruct (isWhiteSpace x).
Qed.

Lemma trimEnd_clean (s : jsstring) :
  Vocabulary.startsClean s = true → Vocabulary.startsClean (trimEnd s) = true.
Proof.
  destruct s as [|c r]; [done|]. cbn [Vocabulary.startsClean].
  intros Hc. apply negb_true_iff in Hc. unfold trimEnd. cbn [rev].
  rewrite (trimStart_snoc _ _ Hc), rev_app_distr. cbn. by rewrite Hc.
Qed.

Lemma take_clean (n : nat) (s : jsstring) :
  Vocabulary.startsClean s = true → Vocabulary.startsClean (take n s) = true.
Proof. by destruct s, n. Qed.

(** The text kept from a page body. *)
Lemma extracted_text_normal (body : jsstring) :
  let text := substring (trim (Scraper.collapseWhitespace false body))
                        0 Scraper.MAX_TEXT_LENGTH in
  len text ≤ 50000 ∧ Vocabulary.onlySpaces text
  ∧ Vocabulary.singleSpaced text = true ∧ Vocabulary.startsClean text = true.
Proof.
  cbv zeta. set (collapsed := Scraper.collapseWhitespace false body).
  split_and!.
  - pose proof (substring_prefix_length (trim collapsed) 50000). unfold len.
    change Scraper.MAX_TEXT_LENGTH with 50000. lia.
  - apply substring_Forall, trim_Forall, collapseWhitespace_onlySpaces.
  - rewrite substring_prefix by done.
    apply (singleSpaced_prefix _ (drop (Z.to_nat Scraper.MAX_TEXT_LENGTH) (trim collapsed))).
    rewrite take_drop. unfold trim.
    destruct (trimEnd_prefix (trimStart collapsed)) as [post Hpost].
    apply (singleSpaced_prefix _ post). rewrite <- Hpost.
    destruct (trimStart_suffix collapsed) as [pre Hpre].
    apply (singleSpaced_suffix pre). rewrite <- Hpre.
    apply collapseWhitespace_spaced.
  - rewrite substring_prefix by done.
    apply take_clean, trimEnd_clean, trimStart_clean.
Qed.

(** [scrape], check by check. *)
Lemma scrape_run (url : jsstring) (w : World) :
  Scraper.scrape url w
  = match Scraper.validateUrl url with
    | Throw msg => (Throw msg, w)
    | Ret validatedUrl =>
        match fetchPage (steps w) validatedUrl with
        | Throw msg => (Throw msg, log (AFetch validatedUrl) w)
        | Ret response =>
            if negb (r_ok response)
            then (Throw (js "HTTP " ++ dec (r_status response) ++ js ": "
                         ++ r_statusText response), log (AFetch validatedUrl) w)
            else if match r_contentLength response with
                    | Some n => Scraper.MAX_CONTENT_LENGTH <? n
                    | None => false
                    end
                 then (Throw (js "Content too large"), log (AFetch validatedUrl) w)
                 else
                   let text :=
                     substring (trim (Scraper.collapseWhitespace false (r_bodyText response)))
                               0 Scraper.MAX_TEXT_LENGTH in
                   (Ret (text, sha256hex text), log (AFetch validatedUrl) w)
        end
    end.
Proof.
  unfold Scraper.scrape. rewrite run_bind. unfold liftO at 1.
  destruct (Scraper.validateUrl url) as [validatedUrl|msg]; [|done].
  rewrite run_bind. unfold call at 1.
  destruct (fetchPage (steps w) validatedUrl) as [response|msg]; [|done].
  rewrite run_bind.
  destruct (negb (r_ok response)); [done|]. cbn [mret M_ret].
  rewrite run_bind.
  destruct (r_contentLength response) as [n|]; [|done].
  by destruct (Scraper.MAX_CONTENT_LENGTH <? n).
Qed.

End FetchedText.

(** X3. The text returned by [scrape] is at most 50000 code units long, its
    only white space is single spaces (never two in a row) and it does not
    begin with white space; the fingerprint returned with it is the digest
    of that text. *)
Theorem scrape_text_normalized `{Runtime} `{Env} (url : jsstring) (w : World)
        (text fingerprint : jsstring) :
  (Scraper.scrape url w).1 = Ret (text, fingerprint) →
  len text ≤ 50000
  ∧ Vocabulary.onlySpaces text
  ∧ Vocabulary.singleSpaced text = true
  ∧ Vocabulary.startsClean text = true
  ∧ fingerprint = sha256hex text.
Proof.
  rewrite scrape_run.
  destruct (Scraper.validateUrl url) as [validatedUrl|msg]; [|done].
  destruct (fetchPage (steps w) validatedUrl) as [response|msg]; [|done].
  destruct (negb (r_ok response)); [done|].
  destruct (match r_contentLength response with Some _ => _ | None => _ end); [done|].
  cbv zeta. cbn [fst]. intros [= <- <-].
  pose proof (extracted_text_normal (r_bodyText response)) as (H1 & H2 & H3 & H4).
  by split_and!.
Qed.

Lemma scrape_text_normalized_witness :
  (Scraper.scrape (H := Examples.exampleRuntime) (H0 := Examples.exampleEnv)
                  (js "https://example.com") Signal.initial).1
  = Ret (Examples.pageText, js "27")
  ∧ Vocabulary.singleSpaced Examples.pageText = true
  ∧ Vocabulary.startsClean Examples.pageText = true.
Proof.
  destruct (scrape_text_normalized
              (H := Examples.exampleRuntime) (H0 := Examples.exampleEnv)
              (js "https://example.com") Signal.initial Examples.pageText (js "27"))
    as (_ & _ & Hspaced & Hclean & _); [vm_compute; reflexivity|].
  split_and!; [vm_compute; reflexivity|exact Hspaced|exact Hclean].
Defined.

(** X4. [scrape] returns exactly when the guard accepts the URL, the fetch
    resolves with an ok status and the declared content length, if any, is at
    most 500000; it then returns the normalized body text and its digest.
    When the guard refuses the URL, [scrape] throws the guard's error and
    leaves the world as it was: nothing is fetched. *)
Theorem scrape_outcome `{Runtime} `{Env} (url : jsstring) (w : World) :
  (∀ text fingerprint,
     (Scraper.scrape url w).1 = Ret (text, fingerprint)
     ↔ ∃ validatedUrl response,
         Scraper.validateUrl url = Ret validatedUrl
         ∧ fetchPage (steps w) validatedUrl = Ret response
         ∧ r_ok response = true
         ∧ (∀ n, r_contentLength response = Some n → n ≤ 500000)
         ∧ text = substring (trim (Scraper.collapseWhitespace false (r_bodyText response)))
                            0 Scraper.MAX_TEXT_LENGTH
         ∧ fingerprint = sha256hex text)
  ∧ (∀ msg, Scraper.validateUrl url = Throw msg →
            Scraper.scrape url w = (Throw msg, w))
  ∧ (∀ validatedUrl, Scraper.validateUrl url = Ret validatedUrl →
                     Spec.since w (Scraper.scrape url w).2 = [AFetch validatedUrl]).
Proof.
  rewrite scrape_run. split_and!.
  - intros text fingerprint. split.
    + destruct (Scraper.validateUrl url) as [validatedUrl|msg]; [|done].
      destruct (fetchPage (steps w) validatedUrl) as [response|msg] eqn:Hf; [|done].
      destruct (r_ok response) eqn:Hok; [|done]. cbn [negb].
      destruct (r_contentLength response) as [n|] eqn:Hn.
      * destruct (Z.ltb_spec Scraper.MAX_CONTENT_LENGTH n) as [Hlt|Hle]; [done|].
        cbv zeta. cbn [fst]. intros [= <- <-].
        exists validatedUrl, response. split_and!; try done.
        intros n' Hn'. assert (n' = n) as -> by congruence. exact Hle.
      * cbv zeta. cbn [fst]. intros [= <- <-].
        exists validatedUrl, response. split_and!; try done.
        intros n' Hn'. congruence.
    + intros (validatedUrl & response & -> & -> & -> & Hlen & -> & ->).
      cbn [negb].
      destruct (r_contentLength response) as [n|]; [|done].
      specialize (Hlen n eq_refl).
      destruct (Z.ltb_spec Scraper.MAX_CONTENT_LENGTH n) as [Hlt|Hle]; [|done].
      unfold Scraper.MAX_CONTENT_LENGTH in Hlt. lia.
  - by intros msg ->.
  - intros validatedUrl ->.
    assert (Hw : ∀ a : outcome (jsstring * jsstring),
               Spec.since w (a, log (AFetch validatedUrl) w).2 = [AFetch validatedUrl])
      by (intros a; cbn [snd]; by rewrite log_advance, since_advance).
    destruct (fetchPage (steps w) validatedUrl) as [response|msg]; [|apply Hw].
    destruct (negb (r_ok response)); [apply Hw|].
    destruct (match r_contentLength response with Some _ => _ | None => _ end);
      apply Hw.
Qed.

Lemma scrape_outcome_witness :
  Scraper.validateUrl (H := Examples.exampleRuntime) (js "http://localhost:3000")
  = Throw (js "Access to localhost is not allowed")
  ∧ Scraper.scrape (H := Examples.exampleRuntime) (H0 := Examples.exampleEnv)
                   (js "http://localhost:3000") Signal.initial
    = (Throw (js "Access to localhost is not allowed"), Signal.initial)
  ∧ Spec.since Signal.initial
      (Scraper.scrape (H := Examples.exampleRuntime) (H0 := Examples.exampleEnv)
                      (js "https://example.com") Signal.initial).2
    = [AFetch (js "https://example.com/")].
Proof.
  pose proof (scrape_outcome (H := Examples.exampleRuntime) (H0 := Examples.exampleEnv)
                             (js "http://localhost:3000") Signal.initial)
    as (_ & Hrefused & _).
  pose proof (scrape_outcome (H := Examples.exampleRuntime) (H0 := Examples.exampleEnv)
                             (js "https://example.com") Signal.initial)
    as (_ & _ & Hfetched).
  split_and!.
  - vm_compute. reflexivity.
  - apply Hrefused. vm_compute. reflexivity.
  - apply Hfetched. vm_compute. reflexivity.
Defined.

(** ** The outcome of a check *)

Section CheckOutcome.
Context `{Runtime} `{Env}.

Lemma filter_sublist {A : Type} (f : A → bool) (l : list A) :
  List.filter f l `sublist_of` l.
Proof.
  induction l as [|x l IH]; [done|]. cbn.
  destruct (f x); [by apply sublist_skip|by apply sublist_cons].
Qed.

Lemma extractRelevantContent_bound (text : jsstring) (keywords : list jsstring) :
  len (Scraper.extractRelevantContent text keywords) ≤ 3000.
Proof.
  unfold Scraper.extractRelevantContent.
  match goal with
  | |- len (substring ?s 0 _) ≤ _ => pose proof (substring_prefix_length s 3000)
  end.
  unfold len. change Scraper.MAX_EXCERPT_LENGTH with 3000. lia.
Qed.

End CheckOutcome.

(** X5. When [checkForSignal] returns, its fingerprint is the one of the
    scraped text and [changed] tells whether it differs from the stored one.
    The matched keywords are a subsequence of the target's keywords, in their
    order and spelling: when the content changed, exactly those contained in
    the text without regard to case, and none when it did not. The excerpt is
    empty when nothing matched and never longer than 3000 code units. *)
Theorem checkForSignal_outcome `{Runtime} `{Env} (url : jsstring)
        (keywords : list jsstring) (lastHash : option jsstring) (w : World)
        (result : ScanResult) :
  (Scraper.checkForSignal url keywords lastHash w).1 = Ret result →
  ∃ text,
    (Scraper.scrape url w).1 = Ret (text, hash result)
    ∧ (changed result = false ↔ lastHash = Some (hash result))
    ∧ matches result `sublist_of` keywords
    ∧ (∀ k, k ∈ matches result
            ↔ changed result = true ∧ k ∈ keywords
              ∧ includes (toLowerCase text) (toLowerCase k) = true)
    ∧ (matches result = [] → content result = [])
    ∧ len (content result) ≤ 3000.
Proof.
  unfold Scraper.checkForSignal. rewrite run_bind.
  destruct (Scraper.scrape url w) as [[[text fingerprint]|msg] w0]; [|done].
  set (found := List.filter (fun k => includes (toLowerCase text) (toLowerCase k)) keywords).
  destruct (bool_decide (lastHash = Some fingerprint)) eqn:Elast; cbn [negb].
  - apply bool_decide_eq_true in Elast. intros [= <-]. exists text. cbn.
    split_and!; try done.
    + apply sublist_nil_l.
    + intros k. split; [by intros ?%elem_of_nil|by intros (? & _)].
  - apply bool_decide_eq_false in Elast.
    assert (Hmem : ∀ k, k ∈ found ↔ true = true ∧ k ∈ keywords
                        ∧ includes (toLowerCase text) (toLowerCase k) = true).
    { intros k. unfold found. rewrite list_elem_of_In, filter_In, <- list_elem_of_In.
      tauto. }
    destruct found as [|k0 rest] eqn:Efound; cbn [length Nat.eqb].
    + intros [= <-]. exists text. cbn. split_and!; try done.
      all: try (split; [done|by intros ?]).
      all: try apply sublist_nil_l.
    + intros [= <-]. exists text. cbn. split_and!; try done.
      all: try (split; [done|by intros ?]).
      all: try (rewrite <- Efound; apply filter_sublist).
      all: try apply extractRelevantContent_bound.
Qed.

Lemma checkForSignal_outcome_witness :
  ∃ text,
    (Scraper.scrape (H := Examples.exampleRuntime) (H0 := Examples.exampleEnv)
                    (js "https://example.com") Signal.initial).1
    = Ret (text, js "27")
    ∧ [js "AI"; js "robot"] `sublist_of` [js "AI"; js "robot"; js "ghost"]
    ∧ (js "ghost" ∈ [js "AI"; js "robot"]
       ↔ true = true ∧ js "ghost" ∈ [js "AI"; js "robot"; js "ghost"]
         ∧ includes (asciiLower text) (asciiLower (js "ghost")) = true).
Proof.
  destruct (checkForSignal_outcome
              (H := Examples.exampleRuntime) (H0 := Examples.exampleEnv)
              (js "https://example.com") [js "AI"; js "robot"; js "ghost"] None
              Signal.initial
              (mkScanResult true [js "AI"; js "robot"]
                 (js "Breaking: AI-powered robot!"
                  ++ Scraper.separator ++ js "Breaking: AI-powered robot!")
                 (js "27")))
    as (text & Hscrape & _ & Hsub & Hmem & _); [vm_compute; reflexivity|].
  exists text. split_and!; [exact Hscrape|exact Hsub|exact (Hmem (js "ghost"))].
Defined.

(** ** The sanitizers and the validation of replies *)

Section SanitizerFixpoints.

Lemma filter_id {A : Type} (f : A → bool) (l : list A) :
  Forall (fun x => f x = true) l → List.filter f l = l.
Proof.
  induction 1 as [|x l Hx _ IH]; [done|]. cbn. by rewrite Hx, IH.
Qed.

Lemma replaceFences_id (s : jsstring) :
  (∀ i, startsWith Insforge.fence (drop i s) = false) →
  Insforge.replaceFences s = s.
Proof.
  induction s as [|c r IH]; intros Hno; [done|].
  rewrite replaceFences_other by exact (Hno 0%nat).
  f_equal. apply IH. intros i. exact (Hno (S i)).
Qed.

Lemma substring_all (s : jsstring) (n : Z) :
  len s ≤ n → substring s 0 n = s.
Proof.
  intros Hn. unfold len in Hn.
  rewrite substring_prefix by lia. apply take_ge. lia.
Qed.

Lemma sanitizeInput_id (text : jsstring) :
  Spec.sanitizedExcerpt text → Insforge.sanitizeInput text = text.
Proof.
  intros (Hctl & Hfence & Hlen). unfold Insforge.sanitizeInput.
  rewrite filter_id.
  - rewrite replaceFences_id by done. apply substring_all. unfold len. lia.
  - eapply List.Forall_impl; [|exact Hctl]. intros c Hc. cbn beta in Hc. by rewrite Hc.
Qed.

Lemma trimStart_id (s : jsstring) :
  Vocabulary.startsClean s = true → trimStart s = s.
Proof.
  destruct s as [|c r]; [done|]. cbn. by intros ->%negb_true_iff.
Qed.

Lemma trim_id (s : jsstring) :
  Vocabulary.startsClean s = true → Vocabulary.startsClean (rev s) = true →
  trim s = s.
Proof.
  intros Hs He. unfold trim, trimEnd.
  rewrite (trimStart_id s Hs), (trimStart_id _ He). apply rev_involutive.
Qed.

Lemma trim_clean (s : jsstring) :
  Vocabulary.startsClean (trim s) = true
  ∧ Vocabulary.startsClean (rev (trim s)) = true.
Proof.
  split.
  - apply trimEnd_clean, trimStart_clean.
  - unfold trim, trimEnd. rewrite rev_involutive. apply trimStart_clean.
Qed.

Lemma trim_trim (s : jsstring) : trim (trim s) = trim s.
Proof. destruct (trim_clean s). by apply trim_id. Qed.

End SanitizerFixpoints.

(** X6. [sanitizeInput] returns its argument unchanged exactly when the
    argument has no control character, no run of three backquotes and at
    most 2000 code units; sanitizing a second time changes nothing. *)
Theorem sanitizeInput_idempotent :
  (∀ text, Insforge.sanitizeInput text = text ↔ Spec.sanitizedExcerpt text)
  ∧ (∀ text, Insforge.sanitizeInput (Insforge.sanitizeInput text)
             = Insforge.sanitizeInput text).
Proof.
  split.
  - intros text. split; [|apply sanitizeInput_id].
    intros <-. apply sanitizeInput_sanitized.
  - intros text. apply sanitizeInput_id, sanitizeInput_sanitized.
Qed.

Section KeywordFixpoints.

Lemma sanitizeKeywords_cons (k : jsstring) (keywords : list jsstring) :
  Insforge.sanitizeKeywords (k :: keywords)
  = let k' := trim (List.filter Insforge.isKeywordChar k) in
    if (0 <? length k')%nat && (length k' <? 50)%nat
    then k' :: Insforge.sanitizeKeywords keywords
    else Insforge.sanitizeKeywords keywords.
Proof. reflexivity. Qed.

Lemma sanitizeKeywords_length (keywords : list jsstring) :
  (length (Insforge.sanitizeKeywords keywords) ≤ length keywords)%nat.
Proof.
  induction keywords as [|k ks IH]; [done|].
  rewrite sanitizeKeywords_cons. cbn zeta.
  destruct (_ && _); cbn [length]; lia.
Qed.

Lemma sanitizeKeywords_keeps (k : jsstring) (keywords : list jsstring) :
  Spec.sanitizedKeyword k → trim k = k →
  Insforge.sanitizeKeywords (k :: keywords) = k :: Insforge.sanitizeKeywords keywords.
Proof.
  intros [Hlen Hchars] Htrim. rewrite sanitizeKeywords_cons.
  rewrite (filter_id _ _ Hchars), Htrim. cbn zeta.
  destruct Hlen as [?%Nat.ltb_lt ?%Nat.ltb_lt].
  by rewrite H, H0.
Qed.

End KeywordFixpoints.

(** X7. [sanitizeKeywords] never returns more keywords than it is given,
    sanitizing a second time changes nothing, and a list is returned
    unchanged exactly when each of its keywords has between 1 and 49 code
    units, all word characters, white space, CJK ideographs or hyphens, and
    no white space at either end. *)
Theorem sanitizeKeywords_idempotent (keywords : list jsstring) :
  Insforge.sanitizeKeywords (Insforge.sanitizeKeywords keywords)
  = Insforge.sanitizeKeywords keywords
  ∧ (length (Insforge.sanitizeKeywords keywords) ≤ length keywords)%nat
  ∧ (Insforge.sanitizeKeywords keywords = keywords
     ↔ Forall (fun k => Spec.sanitizedKeyword k ∧ trim k = k) keywords).
Proof.
  assert (Hfix : ∀ ks, Forall (fun k => Spec.sanitizedKeyword k ∧ trim k = k) ks →
                       Insforge.sanitizeKeywords ks = ks).
  { induction 1 as [|k ks [Hk Ht] _ IH]; [done|].
    by rewrite sanitizeKeywords_keeps, IH. }
  assert (Hout : ∀ ks, Forall (fun k => Spec.sanitizedKeyword k ∧ trim k = k)
                              (Insforge.sanitizeKeywords ks)).
  { intros ks. induction ks as [|k ks IH]; [constructor|].
    rewrite sanitizeKeywords_cons. cbn zeta.
    destruct (_ && _) eqn:Ek; [|exact IH].
    constructor; [|exact IH]. split; [|apply trim_trim].
    apply andb_true_iff in Ek as [?%Nat.ltb_lt ?%Nat.ltb_lt]. split; [lia|].
    apply trim_Forall, filter_Forall. done. }
  split_and!.
  - apply Hfix, Hout.
  - apply sanitizeKeywords_length.
  - split; [|apply Hfix]. intros <-. apply Hout.
Qed.

Section JsonMatch.

Lemma indexFrom_absent (c : N) (s : jsstring) (k : nat) :
  c ∉ s → indexFrom [c] s k = -1.
Proof.
  revert k. induction s as [|x r IH]; intros k Hc; [done|].
  apply not_elem_of_cons in Hc as [Hx Hr]. cbn.
  destruct (N.eqb_spec c x) as [->|_]; [done|]. cbn. by apply IH.
Qed.

Lemma indexFrom_first (c : N) (pre post : jsstring) (k : nat) :
  c ∉ pre → indexFrom [c] (pre ++ c :: post) k = Z.of_nat (k + length pre).
Proof.
  revert k. induction pre as [|x r IH]; intros k Hc.
  - cbn. rewrite N.eqb_refl. cbn. f_equal. lia.
  - apply not_elem_of_cons in Hc as [Hx Hr]. cbn.
    destruct (N.eqb_spec c x) as [->|_]; [done|]. cbn.
    rewrite (IH (S k) Hr). f_equal. lia.
Qed.

Lemma indexOf_char (c : N) (pre body post : jsstring) :
  c ∉ body →
  indexOf (pre ++ body ++ c :: post) [c] (len pre) = len pre + len body.
Proof.
  intros Hc. unfold indexOf.
  replace (Z.to_nat (clamp (len (pre ++ body ++ c :: post)) (len pre)))
    with (length pre).
  2:{ unfold clamp, len. rewrite !length_app. cbn [length]. lia. }
  rewrite drop_app_length, indexFrom_first by done. unfold len. lia.
Qed.

Lemma indexOf_char_absent (c : N) (pre rest : jsstring) :
  c ∉ rest → indexOf (pre ++ rest) [c] (len pre) = -1.
Proof.
  intros Hc. unfold indexOf.
  replace (Z.to_nat (clamp (len (pre ++ rest)) (len pre))) with (length pre).
  2:{ unfold clamp, len. rewrite !length_app. lia. }
  by rewrite drop_app_length, indexFrom_absent.
Qed.

Lemma matchJsonObject_found (pre body post : jsstring) :
  123%N ∉ pre → 125%N ∉ body →
  Insforge.matchJsonObject (pre ++ 123%N :: body ++ 125%N :: post)
  = Some (123%N :: body ++ [125%N]).
Proof.
  intros Hpre Hbody. unfold Insforge.matchJsonObject.
  change (js "{") with [123%N]. change (js "}") with [125%N].
  pose proof (indexOf_char 123 [] pre (body ++ 125%N :: post) Hpre) as Hi.
  change (len [] + len pre) with (len pre) in Hi. change (len []) with 0 in Hi.
  cbn [app] in Hi. rewrite Hi. clear Hi.
  destruct (Z.eqb_spec (len pre) (-1)) as [E|_]; [unfold len in E; lia|].
  rewrite (cons_middle 123%N pre), app_assoc.
  replace (len pre + 1) with (len (pre ++ [123%N]))
    by (unfold len; rewrite length_app; cbn [length]; lia).
  rewrite (indexOf_char 125 (pre ++ [123%N]) body post Hbody).
  destruct (Z.eqb_spec (len (pre ++ [123%N]) + len body) (-1)) as [E|_];
    [unfold len in E; lia|].
  f_equal. unfold substring, clamp, len. rewrite !length_app. cbn [length].
  replace (Z.to_nat (Z.min _ _)) with (length pre) by lia.
  replace (Z.to_nat (_ - _)) with (length (123%N :: body ++ [125%N]))
    by (cbn [length]; rewrite length_app; cbn [length]; lia).
  rewrite <- app_assoc, drop_app_length. cbn [app].
  change (123%N :: body ++ 125%N :: post) with ((123%N :: body) ++ 125%N :: post).
  rewrite (cons_middle 125%N (123%N :: body)), app_assoc.
  apply take_app_length.
Qed.

Lemma matchJsonObject_none (response : jsstring) :
  (123%N ∉ response
   ∨ ∃ pre rest, response = pre ++ 123%N :: rest ∧ (123%N ∉ pre) ∧ (125%N ∉ rest)) →
  Insforge.matchJsonObject response = None.
Proof.
  unfold Insforge.matchJsonObject.
  change (js "{") with [123%N]. change (js "}") with [125%N].
  intros [Habs|(pre & rest & -> & Hpre & Hrest)].
  - pose proof (indexOf_char_absent 123 [] response Habs) as Hi.
    change (len []) with 0 in Hi. cbn [app] in Hi. by rewrite Hi.
  - pose proof (indexOf_char 123 [] pre rest Hpre) as Hi.
    change (len [] + len pre) with (len pre) in Hi. change (len []) with 0 in Hi.
    cbn [app] in Hi. rewrite Hi. clear Hi.
    destruct (Z.eqb_spec (len pre) (-1)) as [E|_]; [unfold len in E; lia|].
    rewrite (cons_middle 123%N pre), app_assoc.
    replace (len pre + 1) with (len (pre ++ [123%N]))
      by (unfold len; rewrite length_app; cbn [length]; lia).
    by rewrite (indexOf_char_absent 125 (pre ++ [123%N]) rest Hrest).
Qed.

End JsonMatch.

(** X8. The text handed to [JSON.parse] runs from the first opening brace
    of the reply to the first closing brace after it, both included: nothing
    is matched when the reply has no opening brace or no closing brace after
    the first opening one, and the match never holds a closing brace before
    its last code unit. *)
Theorem matchJsonObject_shape (response m : jsstring) :
  Insforge.matchJsonObject response = Some m
  ↔ ∃ pre body post,
      response = pre ++ js "{" ++ body ++ js "}" ++ post
      ∧ (123%N ∉ pre) ∧ (125%N ∉ body)
      ∧ m = js "{" ++ body ++ js "}".
Proof.
  change (js "{") with [123%N]. change (js "}") with [125%N]. cbn [app].
  split.
  - intros Hm.
    destruct (decide (123%N ∈ response)) as [Hin|Hout].
    2:{ rewrite matchJsonObject_none in Hm by (by left). done. }
    apply list_elem_of_split_l in Hin as (pre & rest & -> & Hpre).
    destruct (decide (125%N ∈ rest)) as [Hin|Hout].
    2:{ rewrite matchJsonObject_none in Hm; [done|]. right. by exists pre, rest. }
    apply list_elem_of_split_l in Hin as (body & post & -> & Hbody).
    exists pre, body, post. split_and!; try done.
    rewrite (matchJsonObject_found pre body post Hpre Hbody) in Hm.
    by injection Hm as <-.
  - intros (pre & body & post & -> & Hpre & Hbody & ->).
    by apply matchJsonObject_found.
Qed.

Section ValidatedReply.

Lemma getProp_string (o : jsobject) (k s : jsstring) :
  getProp o k = JString s → o !! k = Some (JString s).
Proof. unfold getProp. destruct (o !! k); cbn; congruence. Qed.

Lemma lookup_ite_insert_ne (b : bool) (o : jsobject) (k k' : jsstring) (v : jsvalue) :
  k ≠ k' → (if b then <[k := v]> o else o) !! k' = o !! k'.
Proof. intros Hk. destruct b; [by rewrite lookup_insert_ne|done]. Qed.

Lemma validateResult_other (o : jsobject) (k : jsstring) :
  k ∉ [Insforge.k_summary; Insforge.k_threat_level; Insforge.k_category] →
  Insforge.validateResult o !! k = o !! k.
Proof.
  intros Hk.
  apply not_elem_of_cons in Hk as [Hs Hk].
  apply not_elem_of_cons in Hk as [Ht Hk].
  apply not_elem_of_cons in Hk as [Hc _].
  unfold Insforge.validateResult. cbv zeta.
  rewrite lookup_ite_insert_ne by done.
  match goal with
  | |- (if ?b then _ else match ?v with _ => _ end) !! _ = _ =>
      destruct b; [|destruct v as [| | | |s| |]; try destruct (100 <? length s)%nat]
  end; rewrite ?lookup_insert_ne by done; by rewrite lookup_ite_insert_ne.
Qed.

Lemma validateResult_id (o : jsobject) :
  Spec.wellFormedAnalysis o → Insforge.validateResult o = o.
Proof.
  intros ((t & Ht & Hlevel) & (s & Hs & Hlen) & (c & Hc & Hclen)).
  unfold Insforge.validateResult. cbv zeta.
  assert (E1 : (if negb (Insforge.isValidThreatLevel (getProp o Insforge.k_threat_level))
                then <[Insforge.k_threat_level := JString (js "UNKNOWN")]> o else o) = o).
  { rewrite Ht. cbn [Insforge.isValidThreatLevel].
    destruct (arrayIncludes Insforge.validThreatLevels t) eqn:Ev; [done|].
    cbn [negb]. apply insert_id. apply getProp_string. rewrite Ht. f_equal.
    unfold arrayIncludes in Ev. apply bool_decide_eq_false in Ev.
    unfold Spec.threatLevels in Hlevel. unfold Insforge.validThreatLevels in Ev.
    repeat (apply elem_of_cons in Hlevel as [->|Hlevel];
            [try done; exfalso; apply Ev; in_list|]).
    by apply elem_of_nil in Hlevel. }
  rewrite E1, Hs. cbn [truthy isString negb orb].
  destruct s as [|s0 s]; [cbn in Hlen; lia|].
  destruct c as [|c0 c]; [cbn in Hclen; lia|].
  rewrite bool_decide_eq_false_2 by done. cbn [negb orb].
  destruct Hlen as [_ Hlen]. apply Nat.ltb_ge in Hlen. rewrite Hlen, Hc.
  cbn [truthy isString negb orb]. by rewrite bool_decide_eq_false_2.
Qed.

End ValidatedReply.

(** X9. The validation of a parsed reply only touches [summary],
    [threat_level] and [category]: every other property is kept as parsed.
    A reply is returned unchanged exactly when it is well formed, and
    validating twice is validating once. *)
Theorem validateResult_fixpoint (o : jsobject) :
  (∀ k, k ∉ [Insforge.k_summary; Insforge.k_threat_level; Insforge.k_category] →
        Insforge.validateResult o !! k = o !! k)
  ∧ (Insforge.validateResult o = o ↔ Spec.wellFormedAnalysis o)
  ∧ Insforge.validateResult (Insforge.validateResult o) = Insforge.validateResult o.
Proof.
  split_and!.
  - apply validateResult_other.
  - split; [|apply validateResult_id]. intros <-. apply validateResult_wellFormed.
  - apply validateResult_id, validateResult_wellFormed.
Qed.

Section Summarizer.
Context `{Runtime} `{Env}.

Lemma fixed_analyses_wellFormed :
  Spec.wellFormedAnalysis (Insforge.analysis Insforge.msgNoKeywords (js "UNKNOWN") (js "ERROR"))
  ∧ Spec.wellFormedAnalysis (Insforge.analysis Insforge.msgOffline (js "UNKNOWN") (js "ERROR")).
Proof.
  split; apply analysis_wellFormed; cbn; try lia; unfold Spec.threatLevels; in_list.
Qed.

Lemma analyzeSignal_run (content : jsstring) (keywords : list jsstring) (w : World) :
  Insforge.analyzeSignal content keywords w
  = match Insforge.sanitizeKeywords keywords with
    | [] => (Ret (Insforge.analysis Insforge.msgNoKeywords (js "UNKNOWN") (js "ERROR")), w)
    | ks =>
        (Ret match chatCompletion (steps w) ks (Insforge.sanitizeInput content)
                   ≫= Insforge.interpretReply with
             | Ret a => a
             | Throw _ => Insforge.analysis Insforge.msgOffline (js "UNKNOWN") (js "ERROR")
             end,
         log (ACompletion ks (Insforge.sanitizeInput content)) w)
    end.
Proof.
  unfold Insforge.analyzeSignal.
  destruct (Insforge.sanitizeKeywords keywords) as [|k ks]; [done|].
  cbn [length Nat.eqb]. rewrite run_tryCatch, run_bind. unfold call.
  destruct (chatCompletion _ _ _) as [reply|msg]; [|done].
  cbn [mbind outcome_bind]. unfold liftO.
  by destruct (Insforge.interpretReply reply).
Qed.

End Summarizer.

(** X10. [analyzeSignal] never throws and always returns a well-formed
    analysis. It sends exactly one request to the chat completion, with the
    sanitized keywords and content, when a keyword survives sanitization;
    otherwise it sends none and returns the fixed "no valid keyword"
    analysis. *)
Theorem analyzeSignal_total `{Runtime} `{Env} (content : jsstring)
        (keywords : list jsstring) (w : World) :
  ∃ a, (Insforge.analyzeSignal content keywords w).1 = Ret a
       ∧ Spec.wellFormedAnalysis a
       ∧ Spec.since w (Insforge.analyzeSignal content keywords w).2
         = match Insforge.sanitizeKeywords keywords with
           | [] => []
           | ks => [ACompletion ks (Insforge.sanitizeInput content)]
           end
       ∧ (Insforge.sanitizeKeywords keywords = [] →
          a = Insforge.analysis Insforge.msgNoKeywords (js "UNKNOWN") (js "ERROR")).
Proof.
  rewrite analyzeSignal_run.
  destruct fixed_analyses_wellFormed as [Hnone Hoff].
  destruct (Insforge.sanitizeKeywords keywords) as [|k ks].
  - eexists. split_and!; [done|exact Hnone| |done].
    cbn [snd]. by rewrite <- (advance_0 w) at 2; rewrite since_advance.
  - eexists. split_and!; [done| | |done].
    + destruct (chatCompletion _ _ _) as [reply|msg]; [|exact Hoff].
      cbn [mbind outcome_bind].
      pose proof (interpretReply_wellFormed reply) as Hr.
      by destruct (Insforge.interpretReply reply).
    + cbn [snd]. by rewrite log_advance, since_advance.
Qed.

(** ** Sessions *)

Section Owners.
Context `{Runtime} `{Env}.

(** What [getStatus] and the registered timer of a user depend on. *)
Lemma owner_view (w w' : World) (u : jsstring) :
  activeSessions w' !! u = activeSessions w !! u →
  (∀ session, activeSessions w !! u = Some session →
              heap w' !! session = heap w !! session) →
  Signal.getStatus u w' = Signal.getStatus u w
  ∧ Spec.registeredTimer w' u = Spec.registeredTimer w u.
Proof.
  intros Hreg Hheap. unfold Signal.getStatus, Spec.registeredTimer, Signal.sessionIdOf.
  rewrite Hreg. destruct (activeSessions w !! u) as [session|]; [|done].
  cbn [mbind option_bind]. by rewrite (Hheap session eq_refl).
Qed.

Lemma stopMonitoring_other (w : World) (u u' : jsstring) :
  Spec.consistent w → u' ≠ u →
  activeSessions (Signal.stopMonitoring u w).2 !! u' = activeSessions w !! u'
  ∧ ∀ session, activeSessions w !! u' = Some session →
               heap (Signal.stopMonitoring u w).2 !! session = heap w !! session.
Proof.
  intros Hc Hu. destruct (activeSessions w !! u) as [session|] eqn:Hreg.
  - destruct Hc as (Hsessions & _).
    destruct (Hsessions u session Hreg) as (id & handle & s & n & Hheap & _).
    rewrite (stopMonitoring_registered u w session handle id Hreg Hheap).
    cbn [snd activeSessions heap]. split; [by rewrite lookup_delete_ne|].
    intros session' Hreg'.
    destruct (Hsessions u' session' Hreg') as (id' & handle' & s' & n' & Hheap' & _).
    rewrite lookup_insert_ne; [done|]. intros ->. congruence.
  - by rewrite (stopMonitoring_absent u w Hreg).
Qed.

Lemma startMonitoring_other (w : World) (u u' : jsstring) (onSignal onNoise : nat) :
  Spec.consistent w → u' ≠ u →
  activeSessions (Signal.startMonitoring u onSignal onNoise w).2 !! u'
  = activeSessions w !! u'
  ∧ ∀ session, activeSessions w !! u' = Some session →
               heap (Signal.startMonitoring u onSignal onNoise w).2 !! session
               = heap w !! session.
Proof.
  intros Hc Hu.
  destruct (stopMonitoring_other w u u' Hc Hu) as [Hreg Hheap].
  pose proof (consistent_stop u w Hc) as (Hsessions & _ & Hfresh & _).
  rewrite startMonitoring_run. cbv zeta. cbn [snd activeSessions heap].
  split; [by rewrite lookup_insert_ne|].
  intros session Hs. rewrite <- (Hheap session Hs).
  rewrite <- Hreg in Hs.
  destruct (Hsessions u' session Hs) as (id' & handle' & s' & n' & Hheap' & _).
  rewrite lookup_insert_ne; [done|]. intros <-.
  rewrite Hfresh in Hheap' by lia. done.
Qed.

Lemma advance_view (n : nat) (l : list Action) (w : World) (u : jsstring) :
  Signal.getStatus u (advance n l w) = Signal.getStatus u w
  ∧ Signal.liveTimers (advance n l w) u = Signal.liveTimers w u.
Proof. done. Qed.

End Owners.

(** X11. Sessions of different users do not interfere: in every state the
    module can reach, the status of a user and the pending timers that drive
    their session are changed by no operation other than that user's own
    start or stop; neither another user's start or stop, nor a tick, nor a
    forced scan. *)
Theorem sessions_isolated `{Runtime} `{Env} (ops : list Signal.Op) (op : Signal.Op)
        (u : jsstring) :
  (∀ s n, op ≠ Signal.OpStart u s n) → op ≠ Signal.OpStop u →
  Signal.getStatus u (Signal.step (Signal.run ops Signal.initial) op)
  = Signal.getStatus u (Signal.run ops Signal.initial)
  ∧ Signal.liveTimers (Signal.step (Signal.run ops Signal.initial) op) u
    = Signal.liveTimers (Signal.run ops Signal.initial) u.
Proof.
  intros Hstart Hstop.
  pose proof (consistent_run ops Signal.initial consistent_initial) as Hc.
  pose proof (consistent_step op _ Hc) as Hc'.
  rewrite !liveTimers_registered by done.
  set (w := Signal.run ops Signal.initial) in *.
  destruct op as [u0 s n|u0|handle|u0 s n]; cbn [Signal.step] in *.
  - assert (u ≠ u0) as Hu by (intros ->; by apply (Hstart s n)).
    destruct (startMonitoring_other w u0 u s n Hc Hu) as [Hreg Hheap].
    destruct (owner_view w _ u Hreg Hheap) as [-> ->]. done.
  - assert (u ≠ u0) as Hu by (intros ->; by apply Hstop).
    destruct (stopMonitoring_other w u0 u Hc Hu) as [Hreg Hheap].
    destruct (owner_view w _ u Hreg Hheap) as [-> ->]. done.
  - destruct (step_frame handle u 0%nat 0%nat w) as [(n & l & -> & _) _]. done.
  - destruct (step_frame 0%nat u0 s n w) as [_ (k & l & -> & _)]. done.
Qed.

Lemma sessions_isolated_witness :
  Signal.getStatus (js "alice")
    (Signal.step (H := Examples.exampleRuntime) (H0 := Examples.exampleEnv)
       (Signal.run (H := Examples.exampleRuntime) (H0 := Examples.exampleEnv)
                   [Signal.OpStart (js "alice") 1 2] Signal.initial)
       (Signal.OpStop (js "bob")))
  = (true, Some (js "session_1766188800000")).
Proof.
  destruct (sessions_isolated (H := Examples.exampleRuntime) (H0 := Examples.exampleEnv)
              [Signal.OpStart (js "alice") 1 2] (Signal.OpStop (js "bob")) (js "alice"))
    as [Hstatus _]; [done|done|].
  rewrite Hstatus. vm_compute. reflexivity.
Defined.

Section Leaks.
Context `{Runtime} `{Env}.

Lemma balanced_step (op : Signal.Op) (w : World) :
  Spec.consistent w → size (timers w) = size (activeSessions w) →
  size (timers (Signal.step w op)) = size (activeSessions (Signal.step w op)).
Proof.
  intros Hc Hsize.
  assert (Hstop : ∀ u, size (timers (Signal.stopMonitoring u w).2)
                       = size (activeSessions (Signal.stopMonitoring u w).2)).
  { intros u. destruct (activeSessions w !! u) as [session|] eqn:Hreg.
    - pose proof Hc as (Hsessions & _).
      destruct (Hsessions u session Hreg) as (id & handle & s & n & Hheap & Htimer).
      rewrite (stopMonitoring_registered u w session handle id Hreg Hheap).
      cbn [snd timers activeSessions].
      rewrite !map_size_delete_Some by (by rewrite ?Htimer, ?Hreg).
      by rewrite Hsize.
    - by rewrite (stopMonitoring_absent u w Hreg). }
  destruct op as [u s n|u|handle|u s n]; cbn [Signal.step].
  - rewrite startMonitoring_run. cbv zeta. cbn [snd timers activeSessions].
    pose proof (consistent_stop u w Hc) as (_ & _ & _ & Hfresh).
    rewrite map_size_insert_None by (apply Hfresh; lia).
    rewrite map_size_insert_None by apply stopMonitoring_gone.
    by rewrite Hstop.
  - apply Hstop.
  - destruct (step_frame handle [] 0%nat 0%nat w) as [(n & l & -> & _) _]. done.
  - destruct (step_frame 0%nat u s n w) as [_ (k & l & -> & _)]. done.
Qed.

Lemma balanced_run (ops : list Signal.Op) (w : World) :
  Spec.consistent w → size (timers w) = size (activeSessions w) →
  size (timers (Signal.run ops w)) = size (activeSessions (Signal.run ops w)).
Proof.
  revert w. induction ops as [|op ops IH]; intros w Hc Hsize; [done|].
  cbn. apply IH; [by apply consistent_step|by apply balanced_step].
Qed.

End Leaks.

(** X13. No timer is leaked: in every state the module can reach there are
    as many pending timers as registered sessions, and [getStatus] reports a
    user active exactly when a pending timer drives a session of theirs. *)
Theorem no_timer_leak `{Runtime} `{Env} (ops : list Signal.Op) :
  size (timers (Signal.run ops Signal.initial))
  = size (activeSessions (Signal.run ops Signal.initial))
  ∧ ∀ userId,
      (Signal.getStatus userId (Signal.run ops Signal.initial)).1 = true
      ↔ Signal.liveTimers (Signal.run ops Signal.initial) userId ≠ [].
Proof.
  pose proof (consistent_run ops Signal.initial consistent_initial) as Hc.
  split; [by apply balanced_run; [apply consistent_initial|]|].
  intros userId. rewrite liveTimers_registered by done.
  unfold Signal.getStatus, Spec.registeredTimer.
  destruct (activeSessions _ !! userId) as [session|] eqn:Hreg; cbn [mbind option_bind fst].
  - destruct Hc as (Hsessions & _).
    destruct (Hsessions userId session Hreg) as (id & handle & s & n & -> & _).
    done.
  - split; [done|]. by intros [].
Qed.

Section Silence.
Context `{Runtime} `{Env}.

Lemma pending_timer_registered (w : World) (handle : nat) (c : Closure) :
  Spec.consistent w → timers w !! handle = Some c →
  ∃ id, activeSessions w !! c_userId c = Some (c_session c)
        ∧ heap w !! c_session c = Some (mkSession id (c_userId c) (Some handle) true).
Proof.
  intros (Hsessions & Htimers & _) Hc.
  destruct (Htimers handle c Hc) as [Hreg Hint].
  destruct (Hsessions _ _ Hreg) as (id & handle' & s & n & Hheap & _).
  rewrite Hheap in Hint. injection Hint as ->. by exists id.
Qed.

End Silence.

(** ** What reaches the outside *)

Section Guarded.
Context `{Runtime} `{Env}.

Lemma validateUrl_ret (urlString validatedUrl : jsstring) :
  Scraper.validateUrl urlString = Ret validatedUrl →
  Vocabulary.allowedUrl validatedUrl.
Proof.
  intros Hret. exists urlString. pose proof Hret as Hrun.
  unfold Scraper.validateUrl in Hrun.
  destruct (URL_parse urlString) as [url|]; [|done].
  exists url. unfold arrayIncludes in Hrun.
  destruct (bool_decide (protocol url ∈ [js "http:"; js "https:"])) eqn:Ep;
    cbn [negb throwIf mbind outcome_bind] in Hrun; [|done].
  apply bool_decide_eq_true in Ep.
  set (h := toLowerCase (hostname url)) in *.
  destruct (bool_decide (h ∈ Scraper.localhostPatterns)) eqn:E1;
    cbn [throwIf mbind outcome_bind] in Hrun; [done|].
  assert (Hranges : match Scraper.ipRegex h with
                    | Some (a, b) => Spec.inBlockedRange a b = false
                    | None => True
                    end
                    ∧ bool_decide (h ∈ Scraper.blockedHosts) = false
                    ∧ validatedUrl = href url).
  { destruct (Scraper.ipRegex h) as [[a b]|].
    - unfold Spec.inBlockedRange.
      destruct (a =? 10)%N; cbn [throwIf mbind outcome_bind] in Hrun; [done|].
      destruct ((a =? 172) && (16 <=? b) && (b <=? 31))%N;
        cbn [throwIf mbind outcome_bind] in Hrun; [done|].
      destruct ((a =? 192) && (b =? 168))%N;
        cbn [throwIf mbind outcome_bind] in Hrun; [done|].
      destruct ((a =? 169) && (b =? 254))%N;
        cbn [throwIf mbind outcome_bind] in Hrun; [done|].
      destruct (a =? 127)%N; cbn [throwIf mbind outcome_bind] in Hrun; [done|].
      destruct (bool_decide (h ∈ Scraper.blockedHosts));
        cbn [throwIf mbind outcome_bind] in Hrun; [done|].
      split_and!; [done..|congruence].
    - cbn [throwIf mbind outcome_bind] in Hrun.
      destruct (bool_decide (h ∈ Scraper.blockedHosts));
        cbn [throwIf mbind outcome_bind] in Hrun; [done|].
      split_and!; [done..|congruence]. }
  destruct Hranges as (Hr & E3 & Hv).
  split_and!; [done..|].
  intros Hb. apply blocked_host_checks in Hb. unfold arrayIncludes in Hb.
  destruct Hb as [Hb|[(a & b & Hip & Hb)|Hb]]; [congruence| |congruence].
  rewrite Hip in Hr. congruence.
Qed.

Lemma scrape_guarded (url : jsstring) :
  produces (fun _ => True) Vocabulary.guarded (Scraper.scrape url).
Proof.
  intros w. exists (Scraper.scrape url w).1.
  rewrite scrape_run.
  destruct (Scraper.validateUrl url) as [validatedUrl|msg] eqn:Hv.
  2:{ exists 0%nat, []. by rewrite advance_0. }
  apply validateUrl_ret in Hv.
  exists 1%nat, [AFetch validatedUrl]. rewrite <- log_advance.
  split; [|split; [done|by constructor]].
  destruct (fetchPage _ _) as [response|msg]; [|done].
  destruct (negb _); [done|].
  destruct (r_contentLength response) as [n|]; [destruct (_ <? n)|]; done.
Qed.

Lemma checkForSignal_guarded (url : jsstring) (keywords : list jsstring)
      (lastHash : option jsstring) :
  produces (fun a => match a with
                     | Ret result => len (content result) ≤ 3000
                     | Throw _ => True
                     end)
           Vocabulary.guarded
           (Scraper.checkForSignal url keywords lastHash).
Proof.
  unfold Scraper.checkForSignal.
  eapply (produces_bind (fun _ => True)); [apply scrape_guarded| |done].
  intros [text hash] _.
  destruct (negb _); [by apply produces_ret|].
  destruct (_ =? _)%nat; [by apply produces_ret|].
  apply produces_ret. apply extractRelevantContent_bound.
Qed.

Lemma completion_guarded (a : Action) :
  Spec.isCompletion a ∧ Spec.sanitizedRequest a → Vocabulary.guarded a.
Proof. by destruct a; intros []. Qed.

Lemma signalRecord_stored (target : Target) (userId : jsstring) (result : ScanResult)
      (aiAnalysis : option jsobject) :
  matches result ≠ [] → len (content result) ≤ 3000 →
  Vocabulary.attachedAnalysis (content result) aiAnalysis →
  Vocabulary.storedSignal (Signal.signalRecord target userId result aiAnalysis).
Proof.
  intros Hm Hc Ha. unfold Vocabulary.storedSignal, Signal.signalRecord.
  cbn [matched_keywords sr_content ai_summary ai_threat_level ai_category].
  split_and!; [done|done|..].
  - destruct aiAnalysis as [a|]; [|by left]. right.
    destruct Ha as (_ & (s & Hs & Hlen) & _). exists s. split; [|done].
    cbn [Signal.optProp]. rewrite Hs. unfold orElse. cbn [truthy].
    destruct s; [cbn in Hlen; lia|]. by rewrite bool_decide_eq_false_2.
  - destruct aiAnalysis as [a|].
    + destruct Ha as ((t & Ht & Hlevel) & _). exists t. split; [|done].
      cbn [Signal.optProp]. rewrite Ht. unfold orElse. cbn [truthy].
      destruct t; [|by rewrite bool_decide_eq_false_2].
      unfold Spec.threatLevels in Hlevel.
      repeat (apply elem_of_cons in Hlevel as [Hlevel|Hlevel]; [done|]).
      by apply elem_of_nil in Hlevel.
    + exists (js "UNKNOWN"). split; [done|]. unfold Spec.threatLevels. in_list.
  - destruct aiAnalysis as [a|].
    + destruct Ha as (_ & _ & (c & Hcat & Hlen)). exists c. split; [|done].
      cbn [Signal.optProp]. rewrite Hcat. unfold orElse. cbn [truthy].
      destruct c; [cbn in Hlen; lia|]. by rewrite bool_decide_eq_false_2.
    + exists (js "UNKNOWN"). split; [done|]. cbn. lia.
Qed.

Lemma scanTarget_guarded (userId : jsstring) (onSignal onNoise : nat)
      (target : Target) :
  produces (fun a => a = Ret tt) Vocabulary.guarded
           (Signal.scanTarget userId onSignal onNoise target).
Proof.
  unfold Signal.scanTarget, Signal.noise, Signal.notifyClient.
  eapply (produces_bind (fun a => a = Ret tt)).
  - eapply (produces_tryCatch (fun _ => True)).
    + eapply produces_bind; [apply checkForSignal_guarded| |done].
      intros result Hcontent.
      eapply (produces_bind (fun _ => True)); [by apply produces_call| |done].
      intros _ _.
      destruct (0 <? _)%nat eqn:Hm.
      * assert (matches result ≠ []) as Hne.
        { intros E. rewrite E in Hm. done. }
        eapply (produces_bind
                  (fun a => match a with
                            | Ret ai => Vocabulary.attachedAnalysis (content result) ai
                            | Throw _ => True
                            end)); [| |done].
        { cbn [truthy].
          destruct (bool_decide (content result = [])) eqn:Ec; cbn [negb].
          { apply produces_ret. by apply bool_decide_eq_true in Ec. }
          eapply produces_bind;
            [eapply produces_mono;
               [apply analyzeSignal_produces|intros a Ha; exact Ha
               |apply completion_guarded]| |done].
          intros a Ha. by apply produces_ret. }
        intros aiAnalysis Ha.
        eapply (produces_bind (fun _ => True)); [apply produces_call; [done|]| |done].
        { by apply signalRecord_stored. }
        intros signalId _. by apply produces_emit.
      * destruct (changed result); by apply produces_emit.
    + intros x _. apply unit_ret.
    + intros msg _. by apply produces_emit.
  - intros _ _. by apply produces_sleep.
  - done.
Qed.

Lemma forceScanTarget_guarded (userId : jsstring) (onSignal onNoise : nat)
      (target : Target) :
  produces (fun a => a = Ret tt) Vocabulary.guarded
           (Signal.forceScanTarget userId onSignal onNoise target).
Proof.
  unfold Signal.forceScanTarget, Signal.noise, Signal.notifyClient.
  eapply (produces_bind (fun a => a = Ret tt)); [by apply produces_emit| |done].
  intros _ _.
  eapply (produces_tryCatch (fun _ => True)).
  - eapply produces_bind; [apply checkForSignal_guarded| |done].
    intros result Hcontent.
    eapply (produces_bind (fun _ => True)); [by apply produces_call| |done].
    intros _ _.
    destruct (0 <? _)%nat eqn:Hm; [|by apply produces_emit].
    assert (matches result ≠ []) as Hne.
    { intros E. rewrite E in Hm. done. }
    eapply produces_bind;
      [eapply produces_mono;
         [apply analyzeSignal_produces|intros a Ha; exact Ha
         |apply completion_guarded]| |done].
    intros aiAnalysis Ha.
    eapply (produces_bind (fun _ => True)); [apply produces_call; [done|]| |done].
    { by apply signalRecord_stored. }
    intros signalId _. by apply produces_emit.
  - intros x _. apply unit_ret.
  - intros msg _. by apply produces_emit.
Qed.

Lemma timerFires_guarded (handle : nat) :
  produces (fun a => a = Ret tt) Vocabulary.guarded (Signal.timerFires handle).
Proof.
  intros w. unfold Signal.timerFires, yields. cbv beta.
  destruct (timers w !! handle) as [c|]; [|by apply (yields_unchanged (Ret tt))].
  unfold Signal.intervalCallback, Signal.randomNoise, Signal.noise.
  destruct (heap w !! c_session c) as [session|];
    [|by apply (yields_unchanged (Ret tt))].
  destruct (negb _); [by apply (yields_unchanged (Ret tt))|].
  apply (produces_at (fun a => a = Ret tt) Vocabulary.guarded).
  eapply (produces_tryCatch (fun _ => True)).
  - eapply (produces_bind (fun _ => True)); [by apply produces_call| |done].
    intros userTargets _. destruct (_ =? _)%nat; [by apply produces_emit|].
    eapply (produces_bind (fun _ => True)); [| |done].
    + induction userTargets as [|target rest IH]; cbn [Signal.scanTargets].
      * by apply produces_ret.
      * eapply (produces_bind (fun _ => True));
          [eapply produces_mono; [apply scanTarget_guarded|done..]
          |by intros _ _|done].
    + intros _ _. by apply produces_emit.
  - intros x _. apply unit_ret.
  - intros msg _. by apply produces_emit.
Qed.

Lemma forceScan_guarded (userId : jsstring) (onSignal onNoise : nat) :
  produces (fun a => a = Ret tt) Vocabulary.guarded
           (Signal.forceScan userId onSignal onNoise).
Proof.
  unfold Signal.forceScan, Signal.noise.
  eapply (produces_bind (fun a => a = Ret tt)); [by apply produces_emit| |done].
  intros _ _.
  eapply (produces_tryCatch (fun _ => True)).
  - eapply (produces_bind (fun _ => True)); [by apply produces_call| |done].
    intros userTargets _.
    eapply (produces_bind (fun _ => True)); [| |done].
    + induction userTargets as [|target rest IH]; cbn [Signal.forceScanTargets].
      * by apply produces_ret.
      * eapply (produces_bind (fun _ => True));
          [eapply produces_mono; [apply forceScanTarget_guarded|done..]
          |by intros _ _|done].
    + intros _ _. by apply produces_emit.
  - intros x _. apply unit_ret.
  - intros msg _. by apply produces_emit.
Qed.

Lemma run_guarded (ops : list Signal.Op) :
  Forall Vocabulary.guarded (trace (Signal.run ops Signal.initial)).
Proof.
  assert (Hgen : ∀ w, Forall Vocabulary.guarded (trace w) →
                      Forall Vocabulary.guarded (trace (Signal.run ops w))).
  { induction ops as [|op ops IH]; intros w Hw; [done|].
    cbn. apply IH.
    destruct op as [u s n|u|h|u s n]; cbn [Signal.step].
    - rewrite startMonitoring_run. cbn. by rewrite stopMonitoring_trace.
    - by rewrite stopMonitoring_trace.
    - destruct (timerFires_guarded h w) as (a & k & l & -> & _ & Hl).
      cbn. by apply Forall_app.
    - destruct (forceScan_guarded u s n w) as (a & k & l & -> & _ & Hl).
      cbn. by apply Forall_app. }
  by apply Hgen.
Qed.

Lemma Forall_omap {A B : Type} (f : A → option B) (Q : A → Prop) (P : B → Prop)
      (l : list A) :
  (∀ a b, f a = Some b → Q a → P b) → Forall Q l → Forall P (omap f l).
Proof.
  intros Hf. induction 1 as [|a l Ha _ IH]; [constructor|].
  cbn. destruct (f a) as [b|] eqn:E; [constructor; eauto|done].
Qed.

End Guarded.

(** X15. Whatever operations ran, every page request the engine ever issued
    went to a URL that [validateUrl] returned: the serialization of a URL
    that parses, with scheme http or https and a host that is none of the
    blocked ones. *)
Theorem every_fetch_passed_the_guard `{Runtime} `{Env} (ops : list Signal.Op) :
  Forall Vocabulary.allowedUrl
         (Vocabulary.fetches (trace (Signal.run ops Signal.initial))).
Proof.
  eapply Forall_omap; [|apply run_guarded].
  intros a validatedUrl. destruct a; try done. by intros [= <-].
Qed.

(** Such requests are issued: a tick of alice's session fetches the
    serialization of her target's URL. *)
Example a_guarded_fetch :
  Vocabulary.fetches
    (trace (Signal.run (H := Examples.exampleRuntime) (H0 := Examples.exampleEnv)
                       [Signal.OpStart (js "alice") 1 2; Signal.OpTimer 0]
                       Signal.initial))
  = [js "https://example.com/"].
Proof. vm_compute. reflexivity. Qed.

(** X16. Whatever operations ran, every record the engine gave to
    [signals.create] has at least one matched keyword, an excerpt of at most
    3000 code units, a summary that is null or a non-empty string of at most
    100 code units, a threat level among LOW, MEDIUM, HIGH, CRITICAL and
    UNKNOWN, and a non-empty category; every event given to [onSignal] has at
    least one keyword, an excerpt of at most 3000 code units, and a
    well-formed analysis, or none when the excerpt is empty. *)
Theorem every_signal_well_formed `{Runtime} `{Env} (ops : list Signal.Op) :
  Forall Vocabulary.storedSignal
         (Spec.createdSignals (trace (Signal.run ops Signal.initial)))
  ∧ Forall Vocabulary.sentSignal
           (Spec.signalEvents (trace (Signal.run ops Signal.initial))).
Proof.
  split.
  - eapply Forall_omap; [|apply run_guarded].
    intros a r. destruct a; try done. by intros [= <-].
  - eapply Forall_omap; [|apply run_guarded].
    intros a e. destruct a; try done. by intros [= <-].
Qed.

(** ** The reports of a cycle *)

Section Reports.
Context `{Runtime} `{Env}.

Lemma scanTarget_report (userId : jsstring) (onSignal onNoise : nat)
      (target : Target) (w : World) :
  ∃ n l e,
    Signal.scanTarget userId onSignal onNoise target w = (Ret tt, advance n l w)
    ∧ Spec.emissions l = [e]
    ∧ Vocabulary.namedTarget e = Some (displayName target)
    ∧ Spec.targetQueries l = [].
Proof.
  destruct (checkForSignal_frame (t_url target) (t_keywords target)
                                 (t_last_hash target) w) as (n0 & l0 & Hw0 & Hl0).
  destruct (fetches_quiet l0 Hl0) as (He0 & _ & _ & _ & _ & _ & Hq0).
  destruct (Scraper.checkForSignal (t_url target) (t_keywords target)
                                   (t_last_hash target) w) as [[result|msg] w0] eqn:Hc;
    cbn [snd] in Hw0; subst w0.
  - destruct (updateLastCheck (steps (advance n0 l0 w)) (t_id target) (hash result))
      as [[]|msg] eqn:Hu.
    + destruct (decide (matches result = [])) as [Hm|Hm].
      * rewrite (scanTarget_no_match _ _ _ _ _ _ _ Hc Hu Hm).
        rewrite advance_advance. eexists _, _, _. split; [done|].
        unfold Spec.emissions, Spec.targetQueries in *.
        rewrite !omap_app, He0, Hq0. cbn. split_and!; [done| |done].
        by destruct (changed result).
      * destruct (scanTarget_match userId onSignal onNoise _ _ _ _ Hc Hu Hm)
          as (ai & n & l & k & Hl & _ & ->).
        rewrite advance_advance.
        destruct (completions_quiet l Hl) as (He & _ & _ & _ & _ & Hq).
        destruct (signalsCreate _ _) as [signalId|msg]; eexists _, _, _;
          (split; [done|]); unfold Spec.emissions, Spec.targetQueries in *;
          rewrite !omap_app, He0, He, Hq0, Hq; cbn; done.
    + rewrite (scanTarget_update_throw _ _ _ _ _ _ _ _ Hc Hu).
      rewrite advance_advance. eexists _, _, _. split; [done|].
      unfold Spec.emissions, Spec.targetQueries in *.
      rewrite !omap_app, He0, Hq0. cbn. done.
  - rewrite (scanTarget_throw _ _ _ _ _ _ _ Hc).
    rewrite advance_advance. eexists _, _, _. split; [done|].
    unfold Spec.emissions, Spec.targetQueries in *.
    rewrite !omap_app, He0, Hq0. cbn. done.
Qed.

Lemma scanTargets_report (userId : jsstring) (onSignal onNoise : nat)
      (userTargets : list Target) (w : World) :
  ∃ n l,
    Signal.scanTargets userId onSignal onNoise userTargets w = (Ret tt, advance n l w)
    ∧ map Vocabulary.namedTarget (Spec.emissions l)
      = map (fun target => Some (displayName target)) userTargets
    ∧ Spec.targetQueries l = [].
Proof.
  revert w. induction userTargets as [|target rest IH]; intros w.
  - exists 0%nat, []. by rewrite advance_0.
  - rewrite scanTargets_cons.
    destruct (scanTarget_report userId onSignal onNoise target w)
      as (n1 & l1 & e & -> & He & Hn & Hq). cbn [snd].
    destruct (IH (advance n1 l1 w)) as (n2 & l2 & -> & Hes & Hqs).
    rewrite advance_advance. eexists _, _. split; [done|].
    unfold Spec.emissions, Spec.targetQueries in *.
    rewrite !omap_app, He, Hq, Hqs. cbn. by rewrite Hn, Hes.
Qed.

Lemma timerFires_running (handle : nat) (c : Closure) (session : Session) (w : World) :
  timers w !! handle = Some c →
  heap w !! c_session c = Some session →
  s_isRunning session = true →
  Signal.timerFires handle w
  = tryCatch
      (userTargets ← call (AGetActive (c_userId c))
                          (fun n => getActiveByUser n (c_userId c));
       if (length userTargets =? 0)%nat
       then Signal.randomNoise (c_onNoise c)
       else
         Signal.scanTargets (c_userId c) (c_onSignal c) (c_onNoise c) userTargets;;
         Signal.randomNoise (c_onNoise c))
      (fun msg => Signal.noise (c_onNoise c) (SystemError msg))
      w.
Proof.
  intros Ht Hs Hr. unfold Signal.timerFires, Signal.intervalCallback.
  by rewrite Ht, Hs, Hr.
Qed.

End Reports.

(** X17. When the timer of a running session fires and the targets load,
    the callback returns normally after one query for the targets and, for
    each target in the order of the list, exactly one call of a callback
    that names that target (a signal, a scan line or an error line),
    followed by one line of noise. With no target, the noise is all. *)
Theorem tick_reports_each_target `{Runtime} `{Env} (handle : nat) (c : Closure)
        (session : Session) (userTargets : list Target) (w : World) :
  timers w !! handle = Some c →
  heap w !! c_session c = Some session →
  s_isRunning session = true →
  getActiveByUser (steps w) (c_userId c) = Ret userTargets →
  (Signal.timerFires handle w).1 = Ret tt
  ∧ Spec.targetQueries (Spec.since w (Signal.timerFires handle w).2) = [c_userId c]
  ∧ ∃ reports dump,
      Spec.emissions (Spec.since w (Signal.timerFires handle w).2)
      = reports ++ [inr (NoiseRandom dump)]
      ∧ map Vocabulary.namedTarget reports
        = map (fun target => Some (displayName target)) userTargets.
Proof.
  intros Ht Hs Hr Hload.
  assert (Hrun : ∃ n l,
             Signal.timerFires handle w
             = (Ret tt,
                advance n ([AGetActive (c_userId c)] ++ l
                           ++ [AOnNoise (c_onNoise c)
                                 (NoiseRandom (generateNoise (n + steps w - 1)))]) w)
             ∧ map Vocabulary.namedTarget (Spec.emissions l)
               = map (fun target => Some (displayName target)) userTargets
             ∧ Spec.targetQueries l = []).
  { rewrite (timerFires_running handle c session w Ht Hs Hr).
    rewrite run_tryCatch, run_bind. unfold call. rewrite Hload. cbv beta iota.
    destruct (scanTargets_report (c_userId c) (c_onSignal c) (c_onNoise c)
                                 userTargets (log (AGetActive (c_userId c)) w))
      as (n & l & Hscan & Hes & Hq).
    exists (1 + n + 1)%nat, l. split; [|done].
    destruct userTargets as [|target rest]; cbn [length Nat.eqb].
    - cbn [Signal.scanTargets] in Hscan. apply (f_equal snd) in Hscan.
      cbn [snd mret M_ret] in Hscan.
      assert (n = 0%nat ∧ l = []) as [-> ->].
      { apply (f_equal steps) in Hscan as Hn. apply (f_equal trace) in Hscan as Hl.
        cbn [steps trace advance log] in Hn, Hl. split; [lia|].
        rewrite <- (app_nil_r (trace w ++ _)) in Hl at 1.
        by apply app_inv_head in Hl. }
      unfold Signal.randomNoise, emit.
      rewrite !log_advance, advance_advance. cbn [steps advance app].
      repeat f_equal; lia.
    - rewrite run_bind, Hscan. cbv beta iota. unfold Signal.randomNoise, emit.
      rewrite !log_advance, !advance_advance. cbn [steps advance].
      repeat f_equal; lia. }
  destruct Hrun as (n & l & -> & Hes & Hq). cbn [fst snd].
  rewrite since_advance. unfold Spec.emissions, Spec.targetQueries in *.
  rewrite !omap_app, Hq. cbn [omap app]. split_and!; [done..|].
  eexists _, _. split; [|exact Hes]. done.
Qed.

Lemma tick_reports_each_target_witness :
  (Signal.timerFires (H := Examples.exampleRuntime) (H0 := Examples.exampleEnv)
                     0 Examples.bobRunning).1 = Ret tt
  ∧ Spec.targetQueries
      (Spec.since Examples.bobRunning
         (Signal.timerFires (H := Examples.exampleRuntime) (H0 := Examples.exampleEnv)
                            0 Examples.bobRunning).2) = [js "bob"]
  ∧ ∃ reports dump,
      Spec.emissions
        (Spec.since Examples.bobRunning
           (Signal.timerFires (H := Examples.exampleRuntime) (H0 := Examples.exampleEnv)
                              0 Examples.bobRunning).2)
      = reports ++ [inr (NoiseRandom dump)]
      ∧ map Vocabulary.namedTarget reports
        = [Some (js "http://example.com:8080/api"); Some (js "https://example.com")].
Proof.
  apply (tick_reports_each_target
           (H := Examples.exampleRuntime) (H0 := Examples.exampleEnv)
           0%nat (mkClosure 0 (js "bob") 1 2)
           (mkSession (js "session_1766188800000") (js "bob") (Some 0%nat) true)
           Examples.bobTargets Examples.bobRunning);
    vm_compute; reflexivity.
Defined.

(** X18. When the timer of a running session fires and the query for the
    targets throws, the callback returns normally: all it does is the query
    and one [[SYSTEM ERROR]] line with the message. Nothing is fetched and
    the session and its timer stay as they are. *)
Theorem tick_load_failure `{Runtime} `{Env} (handle : nat) (c : Closure)
        (session : Session) (msg : jsstring) (w : World) :
  timers w !! handle = Some c →
  heap w !! c_session c = Some session →
  s_isRunning session = true →
  getActiveByUser (steps w) (c_userId c) = Throw msg →
  (Signal.timerFires handle w).1 = Ret tt
  ∧ Spec.since w (Signal.timerFires handle w).2
    = [AGetActive (c_userId c); AOnNoise (c_onNoise c) (SystemError msg)]
  ∧ activeSessions (Signal.timerFires handle w).2 = activeSessions w
  ∧ timers (Signal.timerFires handle w).2 = timers w.
Proof.
  intros Ht Hs Hr Hload.
  assert (Hrun : Signal.timerFires handle w
                 = (Ret tt, advance 2 [AGetActive (c_userId c);
                                       AOnNoise (c_onNoise c) (SystemError msg)] w)).
  { rewrite (timerFires_running handle c session w Ht Hs Hr).
    rewrite run_tryCatch, run_bind. unfold call. rewrite Hload. cbv beta iota.
    unfold Signal.noise, emit. by rewrite !log_advance, advance_advance. }
  rewrite Hrun. cbn [fst snd]. by rewrite since_advance.
Qed.

Lemma tick_load_failure_witness :
  Spec.since Examples.aliceRunning
    (Signal.timerFires (H := Examples.exampleRuntime)
                       (H0 := Scenarios.outageEnv true false false)
                       0 Examples.aliceRunning).2
  = [AGetActive (js "alice"); AOnNoise 2 (SystemError Scenarios.outageMessage)].
Proof.
  apply (tick_load_failure
           (H := Examples.exampleRuntime) (H0 := Scenarios.outageEnv true false false)
           0%nat (mkClosure 0 (js "alice") 1 2)
           (mkSession (js "session_1766188800000") (js "alice") (Some 0%nat) true)
           Scenarios.outageMessage Examples.aliceRunning);
    vm_compute; reflexivity.
Defined.

(** X19. When the query for the targets throws, [forceScan] returns
    normally after three actions: the [[MANUAL SCAN INITIATED]] line, the
    query, and one [[SCAN FAILED]] line with the message; there is no
    [[MANUAL SCAN COMPLETE]] line and nothing is fetched. *)
Theorem forceScan_load_failure `{Runtime} `{Env} (userId : jsstring)
        (onSignal onNoise : nat) (msg : jsstring) (w : World) :
  getActiveByUser (S (steps w)) userId = Throw msg →
  Signal.forceScan userId onSignal onNoise w
  = (Ret tt,
     advance 3 [AOnNoise onNoise ManualScanInitiated; AGetActive userId;
                AOnNoise onNoise (ScanFailed msg)] w).
Proof.
  intros Hload. unfold Signal.forceScan, Signal.noise.
  rewrite run_bind. unfold emit at 1. cbv beta iota.
  rewrite run_tryCatch, run_bind. unfold call at 1. cbn [steps log].
  rewrite Hload. cbv beta iota. unfold emit.
  by rewrite !log_advance, !advance_advance.
Qed.

Lemma forceScan_load_failure_witness :
  Signal.forceScan (H := Examples.exampleRuntime)
                   (H0 := Scenarios.outageEnv true false false)
                   (js "alice") 1 2 Signal.initial
  = (Ret tt,
     advance 3 [AOnNoise 2 ManualScanInitiated; AGetActive (js "alice");
                AOnNoise 2 (ScanFailed Scenarios.outageMessage)] Signal.initial).
Proof.
  apply (forceScan_load_failure
           (H := Examples.exampleRuntime) (H0 := Scenarios.outageEnv true false false)).
  vm_compute. reflexivity.
Defined.

(** ** Failures of the storage *)

(** X20. In the scan of a target by the timer callback, when the page was
    checked and the update of the fingerprint throws, the scan reports one
    error line with the target's name and the message; the summarizer is
    not asked and no signal is created, whatever the check had found. *)
Theorem update_failure_skips_analysis `{Runtime} `{Env} (userId : jsstring)
        (onSignal onNoise : nat) (target : Target) (w w0 : World)
        (result : ScanResult) (msg : jsstring) :
  Scraper.checkForSignal (t_url target) (t_keywords target) (t_last_hash target) w
  = (Ret result, w0) →
  updateLastCheck (steps w0) (t_id target) (hash result) = Throw msg →
  let l := Spec.since w (Signal.scanTarget userId onSignal onNoise target w).2 in
  Spec.emissions l = [inr (ScanError (displayName target) msg)]
  ∧ Spec.fingerprintUpdates l = [(t_id target, hash result)]
  ∧ Spec.completions l = []
  ∧ Spec.createdSignals l = [].
Proof.
  intros Hc Hu l. subst l.
  rewrite (scanTarget_update_throw _ _ _ _ _ _ _ _ Hc Hu). cbn [snd].
  destruct (checkForSignal_frame (t_url target) (t_keywords target)
                                 (t_last_hash target) w) as (n0 & l0 & Hw0 & Hl0).
  rewrite Hc in Hw0. cbn [snd] in Hw0. subst w0.
  destruct (fetches_quiet l0 Hl0) as (He0 & _ & _ & Hf0 & Hs0 & Hc0 & _).
  rewrite advance_advance, since_advance.
  unfold Spec.emissions, Spec.fingerprintUpdates, Spec.completions,
    Spec.createdSignals in *.
  by rewrite !omap_app, He0, Hf0, Hs0, Hc0.
Qed.

Lemma update_failure_skips_analysis_witness :
  Spec.emissions
    (Spec.since Signal.initial
       (Signal.scanTarget (H := Examples.exampleRuntime)
                          (H0 := Scenarios.outageEnv false true false)
                          (js "alice") 1 2 Examples.aliceTarget Signal.initial).2)
  = [inr (ScanError (js "News") Scenarios.outageMessage)]
  ∧ Spec.completions
      (Spec.since Signal.initial
         (Signal.scanTarget (H := Examples.exampleRuntime)
                            (H0 := Scenarios.outageEnv false true false)
                            (js "alice") 1 2 Examples.aliceTarget Signal.initial).2)
    = [].
Proof.
  destruct (update_failure_skips_analysis
              (H := Examples.exampleRuntime)
              (H0 := Scenarios.outageEnv false true false)
              (js "alice") 1%nat 2%nat Examples.aliceTarget Signal.initial
              (log (AFetch (js "https://example.com/")) Signal.initial)
              (mkScanResult true [js "AI"] Examples.pageText (js "27"))
              Scenarios.outageMessage)
    as (He & _ & Hc & _); [vm_compute; reflexivity..|].
  split; [exact He|exact Hc].
Defined.

(** X21. In the scan of a target by the timer callback, when keywords
    matched and [signals.create] throws, the client gets one error line and
    no signal event, although the new fingerprint has already been stored
    (the update comes first). *)
Theorem create_failure_loses_signal `{Runtime} `{Env} (userId : jsstring)
        (onSignal onNoise : nat) (target : Target) (w w0 : World)
        (result : ScanResult) (msg : jsstring) :
  Scraper.checkForSignal (t_url target) (t_keywords target) (t_last_hash target) w
  = (Ret result, w0) →
  updateLastCheck (steps w0) (t_id target) (hash result) = Ret tt →
  matches result ≠ [] →
  (∀ k r, signalsCreate k r = Throw msg) →
  let l := Spec.since w (Signal.scanTarget userId onSignal onNoise target w).2 in
  Spec.emissions l = [inr (ScanError (displayName target) msg)]
  ∧ Spec.signalEvents l = []
  ∧ Spec.fingerprintUpdates l = [(t_id target, hash result)]
  ∧ ∃ r, Spec.createdSignals l = [r] ∧ matched_keywords r = matches result.
Proof.
  intros Hc Hu Hm Hcreate l. subst l.
  destruct (scanTarget_match userId onSignal onNoise _ _ _ _ Hc Hu Hm)
    as (ai & n & l & k & Hl & _ & ->). cbn [snd].
  rewrite Hcreate.
  destruct (checkForSignal_frame (t_url target) (t_keywords target)
                                 (t_last_hash target) w) as (n0 & l0 & Hw0 & Hl0).
  rewrite Hc in Hw0. cbn [snd] in Hw0. subst w0.
  destruct (fetches_quiet l0 Hl0) as (He0 & Hv0 & _ & Hf0 & Hs0 & _).
  destruct (completions_quiet l Hl) as (He & Hv & _ & Hf & Hs & _).
  rewrite advance_advance, since_advance.
  unfold Spec.emissions, Spec.signalEvents, Spec.fingerprintUpdates,
    Spec.createdSignals in *.
  rewrite !omap_app, He0, Hv0, Hf0, Hs0, He, Hv, Hf, Hs. cbn.
  split_and!; [done..|]. by eexists.
Qed.

Lemma create_failure_loses_signal_witness :
  Spec.emissions
    (Spec.since Signal.initial
       (Signal.scanTarget (H := Examples.exampleRuntime)
                          (H0 := Scenarios.outageEnv false false true)
                          (js "alice") 1 2 Examples.aliceTarget Signal.initial).2)
  = [inr (ScanError (js "News") Scenarios.outageMessage)]
  ∧ Spec.fingerprintUpdates
      (Spec.since Signal.initial
         (Signal.scanTarget (H := Examples.exampleRuntime)
                            (H0 := Scenarios.outageEnv false false true)
                            (js "alice") 1 2 Examples.aliceTarget Signal.initial).2)
    = [(js "t-1", js "27")].
Proof.
  destruct (create_failure_loses_signal
              (H := Examples.exampleRuntime)
              (H0 := Scenarios.outageEnv false false true)
              (js "alice") 1%nat 2%nat Examples.aliceTarget Signal.initial
              (log (AFetch (js "https://example.com/")) Signal.initial)
              (mkScanResult true [js "AI"] Examples.pageText (js "27"))
              Scenarios.outageMessage)
    as (He & _ & Hf & _); [vm_compute; reflexivity|vm_compute; reflexivity|done|done|].
  split; [exact He|exact Hf].
Defined.

(** ** The reports of a forced scan *)

Section ForcedReports.
Context `{Runtime} `{Env}.

Lemma yields_produces {A : Type} (R : outcome A → Prop) (Q : Action → Prop)
      (m : M A) (w : World) (P : outcome A → nat → list Action → Prop) :
  produces R Q m → (∀ a n l, R a → Forall Q l → P a n l) → yields m w P.
Proof.
  intros Hm HP. eapply yields_mono; [apply (produces_at R Q), Hm|].
  intros a n l [Ha Hl]. by apply HP.
Qed.

Lemma forceScanTarget_report (userId : jsstring) (onSignal onNoise : nat)
      (target : Target) (w : World) :
  ∃ n l e,
    Signal.forceScanTarget userId onSignal onNoise target w = (Ret tt, advance n l w)
    ∧ Spec.emissions l = [inr (Scanning (displayName target)); e]
    ∧ Vocabulary.forcedResult (displayName target) e
    ∧ Spec.targetQueries l = [].
Proof.
  assert (Hbody : yields (Signal.forceScanTarget userId onSignal onNoise target) w
            (fun a _ l =>
               a = Ret tt
               ∧ ∃ e, Spec.emissions l = [inr (Scanning (displayName target)); e]
                      ∧ Vocabulary.forcedResult (displayName target) e
                      ∧ Spec.targetQueries l = [])).
  { unfold Signal.forceScanTarget, Signal.noise, Signal.notifyClient.
    apply yields_bind, yields_emit.
    apply yields_tryCatch.
    apply yields_bind.
    eapply yields_produces; [apply checkForSignal_produces|].
    intros [result|msg] n0 l0 _ Hl0;
      destruct (fetches_quiet l0 Hl0) as (He0 & _ & _ & _ & _ & _ & Hq0).
    2:{ apply yields_emit. split; [done|].
        eexists. unfold Spec.emissions, Spec.targetQueries in *.
        rewrite !omap_app, He0, Hq0. cbn. done. }
    apply yields_bind, yields_call.
    destruct (updateLastCheck _ _ _) as [[]|msg].
    2:{ apply yields_emit. split; [done|].
        eexists. unfold Spec.emissions, Spec.targetQueries in *.
        rewrite !omap_app, He0, Hq0. cbn. done. }
    destruct (0 <? _)%nat.
    2:{ apply yields_emit. split; [done|].
        eexists. unfold Spec.emissions, Spec.targetQueries in *.
        rewrite !omap_app, He0, Hq0. cbn. done. }
    apply yields_bind.
    eapply yields_produces; [apply analyzeSignal_produces|].
    intros [aiAnalysis|msg] n1 l1 Hwf Hl1; [|done].
    destruct (completions_quiet l1 Hl1) as (He1 & _ & _ & _ & _ & Hq1).
    apply yields_bind, yields_call.
    destruct (signalsCreate _ _) as [signalId|msg].
    - apply yields_emit. split; [done|].
      eexists. unfold Spec.emissions, Spec.targetQueries in *.
      rewrite !omap_app, He0, He1, Hq0, Hq1. cbn. done.
    - apply yields_emit. split; [done|].
      eexists. unfold Spec.emissions, Spec.targetQueries in *.
      rewrite !omap_app, He0, He1, Hq0, Hq1. cbn. done. }
  destruct Hbody as (a & n & l & Hrun & -> & e & He & Hn & Hq).
  by exists n, l, e.
Qed.

Lemma forceScanTargets_report (userId : jsstring) (onSignal onNoise : nat)
      (userTargets : list Target) (w : World) :
  ∃ n l results,
    Signal.forceScanTargets userId onSignal onNoise userTargets w
    = (Ret tt, advance n l w)
    ∧ Forall2 (fun target e => Vocabulary.forcedResult (displayName target) e)
              userTargets results
    ∧ Spec.emissions l
      = flat_map (fun tr => [inr (Scanning (displayName tr.1)); tr.2])
                 (zip userTargets results)
    ∧ Spec.targetQueries l = [].
Proof.
  revert w. induction userTargets as [|target rest IH]; intros w.
  - exists 0%nat, [], []. rewrite advance_0. by split_and!.
  - cbn [Signal.forceScanTargets]. rewrite run_bind.
    destruct (forceScanTarget_report userId onSignal onNoise target w)
      as (n1 & l1 & e & -> & He & Hr & Hq).
    destruct (IH (advance n1 l1 w)) as (n2 & l2 & results & -> & Hrs & Hes & Hqs).
    rewrite advance_advance. exists (n2 + n1)%nat, (l1 ++ l2), (e :: results).
    split_and!; [done|by constructor|..].
    + unfold Spec.emissions in *. rewrite omap_app, He, Hes. done.
    + unfold Spec.targetQueries in *. by rewrite omap_app, Hq, Hqs.
Qed.

End ForcedReports.

(** X22. When the targets load, the callbacks called by [forceScan] are, in
    order: the [[MANUAL SCAN INITIATED]] line; for each target in the order
    of the list, its [[SCANNING]] line followed by exactly one result about
    that target (a signal, a [[COMPLETE]] line or an error line); and the
    [[MANUAL SCAN COMPLETE]] line. A failure on one target does not stop the
    scan of the next ones. *)
Theorem forceScan_reports_each_target `{Runtime} `{Env} (userId : jsstring)
        (onSignal onNoise : nat) (userTargets : list Target) (w : World) :
  getActiveByUser (S (steps w)) userId = Ret userTargets →
  ∃ results,
    Forall2 (fun target e => Vocabulary.forcedResult (displayName target) e)
            userTargets results
    ∧ Spec.emissions (Spec.since w (Signal.forceScan userId onSignal onNoise w).2)
      = Vocabulary.forcedReports userTargets results.
Proof.
  intros Hload.
  assert (Hrun : ∃ n l results,
             Signal.forceScan userId onSignal onNoise w = (Ret tt, advance n l w)
             ∧ Forall2 (fun target e => Vocabulary.forcedResult (displayName target) e)
                       userTargets results
             ∧ Spec.emissions l = Vocabulary.forcedReports userTargets results).
  { unfold Signal.forceScan, Signal.noise.
    rewrite run_bind. unfold emit at 1. cbv beta iota.
    rewrite run_tryCatch, run_bind. unfold call at 1. cbn [steps log].
    rewrite Hload. cbv beta iota. rewrite run_bind.
    destruct (forceScanTargets_report userId onSignal onNoise userTargets
                (log (AGetActive userId) (log (AOnNoise onNoise ManualScanInitiated) w)))
      as (n & l & results & -> & Hrs & Hes & _).
    unfold emit. eexists _, _, results.
    rewrite !log_advance, !advance_advance. split_and!; [reflexivity|done|].
    unfold Spec.emissions, Vocabulary.forcedReports in *.
    by rewrite !omap_app, Hes. }
  destruct Hrun as (n & l & results & -> & Hrs & Hes). cbn [snd].
  rewrite since_advance. by exists results.
Qed.

Lemma forceScan_reports_each_target_witness :
  ∃ results,
    Forall2 (fun target e => Vocabulary.forcedResult (displayName target) e)
            Examples.bobTargets results
    ∧ Spec.emissions
        (Spec.since Signal.initial
           (Signal.forceScan (H := Examples.exampleRuntime) (H0 := Examples.exampleEnv)
                             (js "bob") 1 2 Signal.initial).2)
      = Vocabulary.forcedReports Examples.bobTargets results.
Proof.
  apply (forceScan_reports_each_target
           (H := Examples.exampleRuntime) (H0 := Examples.exampleEnv)).
  vm_compute. reflexivity.
Defined.

(** ** The creation of targets *)

Section Api.
Context `{Runtime} {Row : Type}.
Context (getByUser : jsstring → outcome (list Row)).
Context (create : Targets.NewTarget → outcome Row).
Context (parseInt : Targets.json → Targets.jsinteger).

Lemma trim_length (s : jsstring) : (length (trim s) ≤ length s)%nat.
Proof.
  unfold trim. destruct (trimStart_suffix s) as [pre Hpre].
  destruct (trimEnd_prefix (trimStart s)) as [post Hpost].
  rewrite Hpre at 2. rewrite Hpost at 2. rewrite !length_app. lia.
Qed.

Lemma sanitizedInterval_floor (v : Targets.jsinteger) :
  Vocabulary.atLeastAMinute
    (Targets.mathMax Targets.MIN_CHECK_INTERVAL (Targets.orDefault v 60)).
Proof.
  destruct v as [|[]|z]; cbn; try done; try (unfold Targets.MIN_CHECK_INTERVAL; lia).
  destruct z; cbn; unfold Targets.MIN_CHECK_INTERVAL; lia.
Qed.

Lemma trimmedName_shape (name : Targets.json) (n : jsstring) :
  Targets.trimmedName name = Some (Some n) →
  ∃ s, name = Targets.JsonString s ∧ n = trim s ∧ n ≠ [].
Proof.
  destruct name as [| | | |s| |]; try done. cbn.
  destruct (trim s) as [|c r] eqn:E; [done|]. intros [= <-]. by exists s.
Qed.

End Api.

Section Created.
Context `{Runtime} {Row : Type}.
Context (getByUser : jsstring → outcome (list Row)).
Context (create : Targets.NewTarget → outcome Row).
Context (parseInt : Targets.json → Targets.jsinteger).

Lemma validKeywords_shape (keywords : list jsstring) :
  Forall (fun k => (1 ≤ length k ≤ 100)%nat ∧ trim k = k)
         (List.filter
            (fun k => (0 <? length k)%nat && (length k <=? Targets.MAX_KEYWORD_LENGTH)%nat)
            (map trim keywords)).
Proof.
  apply List.Forall_forall. intros k [Hin Hk]%filter_In.
  apply andb_true_iff in Hk as [?%Nat.ltb_lt ?%Nat.leb_le].
  apply in_map_iff in Hin as (s & <- & _).
  split; [unfold Targets.MAX_KEYWORD_LENGTH in *; lia|apply trim_trim].
Qed.

(** The run of the handler when it reaches the storage. *)
Lemma postTarget_calls (userId : jsstring) (body : Targets.Body) :
  let run := Targets.postTarget getByUser create parseInt userId body in
  (run.1 = [] ∧ ∃ error, run.2 = Targets.BadRequest error)
  ∨ (run.1 = [Targets.DbGetByUser userId]
     ∧ (run.2 = Targets.ServerError (js "Failed to create target")
        ∨ run.2 = Targets.BadRequest (js "Maximum 20 targets allowed")))
  ∨ ∃ target existingTargets,
      run.1 = [Targets.DbGetByUser userId; Targets.DbCreate target]
      ∧ getByUser userId = Ret existingTargets
      ∧ (length existingTargets < 20)%nat
      ∧ Vocabulary.acceptedTarget userId body target
      ∧ run.2 = match create target with
                | Ret row => Targets.Created row
                | Throw _ => Targets.ServerError (js "Failed to create target")
                end.
Proof.
  unfold Targets.postTarget. cbv zeta.
  destruct (Targets.b_url body) as [| | | |[|c u]| |] eqn:Hurl; try (left; eauto; fail).
  destruct (Targets.MAX_URL_LENGTH <? len (c :: u)) eqn:Hlen; [left; eauto|].
  apply Z.ltb_ge in Hlen.
  destruct (Scraper.validateUrl (c :: u)) as [validatedUrl|msg] eqn:Hv; [|left; eauto].
  destruct (Targets.b_keywords body) as [| | | | |keywords|] eqn:Hk; try (left; eauto; fail).
  destruct ((length keywords =? 0)%nat || (Targets.MAX_KEYWORDS <? length keywords)%nat)
    eqn:Hcount; [left; eauto|].
  apply orb_false_iff in Hcount as [_ Hmax%Nat.ltb_ge].
  set (validKeywords := List.filter _ _).
  destruct (length validKeywords =? 0)%nat eqn:Hvalid; [left; eauto|].
  destruct (Targets.jsonTruthy (Targets.b_name body) && _) eqn:Hname; [left; eauto|].
  destruct (getByUser userId) as [existingTargets|msg]; [|right; left; eauto].
  destruct (Targets.MAX_TARGETS_PER_USER <=? length existingTargets)%nat eqn:Hlimit;
    [right; left; eauto|].
  apply Nat.leb_gt in Hlimit.
  destruct (Targets.trimmedName (Targets.b_name body)) as [name|] eqn:Htrim;
    [|right; left; eauto].
  right. right. eexists _, existingTargets.
  split_and!; [by destruct (create _)|done|done| |by destruct (create _)].
  unfold Vocabulary.acceptedTarget.
  cbn [Targets.nt_user_id Targets.nt_is_active Targets.nt_url Targets.nt_keywords
       Targets.nt_name Targets.nt_check_interval].
  split_and!; [done|done|..].
  - exists (c :: u), validatedUrl. by split_and!.
  - exists keywords. split_and!; [done|done|apply filter_sublist].
  - intros E. by rewrite E in Hvalid.
  - apply validKeywords_shape.
  - destruct name as [name|]; [|done].
    apply trimmedName_shape in Htrim as (s & Hs & -> & Hne).
    split_and!; [done|apply trim_trim|].
    rewrite Hs in Hname. cbn [Targets.jsonTruthy] in Hname.
    destruct s as [|c0 s]; [done|].
    rewrite bool_decide_eq_false_2 in Hname by done. cbn [negb andb] in Hname.
    apply Z.ltb_ge in Hname. pose proof (trim_length (c0 :: s)).
    unfold len, Targets.MAX_NAME_LENGTH in *. lia.
  - apply sanitizedInterval_floor.
Qed.

End Created.

(** X23. The handler of POST /api/targets gives [targets.create] nothing but
    valid targets. Whenever it calls [targets.create], the target is for the
    user of the session and active; its URL is the trimmed URL of the body,
    a string of at most 2048 code units that [validateUrl] accepts; its
    keywords are at least one and at most twenty of the trimmed strings of
    the body's array, in their order, each of 1 to 100 code units; its name
    is null or a non-empty trimmed string of at most 200 code units; its
    check interval is at least 60; and the user had fewer than twenty
    targets. *)
Theorem post_creates_only_valid_targets `{Runtime} {Row : Type}
        (getByUser : jsstring → outcome (list Row))
        (create : Targets.NewTarget → outcome Row)
        (parseInt : Targets.json → Targets.jsinteger)
        (userId : jsstring) (body : Targets.Body) (target : Targets.NewTarget) :
  Targets.DbCreate target ∈ (Targets.postTarget getByUser create parseInt userId body).1 →
  Vocabulary.acceptedTarget userId body target
  ∧ ∃ existingTargets,
      getByUser userId = Ret existingTargets ∧ (length existingTargets < 20)%nat.
Proof.
  intros Hin.
  destruct (postTarget_calls getByUser create parseInt userId body)
    as [[Hc _]|[[Hc _]|(t & existing & Hc & Hload & Hcount & Ht & _)]];
    rewrite Hc in Hin.
  - by apply elem_of_nil in Hin.
  - apply list_elem_of_singleton in Hin. done.
  - apply elem_of_cons in Hin as [Hin|Hin]; [done|].
    apply list_elem_of_singleton in Hin. injection Hin as ->. eauto.
Qed.

Lemma post_creates_only_valid_targets_witness :
  Targets.postTarget (H := Examples.exampleRuntime) Scenarios.emptyStore
                     Scenarios.storeRow Scenarios.parseThirty
                     (js "alice") Scenarios.newsBody
  = ([Targets.DbGetByUser (js "alice"); Targets.DbCreate Scenarios.newsTarget],
     Targets.Created Scenarios.newsTarget)
  ∧ Vocabulary.acceptedTarget (H := Examples.exampleRuntime)
                               (js "alice") Scenarios.newsBody Scenarios.newsTarget.
Proof.
  split; [vm_compute; reflexivity|].
  apply (post_creates_only_valid_targets
           (H := Examples.exampleRuntime) Scenarios.emptyStore Scenarios.storeRow
           Scenarios.parseThirty (js "alice") Scenarios.newsBody Scenarios.newsTarget).
  apply list_elem_of_In. vm_compute. right. left. reflexivity.
Defined.

(** X24. The responses of POST /api/targets. It answers 201 exactly when
    it called [targets.create], after [targets.getByUser], and the call
    returned; the body then carries the row returned. A response 500 always
    says "Failed to create target", whatever was thrown. A response 400
    means that nothing was created. A URL that [validateUrl] refuses is
    answered 400 before the storage is touched. *)
Theorem post_replies `{Runtime} {Row : Type}
        (getByUser : jsstring → outcome (list Row))
        (create : Targets.NewTarget → outcome Row)
        (parseInt : Targets.json → Targets.jsinteger)
        (userId : jsstring) (body : Targets.Body) :
  let run := Targets.postTarget getByUser create parseInt userId body in
  (∀ row, run.2 = Targets.Created row
          ↔ ∃ target, run.1 = [Targets.DbGetByUser userId; Targets.DbCreate target]
                      ∧ create target = Ret row)
  ∧ (∀ error, run.2 = Targets.ServerError error → error = js "Failed to create target")
  ∧ (Targets.status run.2 = 400 → ∀ target, Targets.DbCreate target ∉ run.1)
  ∧ (∀ url msg, Targets.b_url body = Targets.JsonString url →
                Scraper.validateUrl url = Throw msg →
                run.1 = [] ∧ Targets.status run.2 = 400).
Proof.
  intros run.
  pose proof (postTarget_calls getByUser create parseInt userId body) as Hrun.
  cbv zeta in Hrun. fold run in Hrun.
  split_and!.
  - intros row. split.
    + intros Hr.
      destruct Hrun as [[_ [e He]]|[[_ [He|He]]|(t & ex & Hc & _ & _ & _ & He)]];
        try congruence.
      exists t. split; [done|]. rewrite Hr in He.
      destruct (create t); congruence.
    + intros (target & Hc & Hrow).
      destruct Hrun as [[Hc' _]|[[Hc' _]|(t & ex & Hc' & _ & _ & _ & He)]];
        try congruence.
      rewrite Hc in Hc'. injection Hc' as ->. by rewrite He, Hrow.
  - intros error Hr.
    destruct Hrun as [[_ [e He]]|[[_ [He|He]]|(t & ex & Hc & _ & _ & _ & He)]];
      try congruence.
    rewrite Hr in He. destruct (create t); congruence.
  - intros Hs target Hin.
    destruct Hrun as [[Hc _]|[[Hc _]|(t & ex & Hc & _ & _ & _ & He)]];
      rewrite Hc in Hin.
    + by apply elem_of_nil in Hin.
    + apply list_elem_of_singleton in Hin. done.
    + rewrite He in Hs. by destruct (create t).
  - intros url msg Hurl Hv. unfold run, Targets.postTarget. cbv zeta.
    rewrite Hurl. destruct url as [|c u]; [done|].
    destruct (_ <? _); [done|]. by rewrite Hv.
Qed.

(** ** The noise *)

Section NoiseFormat.
Context `{Noise.Random}.

Lemma hexDigit_hex (d : N) : (d < 16)%N → Vocabulary.isHex (Noise.hexDigit d) = true.
Proof.
  intros Hd. unfold Noise.hexDigit, Vocabulary.isHex, isDigit.
  destruct (N.ltb_spec d 10); apply orb_true_iff; [left|right];
    apply andb_true_iff; split; apply N.leb_le; lia.
Qed.

Lemma toHex_hex (digits : nat) (n : N) :
  Forall (fun c => Vocabulary.isHex c = true) (Noise.toHex digits n).
Proof.
  revert n. induction digits as [|digits IH]; intros n; [constructor|].
  cbn [Noise.toHex]. apply Forall_app. split.
  - destruct (_ =? 0)%N; [constructor|apply IH].
  - repeat constructor. apply hexDigit_hex. apply N.mod_lt. lia.
Qed.

Lemma toHex_length (digits : nat) (n : N) (d : nat) :
  (n < 16 ^ N.of_nat (S d))%N → (length (Noise.toHex digits n) ≤ S d)%nat.
Proof.
  revert n d. induction digits as [|digits IH]; intros n d Hn; [cbn; lia|].
  cbn [Noise.toHex]. rewrite length_app. cbn [length].
  destruct (N.eqb_spec (n / 16) 0) as [_|Hq]; [cbn; lia|].
  destruct d as [|d].
  - exfalso. apply Hq. apply N.div_small. change (16 ^ N.of_nat 1)%N with 16%N in Hn. lia.
  - specialize (IH (n / 16)%N d).
    assert (n / 16 < 16 ^ N.of_nat (S d))%N.
    { apply N.Div0.div_lt_upper_bound.
      replace (N.of_nat (S (S d))) with (N.succ (N.of_nat (S d))) in Hn by lia.
      by rewrite N.pow_succ_r' in Hn. }
    specialize (IH ltac:(done)). lia.
Qed.

Lemma padded_field (n : N) (d : nat) :
  (n < 16 ^ N.of_nat (S d))%N →
  Vocabulary.hexField (S d) (Noise.padStart (Noise.toString16 n) (S d) 48).
Proof.
  intros Hn. unfold Noise.padStart, Noise.toString16.
  pose proof (toHex_length (S (N.to_nat (N.log2 n))) n d Hn) as Hlen.
  split.
  - rewrite length_app, length_replicate. lia.
  - apply Forall_app. split; [|apply toHex_hex].
    apply Forall_replicate. done.
Qed.

Lemma noiseLine_shape (i : nat) : Vocabulary.dumpLine (Noise.noiseLine i).
Proof.
  unfold Noise.noiseLine. cbv zeta. eexists _, _. split_and!; [reflexivity|..].
  - apply (padded_field _ 5).
    apply (N.lt_trans _ 16777215); [apply Noise.randomBelow_lt; lia|reflexivity].
  - by rewrite length_map, length_seq.
  - apply Forall_map, Forall_forall. intros j _.
    apply (padded_field _ 1).
    apply (N.lt_le_trans _ 256); [apply Noise.randomBelow_lt; lia|].
    by apply N.leb_le.
Qed.

End NoiseFormat.

(** X25. [generateNoise] returns one to three lines separated by line
    feeds, each made of [0x], an address of exactly six hexadecimal digits,
    a colon and a space, and sixteen bytes of exactly two hexadecimal
    digits separated by single spaces (lower-case digits, padded with
    zeros). *)
Theorem generateNoise_format `{Noise.Random} (i : nat) :
  ∃ lines,
    Noise.generateNoise i = join [10%N] lines
    ∧ (1 ≤ length lines ≤ 3)%nat
    ∧ Forall Vocabulary.dumpLine lines.
Proof.
  unfold Noise.generateNoise. cbv zeta. eexists. split_and!; [reflexivity|..].
  - rewrite length_map, length_seq. lia.
  - rewrite length_map, length_seq.
    pose proof (Noise.randomBelow_lt 3 i ltac:(lia)). lia.
  - apply Forall_map, Forall_forall. intros l _. apply noiseLine_shape.
Qed.

(** With the cyclic draws, the dump whose first draw is the fourth has two
    lines, the first of which starts with the bytes 05 to 14. *)
Example a_noise_dump :
  Noise.generateNoise (H := Scenarios.cyclicDraws) 4
  = js "0x000015: 05 06 07 08 09 0a 0b 0c 0d 0e 0f 10 11 12 13 14" ++ [10%N]
    ++ js "0x000026: 16 17 18 19 1a 1b 1c 1d 1e 1f 20 21 22 23 24 25".
Proof. vm_compute. reflexivity. Qed.

(** ** The requests and the forced cycle, from what was found *)

Section HandedOver.
Context `{Runtime} `{Env}.

Lemma controlsRemoved_filter (text stripped : jsstring) :
  Spec.ControlsRemoved text stripped
  ↔ stripped = List.filter (fun c => negb (Insforge.isControl c)) text.
Proof.
  split.
  - induction 1 as [|c text stripped Hc _ IH|c text stripped Hc _ IH]; cbn;
      rewrite ?Hc; cbn; congruence.
  - intros ->. induction text as [|c text IH]; cbn; [constructor|].
    destruct (Insforge.isControl c) eqn:Hc; cbn; by constructor.
Qed.

Lemma fencesReplaced_replaceFences (text replaced : jsstring) :
  Spec.FencesReplaced text replaced ↔ replaced = Insforge.replaceFences text.
Proof.
  split.
  - induction 1 as [|text replaced _ IH|c text replaced Hc _ IH]; [done|..].
    + by rewrite replaceFences_fence, IH.
    + by rewrite replaceFences_other, IH.
  - intros ->. remember (length text) as n eqn:Hn.
    revert text Hn. induction (lt_wf n) as [n _ IH]. intros text ->.
    destruct text as [|c text]; [constructor|].
    destruct (fence_cases (c :: text)) as [[r Hr]|Hno].
    + rewrite Hr, replaceFences_fence. constructor.
      apply (IH (length r)); [|done]. rewrite Hr. cbn. lia.
    + rewrite replaceFences_other by done. constructor; [done|].
      apply (IH (length text)); [cbn; lia|done].
Qed.

Lemma sanitizedFrom_sanitizeInput (text excerpt : jsstring) :
  Spec.sanitizedFrom text excerpt ↔ excerpt = Insforge.sanitizeInput text.
Proof.
  unfold Spec.sanitizedFrom, Insforge.sanitizeInput.
  rewrite substring_prefix by lia. change (Z.to_nat 2000) with 2000%nat.
  split.
  - intros (stripped & replaced & Hs%controlsRemoved_filter
            & Hr%fencesReplaced_replaceFences & ->). by subst.
  - intros ->. eexists _, _. split_and!; [|by apply fencesReplaced_replaceFences|done].
    by apply controlsRemoved_filter.
Qed.

Lemma sanitizeKeywords_from (keywords : list jsstring) :
  Insforge.sanitizeKeywords keywords = omap Spec.keywordFrom keywords.
Proof.
  induction keywords as [|k ks IH]; [done|].
  rewrite sanitizeKeywords_cons.
  change (omap Spec.keywordFrom (k :: ks))
    with (match Spec.keywordFrom k with
          | Some kept => kept :: omap Spec.keywordFrom ks
          | None => omap Spec.keywordFrom ks
          end).
  unfold Spec.keywordFrom at 1. cbv zeta. rewrite IH.
  set (kept := trim _).
  destruct (bool_decide (0 < length kept < 50)%nat) eqn:E.
  - apply bool_decide_eq_true in E as [E1 E2].
    apply Nat.ltb_lt in E1, E2. by rewrite E1, E2.
  - apply bool_decide_eq_false in E.
    destruct (0 <? length kept)%nat eqn:E1, (length kept <? 50)%nat eqn:E2; try done.
    exfalso. apply E. split; [by apply Nat.ltb_lt|by apply Nat.ltb_lt].
Qed.

Lemma analyzeSignal_adds (content : jsstring) (keywords : list jsstring) (w : World) :
  Insforge.analyzeSignal content keywords w
  = (Ret (Spec.analysisAt (steps w) content keywords),
     advance (length (Spec.requestFor content keywords))
             (Spec.requestFor content keywords) w).
Proof.
  rewrite analyzeSignal_run. unfold Spec.analysisAt, Spec.requestFor.
  rewrite <- sanitizeKeywords_from.
  destruct (Insforge.sanitizeKeywords keywords) as [|k ks].
  - by rewrite advance_0.
  - by rewrite log_advance.
Qed.

Lemma requestFor_completions (content : jsstring) (keywords : list jsstring) :
  Forall (fun a => Spec.isCompletion a ∧ Spec.sanitizedRequest a)
         (Spec.requestFor content keywords).
Proof.
  unfold Spec.requestFor. rewrite <- sanitizeKeywords_from.
  pose proof (sanitizeKeywords_sanitized keywords) as Hk.
  destruct (Insforge.sanitizeKeywords keywords) as [|k ks]; [constructor|].
  constructor; [|constructor]. split; [done|].
  split; [apply sanitizeInput_sanitized|done].
Qed.

(** The scan of a target whose check returned with matches, action by
    action. *)
Lemma scanTarget_checked (userId : jsstring) (onSignal onNoise : nat)
      (target : Target) (w w1 : World) (result : ScanResult) :
  Scraper.checkForSignal (t_url target) (t_keywords target) (t_last_hash target) w
  = (Ret result, w1) →
  updateLastCheck (steps w1) (t_id target) (hash result) = Ret tt →
  matches result ≠ [] →
  let requests :=
    if truthy (JString (content result))
    then Spec.requestFor (content result) (matches result) else [] in
  let ai :=
    if truthy (JString (content result))
    then Some (Spec.analysisAt (S (steps w1)) (content result) (matches result))
    else None in
  let record := Signal.signalRecord target userId result ai in
  let k := (length requests + S (steps w1))%nat in
  Signal.scanTarget userId onSignal onNoise target w
  = (Ret tt,
     advance (length requests + 4)
       ([AUpdateLastCheck (t_id target) (hash result)] ++ requests
        ++ [ASignalsCreate record;
            match signalsCreate k record with
            | Ret signalId =>
                AOnSignal onSignal
                  (mkSignalEvent signalId (displayName target) (t_url target)
                                 (matches result) (content result) ai (isoNow (S k)))
            | Throw msg => AOnNoise onNoise (ScanError (displayName target) msg)
            end])
       w1).
Proof.
  intros Hc Hu Hm requests ai record k. unfold Signal.scanTarget.
  rewrite run_bind, run_tryCatch, run_bind, Hc. cbv beta iota.
  rewrite run_bind. unfold call at 1. rewrite Hu. cbv beta iota.
  replace (0 <? length (matches result))%nat with true
    by (destruct (matches result); done).
  rewrite run_bind.
  assert (Hai : (if truthy (JString (content result))
                 then a ← Insforge.analyzeSignal (content result) (matches result);
                      mret (Some a)
                 else mret None)
                  (log (AUpdateLastCheck (t_id target) (hash result)) w1)
                = (Ret ai, advance (length requests) requests
                             (log (AUpdateLastCheck (t_id target) (hash result)) w1))).
  { unfold ai, requests. destruct (truthy _).
    - by rewrite run_bind, analyzeSignal_adds.
    - by rewrite advance_0. }
  rewrite Hai. cbv beta iota.
  rewrite run_bind. unfold call at 1. cbn [steps advance log].
  fold k. fold record.
  destruct (signalsCreate k record) as [signalId|msg]; cbv beta iota;
    unfold Signal.notifyClient, Signal.noise, emit, sleep;
    rewrite !log_advance, pass_advance, !advance_advance;
    cbn [steps advance]; f_equal; f_equal; try lia;
    rewrite <- ?app_assoc, ?app_nil_r; cbn [app]; repeat f_equal; lia.
Qed.




Lemma forceScanTarget_checked (userId : jsstring) (onSignal onNoise : nat)
      (target : Target) (w w1 : World) (result : ScanResult) :
  Scraper.checkForSignal (t_url target) (t_keywords target) None
                         (log (AOnNoise onNoise (Scanning (displayName target))) w)
  = (Ret result, w1) →
  updateLastCheck (steps w1) (t_id target) (hash result) = Ret tt →
  matches result ≠ [] →
  let requests := Spec.requestFor (content result) (matches result) in
  let ai := Some (Spec.analysisAt (S (steps w1)) (content result) (matches result)) in
  let record := Signal.signalRecord target userId result ai in
  let k := (length requests + S (steps w1))%nat in
  Signal.forceScanTarget userId onSignal onNoise target w
  = (Ret tt,
     advance (length requests + 3)
       ([AUpdateLastCheck (t_id target) (hash result)] ++ requests
        ++ [ASignalsCreate record;
            match signalsCreate k record with
            | Ret signalId =>
                AOnSignal onSignal
                  (mkSignalEvent signalId (displayName target) (t_url target)
                                 (matches result) (content result) ai (isoNow (S k)))
            | Throw msg => AOnNoise onNoise (ScanError (displayName target) msg)
            end])
       w1).
Proof.
  intros Hc Hu Hm requests ai record k.
  unfold Signal.forceScanTarget, Signal.noise.
  rewrite run_bind. unfold emit at 1. cbv beta iota.
  rewrite run_tryCatch, run_bind, Hc. cbv beta iota.
  rewrite run_bind. unfold call at 1. rewrite Hu. cbv beta iota.
  replace (0 <? length (matches result))%nat with true
    by (destruct (matches result); done).
  rewrite run_bind, analyzeSignal_adds. cbv beta iota.
  rewrite run_bind. unfold call at 1. cbn [steps advance log].
  fold requests. fold k. fold ai. fold record.
  destruct (signalsCreate k record) as [signalId|msg]; cbv beta iota;
    unfold Signal.notifyClient, Signal.noise, emit;
    rewrite !log_advance, !advance_advance;
    cbn [steps advance]; f_equal; f_equal; try lia;
    rewrite <- ?app_assoc, ?app_nil_r; cbn [app]; repeat f_equal; lia.
Qed.

End HandedOver.

Section Requests.
Context `{Runtime} `{Env}.

Lemma scanTarget_requests (userId : jsstring) (onSignal onNoise : nat)
      (target : Target) (w w1 : World) (result : ScanResult) :
  Scraper.checkForSignal (t_url target) (t_keywords target) (t_last_hash target) w
  = (Ret result, w1) →
  updateLastCheck (steps w1) (t_id target) (hash result) = Ret tt →
  matches result ≠ [] →
  Spec.completions (Spec.since w (Signal.scanTarget userId onSignal onNoise target w).2)
  = Spec.completions
      (if truthy (JString (content result))
       then Spec.requestFor (content result) (matches result) else []).
Proof.
  intros Hc Hu Hm.
  rewrite (scanTarget_checked userId onSignal onNoise target w w1 result Hc Hu Hm).
  cbv zeta. cbn [snd].
  destruct (checkForSignal_frame (t_url target) (t_keywords target)
                                 (t_last_hash target) w) as (n0 & l0 & Hw1 & Hl0).
  rewrite Hc in Hw1. cbn [snd] in Hw1. subst w1.
  destruct (fetches_quiet l0 Hl0) as (_ & _ & _ & _ & _ & Hc0 & _).
  rewrite advance_advance, since_advance. unfold Spec.completions in *.
  rewrite !omap_app, Hc0. cbn [omap app].
  destruct (signalsCreate _ _); cbn; by rewrite app_nil_r.
Qed.

Lemma forceScanTarget_requests (userId : jsstring) (onSignal onNoise : nat)
      (target : Target) (w w1 : World) (result : ScanResult) :
  Scraper.checkForSignal (t_url target) (t_keywords target) None
                         (log (AOnNoise onNoise (Scanning (displayName target))) w)
  = (Ret result, w1) →
  updateLastCheck (steps w1) (t_id target) (hash result) = Ret tt →
  matches result ≠ [] →
  Spec.completions
    (Spec.since w (Signal.forceScanTarget userId onSignal onNoise target w).2)
  = Spec.completions (Spec.requestFor (content result) (matches result)).
Proof.
  intros Hc Hu Hm.
  rewrite (forceScanTarget_checked userId onSignal onNoise target w w1 result Hc Hu Hm).
  cbv zeta. cbn [snd].
  destruct (checkForSignal_frame (t_url target) (t_keywords target) None
              (log (AOnNoise onNoise (Scanning (displayName target))) w))
    as (n0 & l0 & Hw1 & Hl0).
  rewrite Hc in Hw1. cbn [snd] in Hw1. subst w1.
  destruct (fetches_quiet l0 Hl0) as (_ & _ & _ & _ & _ & Hc0 & _).
  rewrite log_advance, !advance_advance, since_advance. unfold Spec.completions in *.
  rewrite !omap_app, Hc0. cbn [omap app].
  destruct (signalsCreate _ _); cbn; by rewrite app_nil_r.
Qed.

End Requests.

(** C7. What is handed to the summarizer is the sanitized form of what was
    found. The excerpt made by [sanitizeInput] has no ASCII control
    character and no run of three backticks and is at most 2000 code units
    long, and it is the text it was given with the control characters
    removed, every run of three backticks replaced by three hyphens, and the
    result cut at 2000. The keywords kept by [sanitizeKeywords] are
    non-empty, shorter than 50 and made of word characters, white space, CJK
    ideographs and hyphens, and they are, in order, what is left of each
    keyword given once the other characters are removed and the ends
    trimmed. [analyzeSignal] sends one request, with these two, and none
    when no keyword is left. In a tick and in a forced scan of a target
    whose check returned matches, the request is the one for the excerpt
    and the matches that the check found. And in every history of the
    engine, whatever operations ran, each request to the summarizer carries
    a sanitized excerpt and sanitized keywords. *)
Theorem summarizer_input_sanitized `{Runtime} `{Env} :
  (∀ text, Spec.sanitizedExcerpt (Insforge.sanitizeInput text))
  ∧ (∀ keywords, Forall Spec.sanitizedKeyword (Insforge.sanitizeKeywords keywords))
  ∧ (∀ text excerpt,
       Spec.sanitizedFrom text excerpt ↔ excerpt = Insforge.sanitizeInput text)
  ∧ (∀ keywords, Insforge.sanitizeKeywords keywords = omap Spec.keywordFrom keywords)
  ∧ (∀ content keywords w,
       Spec.since w (Insforge.analyzeSignal content keywords w).2
       = Spec.requestFor content keywords
       ∧ Forall (fun a => Spec.isCompletion a ∧ Spec.sanitizedRequest a)
                (Spec.since w (Insforge.analyzeSignal content keywords w).2))
  ∧ (∀ userId onSignal onNoise target w w1 result,
       Scraper.checkForSignal (t_url target) (t_keywords target) (t_last_hash target) w
       = (Ret result, w1) →
       updateLastCheck (steps w1) (t_id target) (hash result) = Ret tt →
       matches result ≠ [] →
       Spec.completions
         (Spec.since w (Signal.scanTarget userId onSignal onNoise target w).2)
       = Spec.completions
           (if truthy (JString (content result))
            then Spec.requestFor (content result) (matches result) else []))
  ∧ (∀ userId onSignal onNoise target w w1 result,
       Scraper.checkForSignal (t_url target) (t_keywords target) None
                              (log (AOnNoise onNoise (Scanning (displayName target))) w)
       = (Ret result, w1) →
       updateLastCheck (steps w1) (t_id target) (hash result) = Ret tt →
       matches result ≠ [] →
       Spec.completions
         (Spec.since w (Signal.forceScanTarget userId onSignal onNoise target w).2)
       = Spec.completions (Spec.requestFor (content result) (matches result)))
  ∧ (∀ ops, Forall Spec.sanitizedRequest (trace (Signal.run ops Signal.initial))).
Proof.
  split_and!.
  - apply sanitizeInput_sanitized.
  - apply sanitizeKeywords_sanitized.
  - apply sanitizedFrom_sanitizeInput.
  - apply sanitizeKeywords_from.
  - intros content keywords w. rewrite analyzeSignal_adds. cbn [snd].
    rewrite since_advance. split; [done|apply requestFor_completions].
  - apply scanTarget_requests.
  - apply forceScanTarget_requests.
  - intros ops.
    assert (Hgen : ∀ w, Forall Spec.sanitizedRequest (trace w) →
                        Forall Spec.sanitizedRequest (trace (Signal.run ops w))).
    { induction ops as [|op ops IH]; intros w Hw; [done|].
      cbn. by apply IH, step_sanitized. }
    by apply Hgen.
Qed.

Lemma summarizer_input_sanitized_witness :
  Spec.sanitizedFrom (js "a" ++ [7%N] ++ Insforge.fence ++ js "b") (js "a---b")
  ∧ Insforge.sanitizeKeywords [js " AI! "; js "#"; js "robot"] = [js "AI"; js "robot"]
  ∧ Spec.completions
      (Spec.since Signal.initial
         (Signal.scanTarget (H := Examples.exampleRuntime) (H0 := Examples.exampleEnv)
                            (js "alice") 1 2 Examples.aliceTarget Signal.initial).2)
    = [([js "AI"], Examples.pageText)].
Proof.
  pose proof (summarizer_input_sanitized
                (H := Examples.exampleRuntime) (H0 := Examples.exampleEnv))
    as (_ & _ & Hfrom & Hkeywords & _ & Htick & _).
  split_and!.
  - apply Hfrom. vm_compute. reflexivity.
  - rewrite Hkeywords. vm_compute. reflexivity.
  - rewrite (Htick (js "alice") 1%nat 2%nat Examples.aliceTarget Signal.initial
                   (log (AFetch (js "https://example.com/")) Signal.initial)
                   (mkScanResult true [js "AI"] Examples.pageText (js "27")));
      [vm_compute; reflexivity..|done].
Defined.

Section Cycles.
Context `{Runtime} `{Env}.

Lemma checkForSignal_world (url : jsstring) (keywords : list jsstring)
      (lastHash : option jsstring) (w : World) :
  (Scraper.checkForSignal url keywords lastHash w).2 = (Scraper.scrape url w).2.
Proof.
  unfold Scraper.checkForSignal. rewrite run_bind.
  destruct (Scraper.scrape url w) as [[[text fingerprint]|msg] w1]; [|done].
  destruct (negb _); [done|]. by destruct (_ =? _)%nat.
Qed.

Lemma checkForSignal_fetches (url : jsstring) (keywords : list jsstring)
      (lastHash : option jsstring) (w : World) :
  ∃ n l, (Scraper.checkForSignal url keywords lastHash w).2 = advance n l w
         ∧ Forall Spec.isFetch l
         ∧ Vocabulary.fetches l = Vocabulary.guardedFetch url.
Proof.
  rewrite checkForSignal_world, scrape_run. unfold Vocabulary.guardedFetch.
  destruct (Scraper.validateUrl url) as [validatedUrl|msg].
  - exists 1%nat, [AFetch validatedUrl]. rewrite <- log_advance.
    split; [|split; [by repeat constructor|done]].
    destruct (fetchPage _ _) as [response|msg]; [|done].
    destruct (negb _); [done|].
    destruct (r_contentLength response) as [n|]; [destruct (_ <? n)|]; done.
  - exists 0%nat, []. by rewrite advance_0.
Qed.

Lemma requests_quiet (l : list Action) :
  Forall (fun a => Spec.isCompletion a ∧ Spec.sanitizedRequest a) l →
  Vocabulary.fetches l = [].
Proof.
  induction 1 as [|a l [Ha _] _ IH]; [done|]. by destruct a.
Qed.





End Cycles.



(** ** Starts and stops that land inside another operation *)

(** X12. A call of [startMonitoring] is its awaited [stopMonitoring]
    followed by the rest of the function. When nothing runs on the module
    between the two, the call creates a fresh session, whatever the state:
    it returns the identifier of a new session object, [getStatus] then
    reports the user active with that identifier, and the session is running
    and holds a new pending timer whose callback captured that session and
    the two callbacks just given. When a session of the user is registered
    by the time the rest of the function runs (another start completed
    during the [await]), it takes the "Session already exists" branch: it
    returns the identifier of the registered session and changes nothing,
    so its own callbacks are never called. Of two starts whose stops have
    both run, the one that goes on second gets the session of the first. *)
Theorem startMonitoring_status `{Runtime} `{Env} (userId : jsstring)
        (onSignal onNoise : nat) (w : World) :
  Signal.startMonitoring userId onSignal onNoise w
  = (Signal.stopMonitoring userId;; Signal.startAfterStop userId onSignal onNoise) w
  ∧ (∃ id session handle,
       (Signal.startMonitoring userId onSignal onNoise w).1 = Ret id
       ∧ Signal.getStatus userId (Signal.startMonitoring userId onSignal onNoise w).2
         = (true, Some id)
       ∧ activeSessions (Signal.startMonitoring userId onSignal onNoise w).2 !! userId
         = Some session
       ∧ heap (Signal.startMonitoring userId onSignal onNoise w).2 !! session
         = Some (mkSession id userId (Some handle) true)
       ∧ timers (Signal.startMonitoring userId onSignal onNoise w).2 !! handle
         = Some (mkClosure session userId onSignal onNoise)
       ∧ session = nextRef w ∧ handle = nextTimer w)
  ∧ (∀ session,
       activeSessions w !! userId = Some session →
       Signal.startAfterStop userId onSignal onNoise w
       = (Ret (Signal.sessionIdOf w session), w))
  ∧ (∀ onSignal' onNoise',
       activeSessions w !! userId = None →
       ∃ id,
         (Signal.startAfterStop userId onSignal onNoise w).1 = Ret id
         ∧ Signal.startAfterStop userId onSignal' onNoise'
             (Signal.startAfterStop userId onSignal onNoise w).2
           = (Ret id, (Signal.startAfterStop userId onSignal onNoise w).2)).
Proof.
  split_and!.
  - reflexivity.
  - rewrite startMonitoring_run. cbv zeta.
    set (w1 := (Signal.stopMonitoring userId w).2).
    assert (nextRef w1 = nextRef w ∧ nextTimer w1 = nextTimer w) as [Hr Ht].
    { unfold w1, Signal.stopMonitoring.
      destruct (activeSessions w !! userId) as [session|]; [|done].
      by destruct (_ ≫= s_interval). }
    eexists _, (nextRef w1), (nextTimer w1). cbn [fst snd].
    split_and!; [done| | | | |done|done].
    + unfold Signal.getStatus, Signal.sessionIdOf. cbn [activeSessions heap].
      rewrite !lookup_insert_eq. done.
    + cbn [activeSessions]. by rewrite lookup_insert_eq.
    + cbn [heap]. by rewrite lookup_insert_eq.
    + cbn [timers]. by rewrite lookup_insert_eq.
  - intros session Hs. unfold Signal.startAfterStop. by rewrite Hs.
  - intros onSignal' onNoise' Hnone. unfold Signal.startAfterStop at 1 3 4.
    rewrite Hnone. cbv zeta. cbn [fst snd]. eexists. split; [done|].
    unfold Signal.startAfterStop, Signal.sessionIdOf. cbn [activeSessions heap].
    rewrite !lookup_insert_eq. done.
Qed.

Lemma startMonitoring_status_witness :
  Signal.startAfterStop (H0 := Examples.exampleEnv) (js "alice") 3 4 Examples.aliceRunning
  = (Ret (js "session_1766188800000"), Examples.aliceRunning)
  ∧ ∃ id,
      (Signal.startAfterStop (H0 := Examples.exampleEnv) (js "alice") 1 2
                              Signal.initial).1 = Ret id
      ∧ Signal.startAfterStop (H0 := Examples.exampleEnv) (js "alice") 3 4
          (Signal.startAfterStop (H0 := Examples.exampleEnv) (js "alice") 1 2
                                  Signal.initial).2
        = (Ret id, (Signal.startAfterStop (H0 := Examples.exampleEnv) (js "alice") 1 2
                                           Signal.initial).2).
Proof.
  split.
  - apply (proj1 (proj2 (proj2 (startMonitoring_status
                                  (H := Examples.exampleRuntime)
                                  (H0 := Examples.exampleEnv)
                                  (js "alice") 3 4 Examples.aliceRunning))) 0%nat).
    vm_compute. reflexivity.
  - apply (proj2 (proj2 (proj2 (startMonitoring_status
                                  (H := Examples.exampleRuntime)
                                  (H0 := Examples.exampleEnv)
                                  (js "alice") 1 2 Signal.initial))) 3%nat 4%nat).
    vm_compute. reflexivity.
Defined.

Section InFlight.
Context `{Runtime} `{Env}.

Lemma scanTarget_cycle (userId : jsstring) (onSignal onNoise : nat)
      (target : Target) (w : World) :
  ∃ n l e,
    Signal.scanTarget userId onSignal onNoise target w = (Ret tt, advance n l w)
    ∧ Vocabulary.fetches l = Vocabulary.guardedFetch (t_url target)
    ∧ Spec.emissions l = [e]
    ∧ Vocabulary.namedTarget e = Some (displayName target).
Proof.
  destruct (checkForSignal_fetches (t_url target) (t_keywords target)
                                   (t_last_hash target) w) as (n0 & l0 & Hw1 & Hl0 & Hf0).
  destruct (fetches_quiet l0 Hl0) as (He0 & _).
  destruct (Scraper.checkForSignal (t_url target) (t_keywords target)
                                   (t_last_hash target) w) as [[result|msg] w1] eqn:Hc;
    cbn [snd] in Hw1; subst w1.
  - destruct (updateLastCheck (steps (advance n0 l0 w)) (t_id target) (hash result))
      as [[]|msg] eqn:Hu.
    + destruct (decide (matches result = [])) as [Hm|Hm].
      * rewrite (scanTarget_no_match _ _ _ _ _ _ _ Hc Hu Hm).
        rewrite advance_advance. eexists _, _, _. split; [done|].
        unfold Vocabulary.fetches, Spec.emissions in *.
        rewrite !omap_app, He0, Hf0. cbn. rewrite app_nil_r.
        split_and!; [done|done|]. by destruct (changed result).
      * rewrite (scanTarget_checked _ _ _ _ _ _ _ Hc Hu Hm). cbv zeta.
        set (requests := if truthy _ then _ else _).
        assert (Hr : Forall (fun a => Spec.isCompletion a ∧ Spec.sanitizedRequest a)
                            requests).
        { unfold requests. destruct (truthy _); [apply requestFor_completions|constructor]. }
        destruct (completions_quiet _ Hr) as (He & _).
        apply requests_quiet in Hr.
        rewrite advance_advance.
        destruct (signalsCreate _ _) as [signalId|msg]; eexists _, _, _;
          (split; [done|]); unfold Vocabulary.fetches, Spec.emissions in *;
          rewrite !omap_app, He0, Hf0, He, Hr; cbn; by rewrite app_nil_r.
    + rewrite (scanTarget_update_throw _ _ _ _ _ _ _ _ Hc Hu).
      rewrite advance_advance. eexists _, _, _. split; [done|].
      unfold Vocabulary.fetches, Spec.emissions in *.
      rewrite !omap_app, He0, Hf0. cbn. by rewrite app_nil_r.
  - rewrite (scanTarget_throw _ _ _ _ _ _ _ Hc).
    rewrite advance_advance. eexists _, _, _. split; [done|].
    unfold Vocabulary.fetches, Spec.emissions in *.
    rewrite !omap_app, He0, Hf0. cbn. by rewrite app_nil_r.
Qed.

Lemma scanTargets_cycle (userId : jsstring) (onSignal onNoise : nat)
      (userTargets : list Target) (w : World) :
  Vocabulary.fetches
    (Spec.since w (Signal.scanTargets userId onSignal onNoise userTargets w).2)
  = flat_map (fun target => Vocabulary.guardedFetch (t_url target)) userTargets
  ∧ map Vocabulary.namedTarget
        (Spec.emissions
           (Spec.since w (Signal.scanTargets userId onSignal onNoise userTargets w).2))
    = map (fun target => Some (displayName target)) userTargets.
Proof.
  assert (Hrun : ∃ n l,
             Signal.scanTargets userId onSignal onNoise userTargets w
             = (Ret tt, advance n l w)
             ∧ Vocabulary.fetches l
               = flat_map (fun target => Vocabulary.guardedFetch (t_url target))
                          userTargets
             ∧ map Vocabulary.namedTarget (Spec.emissions l)
               = map (fun target => Some (displayName target)) userTargets).
  { revert w. induction userTargets as [|target rest IH]; intros w.
    - exists 0%nat, []. by rewrite advance_0.
    - rewrite scanTargets_cons.
      destruct (scanTarget_cycle userId onSignal onNoise target w)
        as (n1 & l1 & e & -> & Hf & He & Hn). cbn [snd].
      destruct (IH (advance n1 l1 w)) as (n2 & l2 & -> & Hfs & Hes).
      rewrite advance_advance. eexists _, _. split; [done|].
      unfold Vocabulary.fetches, Spec.emissions in *.
      rewrite !omap_app, Hf, He, Hfs. cbn. by rewrite Hn, Hes. }
  destruct Hrun as (n & l & -> & Hf & He). cbn [snd]. by rewrite since_advance.
Qed.

End InFlight.

(** X14. [stopMonitoring] prevents the ticks to come and does not cancel a
    tick in progress. Take a pending timer in a state the module can reach.
    Once its user is stopped, or restarted, that timer does not fire, and a
    run of its callback that begins after the stop returns at once: no
    query, no fetch, no line. But the loop over the targets does not look at
    the session again: resumed after the stop, it still fetches every
    remaining target whose URL the guard accepts and reports every
    remaining target, in order. *)
Theorem stop_prevents_later_ticks_only `{Runtime} `{Env} (ops : list Signal.Op)
        (handle : nat) (c : Closure) (onSignal onNoise : nat) :
  timers (Signal.run ops Signal.initial) !! handle = Some c →
  let w := Signal.run ops Signal.initial in
  let stopped := (Signal.stopMonitoring (c_userId c) w).2 in
  let restarted := (Signal.startMonitoring (c_userId c) onSignal onNoise w).2 in
  Signal.timerFires handle stopped = (Ret tt, stopped)
  ∧ Signal.intervalCallback c stopped = (Ret tt, stopped)
  ∧ Signal.timerFires handle restarted = (Ret tt, restarted)
  ∧ Signal.intervalCallback c restarted = (Ret tt, restarted)
  ∧ (∀ remaining,
       Vocabulary.fetches
         (Spec.since stopped
            (Signal.scanTargets (c_userId c) (c_onSignal c) (c_onNoise c)
                                remaining stopped).2)
       = flat_map (fun target => Vocabulary.guardedFetch (t_url target)) remaining
       ∧ map Vocabulary.namedTarget
             (Spec.emissions
                (Spec.since stopped
                   (Signal.scanTargets (c_userId c) (c_onSignal c) (c_onNoise c)
                                       remaining stopped).2))
         = map (fun target => Some (displayName target)) remaining).
Proof.
  intros Hc w stopped restarted.
  pose proof (consistent_run ops Signal.initial consistent_initial) as Hw.
  fold w in Hw, Hc.
  destruct (pending_timer_registered w handle c Hw Hc) as (id & Hreg & Hheap).
  pose proof (consistent_stop (c_userId c) w Hw) as (_ & _ & Hfresh & _).
  fold stopped in Hfresh.
  assert (Hstopped : timers stopped !! handle = None
                     ∧ heap stopped !! c_session c
                       = Some (mkSession id (c_userId c) None false)
                     ∧ nextTimer stopped = nextTimer w).
  { unfold stopped.
    rewrite (stopMonitoring_registered _ w _ handle id Hreg Hheap).
    cbn [snd timers heap nextTimer]. by rewrite lookup_delete_eq, lookup_insert_eq. }
  destruct Hstopped as (Htimer & Hsession & Hnext).
  assert (Hrestarted : timers restarted !! handle = None
                       ∧ heap restarted !! c_session c
                         = Some (mkSession id (c_userId c) None false)).
  { unfold restarted. rewrite startMonitoring_run. cbv zeta. fold stopped.
    cbn [snd timers heap]. split.
    - rewrite lookup_insert_ne; [done|]. rewrite Hnext. intros <-.
      destruct Hw as (_ & _ & _ & Hpending).
      rewrite Hpending in Hc by lia. done.
    - rewrite lookup_insert_ne; [done|]. intros E.
      rewrite <- E, Hfresh in Hsession by lia. done. }
  destruct Hrestarted as [Htimer' Hsession'].
  split_and!; [| | | |intros remaining; apply scanTargets_cycle];
    unfold Signal.timerFires, Signal.intervalCallback;
    rewrite ?Htimer, ?Htimer', ?Hsession, ?Hsession'; done.
Qed.

Lemma stop_prevents_later_ticks_only_witness :
  Signal.timerFires (H := Examples.exampleRuntime) (H0 := Examples.exampleEnv) 0
                    (Signal.stopMonitoring (js "bob") Examples.bobRunning).2
  = (Ret tt, (Signal.stopMonitoring (js "bob") Examples.bobRunning).2)
  ∧ Vocabulary.fetches
      (Spec.since (Signal.stopMonitoring (js "bob") Examples.bobRunning).2
         (Signal.scanTargets (H := Examples.exampleRuntime) (H0 := Examples.exampleEnv)
                             (js "bob") 1 2 Examples.bobTargets
                             (Signal.stopMonitoring (js "bob") Examples.bobRunning).2).2)
    = [js "http://example.com:8080/api"; js "https://example.com/"].
Proof.
  destruct (stop_prevents_later_ticks_only
              (H := Examples.exampleRuntime) (H0 := Examples.exampleEnv)
              [Signal.OpStart (js "bob") 1 2] 0%nat (mkClosure 0 (js "bob") 1 2)
              3%nat 4%nat) as (Hfire & _ & _ & _ & Hrest); [vm_compute; reflexivity|].
  split; [exact Hfire|]. exact (proj1 (Hrest Examples.bobTargets)).
Defined.
